(** * A shallow embedding of main.py (book-summary video pipeline)

    Python [str] values are modelled by [string]: a character is a code
    point below 256.  Third-party calls (HTTP, the OpenAI client, moviepy,
    pysrt, the Google client libraries) are oracles of a [world]; the code of
    main.py itself (retry loops, string formatting, the work-list scan, the
    credential logic) is translated function by function.

    The program runs on a POSIX system: paths are pathlib's PosixPath and
    the line separator is the newline.  The work-list exists and can be
    read and written; it is read through Python's text layer, which
    translates line ends.  The times of the subtitle cues are floats, that
    is IEEE 754 doubles ([spec_float]).  The progress of an upload and the
    hours drawn in main are taken at their exact value ([Q]), and what is
    proved of them is bounds that rounding to a double keeps. *)

From Stdlib Require Import ZArith QArith Qround Qabs Lia Bool List Ascii String.
From Stdlib Require Import SpecFloat.
From stdpp Require Import base list gmap strings pretty.

Local Open Scope string_scope.
Local Open Scope list_scope.

(** ** Python string operations used by main.py *)

Module Str.

(** [s.startswith(p)] *)
Fixpoint startswith (p s : string) : bool :=
  match p with
  | EmptyString => true
  | String a p' =>
      match s with
      | EmptyString => false
      | String b s' => if Ascii.eqb a b then startswith p' s' else false
      end
  end.

(** [s.replace(old, new)] for a non-empty [old]: left-to-right,
    non-overlapping.  [skip] counts the characters of a match still to drop. *)
Fixpoint replace_from (old new : string) (skip : nat) (s : string) : string :=
  match s with
  | EmptyString => EmptyString
  | String c s' =>
      match skip with
      | S k => replace_from old new k s'
      | O =>
          if startswith old s
          then new +:+ replace_from old new (String.length old - 1) s'
          else String c (replace_from old new 0 s')
      end
  end.

Definition replace (old new s : string) : string := replace_from old new 0 s.

(** [str.isspace] on code points below 256. *)
Definition isspace (c : ascii) : bool :=
  let n := nat_of_ascii c in
  (((9 <=? n) && (n <=? 13)) || ((28 <=? n) && (n <=? 32))
   || (n =? 133) || (n =? 160))%nat.

Fixpoint lstrip (s : string) : string :=
  match s with
  | EmptyString => EmptyString
  | String c s' => if isspace c then lstrip s' else s
  end.

(** Drops trailing whitespace: a character is kept when it is not whitespace
    or when something is kept after it. *)
Fixpoint rstrip (s : string) : string :=
  match s with
  | EmptyString => EmptyString
  | String c s' =>
      match rstrip s' with
      | EmptyString => if isspace c then EmptyString else String c EmptyString
      | r => String c r
      end
  end.

(** [s.strip()] *)
Definition strip (s : string) : string := rstrip (lstrip s).

(** [str.lower] on one code point below 256: A-Z and the Latin-1 capitals. *)
Definition lower_char (c : ascii) : ascii :=
  let n := nat_of_ascii c in
  if (((65 <=? n) && (n <=? 90)) || ((192 <=? n) && (n <=? 214))
      || ((216 <=? n) && (n <=? 222)))%nat
  then ascii_of_nat (n + 32) else c.

Fixpoint lower (s : string) : string :=
  match s with
  | EmptyString => EmptyString
  | String c s' => String (lower_char c) (lower s')
  end.

Definition newline : ascii := ascii_of_nat 10.
Definition cr : ascii := ascii_of_nat 13.

(** What the text layer of [open(path, 'r+')] hands over of the stored
    characters: the line ends "\r\n" and "\r" both read as a newline. *)
Fixpoint universal_newlines (s : string) : string :=
  match s with
  | EmptyString => EmptyString
  | String c s' =>
      if Ascii.eqb c cr then
        match s' with
        | String c' s'' =>
            if Ascii.eqb c' newline
            then String newline (universal_newlines s'')
            else String newline (universal_newlines s')
        | EmptyString => String newline EmptyString
        end
      else String c (universal_newlines s')
  end.

Fixpoint no_cr (s : string) : bool :=
  match s with
  | EmptyString => true
  | String c s' => negb (Ascii.eqb c cr) && no_cr s'
  end.

(** The one-character string holding a double quote. *)
Definition dquote : string := String (ascii_of_nat 34) EmptyString.

(** [file.readlines()] on the text of the file as Python's text layer hands
    it over (line ends already translated to a newline): every line keeps its
    newline, the last line may lack one. *)
Fixpoint readlines (s : string) : list string :=
  match s with
  | EmptyString => []
  | String c s' =>
      if Ascii.eqb c newline then String c EmptyString :: readlines s'
      else match readlines s' with
           | [] => [String c EmptyString]
           | l :: ls => String c l :: ls
           end
  end.

(** No newline before the last character. *)
Fixpoint newline_only_last (s : string) : bool :=
  match s with
  | EmptyString => true
  | String c s' =>
      match s' with
      | EmptyString => true
      | String _ _ => negb (Ascii.eqb c newline) && newline_only_last s'
      end
  end.

Fixpoint ends_newline (s : string) : bool :=
  match s with
  | EmptyString => false
  | String c s' =>
      match s' with
      | EmptyString => Ascii.eqb c newline
      | String _ _ => ends_newline s'
      end
  end.

Fixpoint no_newline (s : string) : bool :=
  match s with
  | EmptyString => true
  | String c s' => negb (Ascii.eqb c newline) && no_newline s'
  end.

(** A line as readlines yields it: non-empty, a newline at most at its end. *)
Definition line_wf (l : string) : Prop :=
  l <> EmptyString /\ newline_only_last l = true.

(** A list of lines as readlines yields it: every line but the last ends in
    a newline. *)
Fixpoint lines_wf (ls : list string) : Prop :=
  match ls with
  | [] => True
  | l :: ls' =>
      line_wf l /\
      match ls' with
      | [] => True
      | _ :: _ => ends_newline l = true /\ lines_wf ls'
      end
  end.

(** [file.writelines(lines)]: the lines one after the other. *)
Fixpoint writelines (lines : list string) : string :=
  match lines with
  | [] => EmptyString
  | l :: ls => l +:+ writelines ls
  end.

(** [s.split('\n')] *)
Fixpoint split_newline (s : string) : list string :=
  match s with
  | EmptyString => [EmptyString]
  | String c s' =>
      if Ascii.eqb c newline then EmptyString :: split_newline s'
      else match split_newline s' with
           | [] => [String c EmptyString]
           | l :: ls => String c l :: ls
           end
  end.

(** ["\n".join(parts)] *)
Definition join_newline (parts : list string) : string :=
  String.concat (String newline EmptyString) parts.

End Str.

(** ** Python values, exceptions and the effects of a call *)

(** The values [generate_book_summary] can hand back. *)
Inductive pyvalue :=
| PStr (s : string)
| PTuple2 (first : string) (second : list string).

Inductive exn :=
| TypeError
| KeyError
| IndexError
| ValueError
| OverflowError
| ZeroDivisionError
| RefreshError
| UnicodeDecodeError
| LibraryError (what : string).

(** A call returns, raises, or (for a loop run on fuel) runs out of fuel. *)
Inductive result (A : Type) :=
| Return (a : A)
| Raise (e : exn)
| OutOfFuel.
Arguments Return {A} a.
Arguments Raise {A} e.
Arguments OutOfFuel {A}.

(** google.oauth2 credentials, by the attributes main.py reads. *)
Record Credentials := {
  valid : bool;
  expired : bool;
  refresh_token : option string;
  token : string
}.

(** pysrt's SubRipTime and SubRipItem, by the attributes main.py reads. *)
Record SubRipTime := {
  hours : Z; minutes : Z; seconds : Z; milliseconds : Z
}.
Record SubRipItem := {
  start : SubRipTime; end_ : SubRipTime; text : string
}.

(** The calls [process_books] makes into moviepy and pysrt, and
    [upload_video_to_youtube] taken as one call: its chunk loop is driven by
    the client library's answers alone.  Then the steps of the two
    credential paths that stand outside any [try]: loading the cached token
    ([open] and [pickle.load], or [from_authorized_user_file]), reading the
    client secrets, the local server of the login, storing the token ([open]
    and [pickle.dump], or [to_json] and [write]), and [build]. *)
Inductive lib_call :=
| AudioFileClip (path : string)
| CreateVideoFromImageAndAudio (image_path audio_path output_path : string)
| VideoFileClip (path : string)
| PysrtOpen (path : string)
| OpenText (path encoding errors : string)
| WriteVideofile (path : string) (layers : nat)
| UploadVideoToYoutube (file_path title description category_id privacy_status : string)
| PickleLoad (token_file : string)
| FromAuthorizedUserFile (token_file : string)
| FromClientSecretsFile (client_secret_file : string)
| RunLocalServer
| PickleDump (token_file : string)
| WriteJson (token_file : string)
| Build (service_name version : string).

(** What a run does to the outside, in order. *)
Inductive event :=
| EPost (url authorization prompt : string)
| ESleep (seconds : Z)
| EPrint (msg : string)
| EProcessing (i : nat) (book_title : string)
| EMkdir (path : string)
| ESpeech (voice input path : string)
| EImage (prompt path : string)
| ETranscribe (audio_path : string)
| EWriteFile (path content : string)
| ECall (c : lib_call)
| ERefresh
| ELogin (client_secret_file : string)
| EWriteToken (token_file : string) (creds : Credentials).

(** The effect monad: a result and the events up to it. *)
Definition M (A : Type) : Type := result A * list event.

Definition ret {A} (a : A) : M A := (Return a, []).
Definition raise {A} (e : exn) : M A := (Raise e, []).
Definition emit (e : event) : M unit := (Return tt, [e]).

Definition bind {A B} (m : M A) (k : A -> M B) : M B :=
  match m with
  | (Return a, t) => let '(r, t') := k a in (r, t ++ t')
  | (Raise e, t) => (Raise e, t)
  | (OutOfFuel, t) => (OutOfFuel, t)
  end.

Notation "'let*' x ':=' m 'in' k" := (bind m (fun x => k))
  (at level 10, x name, m at level 100, k at level 200).
Notation "m ';;' k" := (bind m (fun _ => k))
  (at level 100, k at level 200, right associativity).

(** ** The outside world of one invocation *)

(** What [response.json()['choices'][0]['message']['content']] finds in the
    body of an answer: the content, which the model takes to be a string, as
    the endpoint answers a request of this kind; a body that is not JSON,
    for which [response.json()] raises requests' JSONDecodeError, a
    RequestException; or JSON without the content, where a subscript raises
    KeyError (a key is missing), IndexError ([choices] is empty) or
    TypeError (a value of another type), none of which
    [except requests.RequestException] catches. *)
Inductive body :=
| BodySummary (content : string)
| BodyNotJson
| BodyNoKey
| BodyNoChoice
| BodyWrongType.

(** What [requests.post] does on one attempt. *)
Inductive http_outcome :=
| RequestException
| Response (status_code : Z) (json : body).

Record world := {
  (* generate_book_summary: the k-th requests.post *)
  w_post : nat -> http_outcome;
  (* text_to_speech *)
  (* text_to_speech: mkdir, random.choice, the k-th create and stream_to_file;
     Some e is the text of the exception raised *)
  w_mkdir : option string;
  w_choice : nat;
  w_speech : nat -> option string;
  (* generate_book_thumbnail: generate, download and write, k-th attempt *)
  w_image : nat -> option string;
  (* generate_subtitles: open the audio and transcribe, k-th attempt: the SRT
     text, or the text of the exception *)
  w_transcribe : nat -> string + string;
  (* open(path, 'w') and write: Some e is the text of the exception *)
  w_write_error : string -> option string;
  (* the third-party calls of process_books and the library steps of the
     credential paths: None when the call returns *)
  w_lib : lib_call -> option exn;
  w_video_size : Z * Z;
  (* pysrt.open(path), f.read() of open(path, encoding, errors),
     pysrt.from_string *)
  w_pysrt_open : string -> list SubRipItem;
  w_read_text : string -> string -> string -> string;
  w_from_string : string -> list SubRipItem;
  (* credentials: the cached token of each store (None when the file is
     absent), creds.refresh (the refreshed credentials, or the text of the
     exception), what flow.run_local_server returns *)
  w_youtube_token : option Credentials;
  w_drive_token : option Credentials;
  w_refresh : Credentials -> Credentials + string;
  w_login : Credentials;
  (* Path(__file__).parent *)
  w_parent : string
}.

(** [time.sleep(seconds)] on an int: ValueError for a negative length,
    OverflowError for one that does not fit the clock's 2^63 nanoseconds. *)
Definition max_sleep : Z := 9223372036.

Definition sleep (seconds : Z) : M unit :=
  if ((seconds <? - max_sleep) || (max_sleep <? seconds))%Z
  then raise OverflowError
  else if (seconds <? 0)%Z then raise ValueError
  else emit (ESleep seconds).

(** One third-party call: logged, then it returns or raises. *)
Definition call (w : world) (c : lib_call) : M unit :=
  emit (ECall c) ;;
  match w_lib w c with
  | None => ret tt
  | Some e => raise e
  end.

(** A third-party step that leaves no entry of its own in the trace: it
    returns or raises. *)
Definition attempt (w : world) (c : lib_call) : M unit :=
  match w_lib w c with
  | None => ret tt
  | Some e => raise e
  end.

(** ** generate_book_summary (lines 19-59) *)

Definition summary_url : string := "https://api.openai.com/v1/chat/completions".

Definition summary_prompt (book_title : string) : string :=
  "Summarize the book, make the summary around 525 words and keep the words and text simple '"
  +:+ book_title +:+ "'.".

Definition max_retries_message : string :=
  "Max retries reached. Unable to generate summary.".

(** The [while attempts < max_retries] loop; [k] counts the posts made. *)
Fixpoint summary_loop (w : world) (book_title api_key : string)
    (max_retries delay : Z) (fuel : nat) (attempts : Z) (k : nat)
    : M pyvalue :=
  if (attempts <? max_retries)%Z then
    match fuel with
    | O => (OutOfFuel, [])
    | S fuel' =>
        emit (EPost summary_url ("Bearer " +:+ api_key) (summary_prompt book_title)) ;;
        let retry :=
          sleep delay ;;
          summary_loop w book_title api_key max_retries delay fuel'
            (attempts + 1)%Z (S k) in
        match w_post w k with
        | Response status_code json =>
            if (status_code =? 200)%Z then
              match json with
              | BodySummary full_summary => ret (PStr full_summary)
              | BodyNotJson => retry
              | BodyNoKey => raise KeyError
              | BodyNoChoice => raise IndexError
              | BodyWrongType => raise TypeError
              end
            else retry
        | RequestException => retry
        end
    end
  else ret (PTuple2 max_retries_message []).

Definition generate_book_summary_with (w : world) (book_title api_key : string)
    (max_retries delay : Z) : M pyvalue :=
  summary_loop w book_title api_key max_retries delay
    (Z.to_nat max_retries) 0%Z 0.

(** The call of process_books: [max_retries=3, delay=2]. *)
Definition generate_book_summary (w : world) (book_title api_key : string)
    : M pyvalue :=
  generate_book_summary_with w book_title api_key 3 2.

(** ** Slug and paths *)

(** Line 332, in process_books. *)
Definition safe_book_title (book_title : string) : string :=
  Str.lower (Str.replace ":" EmptyString
               (Str.replace Str.dquote EmptyString
                  (Str.replace " " "_" book_title))).

(** Line 75, in text_to_speech. *)
Definition speech_safe_book_title (book_title : string) : string :=
  Str.lower (Str.replace ":" EmptyString
               (Str.replace Str.dquote EmptyString
                  (Str.replace " " "_" book_title))).

(** Line 139, in generate_book_thumbnail. *)
Definition thumbnail_safe_book_title (book_title : string) : string :=
  Str.lower (Str.replace ":" EmptyString
               (Str.replace Str.dquote EmptyString
                  (Str.replace " " "_" book_title))).

(** The slug in the spec's words: character by character, a space becomes an
    underscore, a double quote or a colon is dropped, the rest is lowercased. *)
Definition slug_char (c : ascii) : option ascii :=
  if Ascii.eqb c " " then Some "_"%char
  else if Ascii.eqb c (ascii_of_nat 34) then None
  else if Ascii.eqb c ":" then None
  else Some (Str.lower_char c).

Fixpoint slug_spec (title : string) : string :=
  match title with
  | EmptyString => EmptyString
  | String c rest =>
      match slug_char c with
      | Some c' => String c' (slug_spec rest)
      | None => slug_spec rest
      end
  end.

(** ** pathlib, on a POSIX system *)

Module Path.

(** A path as pathlib holds it: the root ([/], [//] or none) and the parts
    after it, none of them empty or a single dot. *)
Record t := { root : string; parts : list string }.

(** [s.split('/')] *)
Fixpoint split_slash (s : string) : list string :=
  match s with
  | EmptyString => [EmptyString]
  | String c s' =>
      if Ascii.eqb c "/" then EmptyString :: split_slash s'
      else match split_slash s' with
           | [] => [String c EmptyString]
           | part :: rest => String c part :: rest
           end
  end.

(** The parts pathlib keeps: [if x and x != '.']. *)
Definition kept (part : string) : bool :=
  negb (String.eqb part EmptyString || String.eqb part ".").

(** [p[1:]] *)
Definition tail (p : string) : string :=
  match p with
  | EmptyString => EmptyString
  | String _ rest => rest
  end.

(** posixpath.splitroot: exactly two leading slashes are a root of their
    own, one or more than two are the root [/]. *)
Definition splitroot (p : string) : string * string :=
  if negb (Str.startswith "/" p) then (EmptyString, p)
  else if negb (Str.startswith "//" p) || Str.startswith "///" p
       then ("/", tail p)
       else ("//", tail (tail p)).

(** [Path(s)] *)
Definition parse (s : string) : t :=
  let '(root, rel) := splitroot s in
  {| root := root; parts := List.filter kept (split_slash rel) |}.

(** [str(p)]: the path without root and parts is shown as a dot. *)
Definition str (p : t) : string :=
  match root p, parts p with
  | EmptyString, [] => "."
  | root, parts => root +:+ String.concat "/" parts
  end.

(** [p / key]: a key that starts with a slash replaces the path, any other
    adds its parts. *)
Definition joinpath (p : t) (key : string) : t :=
  if Str.startswith "/" key then parse key
  else {| root := root p; parts := parts p ++ parts (parse key) |}.

End Path.

(** [Path(__file__).parent / f"Videos/{safe_book_title}"]; [w_parent] is the
    string of [Path(__file__).parent]. *)
Definition directory_path (w : world) (slug : string) : Path.t :=
  Path.joinpath (Path.parse (w_parent w)) ("Videos/" +:+ slug).

(** ** text_to_speech (lines 61-109) *)

Definition voices : list string :=
  ["alloy"; "echo"; "fable"; "onyx"; "nova"; "shimmer"].

Definition attempt_message (attempts : Z) (e : string) : string :=
  "Attempt " +:+ pretty (attempts + 1)%Z +:+ ": Error occurred - " +:+ e.

Fixpoint speech_loop (w : world) (text speech_file_path selected_voice : string)
    (max_retries delay : Z) (fuel : nat) (attempts : Z) (k : nat) : M unit :=
  if (attempts <? max_retries)%Z then
    match fuel with
    | O => (OutOfFuel, [])
    | S fuel' =>
        emit (ESpeech selected_voice text speech_file_path) ;;
        match w_speech w k with
        | None =>
            emit (EPrint ("Audio saved as " +:+ speech_file_path
                          +:+ " using voice: " +:+ selected_voice))
        | Some e =>
            emit (EPrint (attempt_message attempts e)) ;;
            sleep delay ;;
            speech_loop w text speech_file_path selected_voice max_retries
              delay fuel' (attempts + 1)%Z (S k)
        end
    end
  else emit (EPrint "Max retries reached. Unable to generate speech.").

Definition text_to_speech (w : world) (text book_title api_key : string)
    : M unit :=
  let safe_book_title := speech_safe_book_title book_title in
  let directory_path := directory_path w safe_book_title in
  emit (EMkdir (Path.str directory_path)) ;;
  match w_mkdir w with
  | Some e => emit (EPrint ("Error creating directory: " +:+ e))
  | None =>
      let speech_file_path := Path.joinpath directory_path "voice.mp3" in
      let selected_voice :=
        nth (w_choice w mod length voices) voices EmptyString in
      speech_loop w text (Path.str speech_file_path) selected_voice 3 2 3 0%Z 0
  end.

(** ** generate_book_thumbnail (lines 111-150) *)

Definition thumbnail_prompt (book_title : string) : string :=
  "Create a thumbnail for my YouTube video. The video is a book summary about the book '"
  +:+ book_title +:+ "'.".

Fixpoint thumbnail_loop (w : world) (book_title : string)
    (max_retries delay : Z) (fuel : nat) (attempts : Z) (k : nat) : M unit :=
  if (attempts <? max_retries)%Z then
    match fuel with
    | O => (OutOfFuel, [])
    | S fuel' =>
        let safe_book_title := thumbnail_safe_book_title book_title in
        let image_path :=
          Path.joinpath (Path.parse (w_parent w))
            ("Videos/" +:+ safe_book_title +:+ "/image.png") in
        emit (EImage (thumbnail_prompt book_title) (Path.str image_path)) ;;
        match w_image w k with
        | None => emit (EPrint ("Thumbnail saved as " +:+ Path.str image_path))
        | Some e =>
            emit (EPrint (attempt_message attempts e)) ;;
            sleep delay ;;
            thumbnail_loop w book_title max_retries delay fuel'
              (attempts + 1)%Z (S k)
        end
    end
  else emit (EPrint "Max retries reached. Unable to generate thumbnail.").

Definition generate_book_thumbnail (w : world) (book_title api_key : string)
    : M unit :=
  thumbnail_loop w book_title 3 2 3 0%Z 0.

(** ** generate_subtitles (lines 152-189) *)

Fixpoint subtitles_loop (w : world) (audio_file_path : string)
    (max_retries delay : Z) (fuel : nat) (attempts : Z) (k : nat)
    : M (option string) :=
  if (attempts <? max_retries)%Z then
    match fuel with
    | O => (OutOfFuel, [])
    | S fuel' =>
        emit (ETranscribe audio_file_path) ;;
        let retry e :=
          emit (EPrint (attempt_message attempts e)) ;;
          sleep delay ;;
          subtitles_loop w audio_file_path max_retries delay fuel'
            (attempts + 1)%Z (S k) in
        match w_transcribe w k with
        | inl srt_content =>
            let srt_file_path := Str.replace ".mp3" ".srt" audio_file_path in
            match w_write_error w srt_file_path with
            | None =>
                emit (EWriteFile srt_file_path srt_content) ;;
                ret (Some srt_file_path)
            | Some e => retry e
            end
        | inr e => retry e
        end
    end
  else
    emit (EPrint "Max retries reached. Unable to generate subtitles.") ;;
    ret None.

Definition generate_subtitles_with (w : world) (api_key audio_file_path : string)
    (max_retries delay : Z) : M (option string) :=
  subtitles_loop w audio_file_path max_retries delay (Z.to_nat max_retries)
    0%Z 0.

Definition generate_subtitles (w : world) (api_key audio_file_path : string)
    : M (option string) :=
  generate_subtitles_with w api_key audio_file_path 3 2.

(** ** Python floats

    A float is an IEEE 754 double: [spec_float] with a 53-bit mantissa, its
    operations rounding to the nearest double, ties to even. *)

Module Double.

Definition t : Type := spec_float.
Definition prec : Z := 53.
Definition emax : Z := 1024.

Definition add (x y : t) : t := SFadd prec emax x y.
Definition sub (x y : t) : t := SFsub prec emax x y.
Definition leb (x y : t) : bool := SFleb x y.

Definition is_finite (x : t) : bool :=
  match x with
  | S754_zero _ | S754_finite _ _ _ => true
  | S754_infinity _ | S754_nan => false
  end.

(** An int as a mantissa with exponent 0, of any size: the operand of a
    division that rounds once. *)
Definition exact (n : Z) : t :=
  match n with
  | Z0 => S754_zero false
  | Zpos m => S754_finite false m 0
  | Zneg m => S754_finite true m 0
  end.

(** The double nearest to the int [n], an infinity when it is out of
    range. *)
Definition nearest (n : Z) : t := binary_normalize prec emax n 0 false.

(** The double nearest to [a / b], for [b] other than 0. *)
Definition quotient (a b : Z) : t := SFdiv prec emax (exact a) (exact b).

End Double.

(** The conversion of an int operand of a float operation: OverflowError
    for an int beyond the range of doubles. *)
Definition float_of_int (n : Z) : M Double.t :=
  let x := Double.nearest n in
  if Double.is_finite x then ret x else raise OverflowError.

(** [a / b] on ints: correctly rounded; ZeroDivisionError, and
    OverflowError for a quotient beyond the range of doubles. *)
Definition int_truediv (a b : Z) : M Double.t :=
  if (b =? 0)%Z then raise ZeroDivisionError
  else
    let x := Double.quotient a b in
    if Double.is_finite x then ret x else raise OverflowError.

(** ** time_to_seconds and create_subtitle_clips (lines 191-209) *)

(** The int sum comes first, then the division, then the conversion of the
    sum for the last addition. *)
Definition time_to_seconds (time_obj : SubRipTime) : M Double.t :=
  let whole :=
    (hours time_obj * 3600 + minutes time_obj * 60 + seconds time_obj)%Z in
  let* fraction := int_truediv (milliseconds time_obj) 1000 in
  let* whole := float_of_int whole in
  ret (Double.add whole fraction).

(** A moviepy TextClip, by the arguments create_subtitle_clips gives it:
    [set_start] sets [clip_start], [set_duration] sets [clip_duration],
    [set_position] sets [clip_position]. *)
Record TextClip := {
  clip_text : string;
  clip_fontsize : Z;
  clip_font : string;
  clip_color : string;
  clip_bg_color : string;
  clip_size : Double.t * option Double.t;
  clip_method : string;
  clip_start : Double.t;
  clip_duration : Double.t;
  clip_position : string * Double.t
}.

(** The body of the loop of lines 198-207. *)
Definition create_subtitle_clip (video_width video_height : Z) (fontsize : Z)
    (font color : string) (subtitle : SubRipItem) : M TextClip :=
  let* start_time := time_to_seconds (start subtitle) in
  let* end_time := time_to_seconds (end_ subtitle) in
  let duration := Double.sub end_time start_time in
  let* width := int_truediv (video_width * 3) 4 in
  let subtitle_x_position := "center" in
  let* subtitle_y_position := int_truediv (video_height * 4) 5 in
  let text_position := (subtitle_x_position, subtitle_y_position) in
  ret {| clip_text := text subtitle;
         clip_fontsize := fontsize;
         clip_font := font;
         clip_color := color;
         clip_bg_color := "black";
         clip_size := (width, None);
         clip_method := "caption";
         clip_start := start_time;
         clip_duration := duration;
         clip_position := text_position |}.

(** The [for subtitle in subtitles] loop, appending one clip per cue. *)
Fixpoint subtitle_clips_loop (video_width video_height : Z) (fontsize : Z)
    (font color : string) (subtitles : list SubRipItem)
    (subtitle_clips : list TextClip) : M (list TextClip) :=
  match subtitles with
  | [] => ret subtitle_clips
  | subtitle :: rest =>
      let* text_clip :=
        create_subtitle_clip video_width video_height fontsize font color
          subtitle in
      subtitle_clips_loop video_width video_height fontsize font color rest
        (subtitle_clips ++ [text_clip])
  end.

Definition create_subtitle_clips (subtitles : list SubRipItem)
    (videosize : Z * Z) : M (list TextClip) :=
  let '(video_width, video_height) := videosize in
  subtitle_clips_loop video_width video_height 50 "Arial" "white" subtitles [].


(** ** service_youtube (lines 212-236) and service_google_drive (382-409) *)

Record Service := {
  service_name : string;
  service_version : string;
  service_credentials : Credentials
}.

(** Truth value of [creds.refresh_token]. *)
Definition truthy (o : option string) : bool :=
  match o with
  | Some (String _ _) => true
  | _ => false
  end.

(** Lines 229-230 and 402-403: the login is logged when the local server
    is started. *)
Definition interactive_login (w : world) (client_secret_file : string)
    : M Credentials :=
  attempt w (FromClientSecretsFile client_secret_file) ;;
  emit (ELogin client_secret_file) ;;
  attempt w RunLocalServer ;;
  ret (w_login w).

Definition service_youtube (w : world) : M Service :=
  let token_file := "youtube_token.pickle" in
  let client_secret_file := "client_secret.json" in
  let* creds :=
    match w_youtube_token w with
    | Some c => attempt w (PickleLoad token_file) ;; ret (Some c)
    | None => ret None
    end in
  let* creds :=
    match creds with
    | Some c =>
        if valid c then ret c
        else
          let* c' :=
            if expired c && truthy (refresh_token c) then
              emit ERefresh ;;
              match w_refresh w c with
              | inl refreshed => ret refreshed
              | inr _ => raise RefreshError
              end
            else interactive_login w client_secret_file in
          attempt w (PickleDump token_file) ;;
          emit (EWriteToken token_file c') ;;
          ret c'
    | None =>
        let* c' := interactive_login w client_secret_file in
        attempt w (PickleDump token_file) ;;
        emit (EWriteToken token_file c') ;;
        ret c'
    end in
  attempt w (Build "youtube" "v3") ;;
  ret {| service_name := "youtube"; service_version := "v3";
         service_credentials := creds |}.

Definition service_google_drive (w : world) : M Service :=
  let token_file := "token.json" in
  let client_secret_file := "client_secret.json" in
  let* creds :=
    match w_drive_token w with
    | Some c => attempt w (FromAuthorizedUserFile token_file) ;; ret (Some c)
    | None => ret None
    end in
  let* creds :=
    match creds with
    | Some c =>
        if valid c then ret c
        else
          let* creds' :=
            if expired c && truthy (refresh_token c) then
              emit ERefresh ;;
              match w_refresh w c with
              | inl refreshed => ret (Some refreshed)
              | inr e =>
                  emit (EPrint ("Error refreshing access token: " +:+ e)) ;;
                  ret None
              end
            else ret (Some c) in
          let* c' :=
            match creds' with
            | Some c' => ret c'
            | None => interactive_login w client_secret_file
            end in
          attempt w (WriteJson token_file) ;;
          emit (EWriteToken token_file c') ;;
          ret c'
    | None =>
        let* c' := interactive_login w client_secret_file in
        attempt w (WriteJson token_file) ;;
        emit (EWriteToken token_file c') ;;
        ret c'
    end in
  attempt w (Build "drive" "v3") ;;
  ret {| service_name := "drive"; service_version := "v3";
         service_credentials := creds |}.

(** ** open_srt_with_encoding (lines 377-380) and the parse of lines 353-356 *)

Definition open_srt_with_encoding (w : world) (file_path encoding : string)
    : M (list SubRipItem) :=
  call w (OpenText file_path encoding "ignore") ;;
  let content := w_read_text w file_path encoding "ignore" in
  ret (w_from_string w content).

(** [try: pysrt.open(path) except UnicodeDecodeError: ...] *)
Definition parse_subtitles (w : world) (srt_path : string)
    : M (list SubRipItem) :=
  emit (ECall (PysrtOpen srt_path)) ;;
  match w_lib w (PysrtOpen srt_path) with
  | None => ret (w_pysrt_open w srt_path)
  | Some UnicodeDecodeError =>
      open_srt_with_encoding w srt_path "windows-1252"
  | Some e => raise e
  end.

(** ** process_books (lines 291-374) *)

(** [str(x)] as [print] shows a summary value. *)
Definition py_str (v : pyvalue) : string :=
  match v with
  | PStr s => s
  | PTuple2 first second =>
      "('" +:+ first +:+ "', ["
      +:+ String.concat ", " (map (fun x => "'" +:+ x +:+ "'") second) +:+ "])"
  end.

(** [full_summary += suffix] with a [str] on the right: a tuple on the left
    raises TypeError. *)
Definition py_iadd (v : pyvalue) (suffix : string) : M string :=
  match v with
  | PStr s => ret (s +:+ suffix)
  | PTuple2 _ _ => raise TypeError
  end.

(** [str(srt_path)] *)
Definition str_of_path (p : option string) : string :=
  match p with
  | Some s => s
  | None => "None"
  end.

Definition outro : string :=
  "Thank you for watching! Please subscribe to the channel and feel free to leave any requests in the comments.".

(** The marker line written at line 367. *)
Definition processed_line (book_title : string) : string :=
  "PROCESSED: " +:+ book_title +:+ String Str.newline EmptyString.

(** Lines 321-364: the pipeline for one title. *)
Definition pipeline (w : world) (api_key book_title : string) : M unit :=
  let* full_summary := generate_book_summary w book_title api_key in
  emit (EPrint (py_str full_summary)) ;;
  let* full_summary := py_iadd full_summary outro in
  text_to_speech w full_summary book_title api_key ;;
  generate_book_thumbnail w book_title api_key ;;
  let safe_book_title := safe_book_title book_title in
  let directory_path := directory_path w safe_book_title in
  let image_path := Path.joinpath directory_path "image.png" in
  let audio_path := Path.joinpath directory_path "voice.mp3" in
  let* srt_path := generate_subtitles w api_key (Path.str audio_path) in
  call w (AudioFileClip (Path.str audio_path)) ;;
  let output_path :=
    Path.joinpath directory_path
      ("Book_Summary_" +:+ safe_book_title +:+ ".mp4") in
  let output_video_path :=
    Path.joinpath directory_path
      ("Book_Summary_" +:+ safe_book_title +:+ "_subbed.mp4") in
  let video_title := "Book Summary: " +:+ book_title in
  let summary_lines := Str.split_newline full_summary in
  let video_description :=
    if (2 <=? length summary_lines)%nat
    then Str.join_newline (take 2 summary_lines)
    else full_summary in
  call w (CreateVideoFromImageAndAudio (Path.str image_path)
            (Path.str audio_path) (Path.str output_path)) ;;
  call w (VideoFileClip (Path.str output_path)) ;;
  let* subtitles := parse_subtitles w (str_of_path srt_path) in
  let* subtitle_clips := create_subtitle_clips subtitles (w_video_size w) in
  call w (WriteVideofile (Path.str output_video_path)
            (1 + length subtitle_clips)) ;;
  call w (UploadVideoToYoutube (Path.str output_video_path) video_title
            video_description "22" "public").

(** Lines 318-364 at loop index [i]: [print(f"Processing: {book_title}")],
    logged with the index, then the pipeline. *)
Definition process_title (w : world) (api_key : string) (i : nat)
    (book_title : string) : M unit :=
  emit (EProcessing i book_title) ;;
  pipeline w api_key book_title.

(** The [for i, line in enumerate(lines)] loop: [rest] is what is left to
    visit, [lines] the whole list.  The taken branch of [if not
    book_processed] ends in [break]. *)
Fixpoint scan_lines (w : world) (api_key : string) (i : nat)
    (rest lines : list string) (processed_books : gset string)
    (book_processed : bool) : M (list string) :=
  match rest with
  | [] => ret lines
  | line :: rest' =>
      if Str.startswith "PROCESSED:" line then
        scan_lines w api_key (S i) rest' lines
          ({[ Str.strip (Str.replace "PROCESSED:" EmptyString (Str.strip line)) ]}
           ∪ processed_books) book_processed
      else
        let book_title := Str.strip line in
        if bool_decide (book_title ∈ processed_books) then
          scan_lines w api_key (S i) rest' lines processed_books book_processed
        else if negb book_processed then
          process_title w api_key i book_title ;;
          ret (<[i := processed_line book_title]> lines)
        else
          scan_lines w api_key (S i) rest' lines processed_books book_processed
  end.

(** One invocation on a work-list whose text, as [open(file_path, 'r+')]
    hands it over, is [file]: the value returned is the text written back at
    lines 372-374. *)
Definition process_books (w : world) (api_key file : string) : M string :=
  let* youtube_service := service_youtube w in
  let lines := Str.readlines file in
  let processed_books : gset string := ∅ in
  let book_processed := false in
  let* lines := scan_lines w api_key 0 lines lines processed_books
                  book_processed in
  ret (Str.writelines lines).

(** The work-list file after an invocation: rewritten when process_books
    returns, untouched when it raises before line 372. *)
Definition file_after (file : string) (m : M string) : string :=
  match m with
  | (Return written, _) => written
  | _ => file
  end.

(** One invocation on a work-list stored as the characters [stored]: they
    are read through the text layer; what is written goes out as it is, the
    line separator of a POSIX system being the newline. *)
Definition process_books_on (w : world) (api_key stored : string) : M string :=
  process_books w api_key (Str.universal_newlines stored).

(** Invocations one after the other, each in its own world: the final file
    and everything that happened. *)
Fixpoint invocations (api_key : string) (ws : list world) (file : string)
    : string * list event :=
  match ws with
  | [] => (file, [])
  | w :: ws' =>
      let m := process_books w api_key file in
      let '(file', t) := invocations api_key ws' (file_after file m) in
      (file', m.2 ++ t)
  end.

(** The title the loop of process_books stops at, without the effects: the
    index and the stripped title of the line whose pipeline is run. *)
Fixpoint find_title (i : nat) (rest : list string)
    (processed_books : gset string) : option (nat * string) :=
  match rest with
  | [] => None
  | line :: rest' =>
      if Str.startswith "PROCESSED:" line then
        find_title (S i) rest'
          ({[ Str.strip (Str.replace "PROCESSED:" EmptyString (Str.strip line)) ]}
           ∪ processed_books)
      else if bool_decide (Str.strip line ∈ processed_books) then
        find_title (S i) rest' processed_books
      else Some (i, Str.strip line)
  end.

(** ** The work-list in the spec's words *)

Definition is_marked (line : string) : bool := Str.startswith "PROCESSED:" line.

Definition marked_title (line : string) : string :=
  Str.strip (Str.replace "PROCESSED:" EmptyString (Str.strip line)).

(** [title] is in the processed-set accumulated before line [i]. *)
Definition processed_before (lines : list string) (i : nat) (title : string)
    : Prop :=
  exists j line, (j < i)%nat /\ lines !! j = Some line
                 /\ is_marked line = true /\ title = marked_title line.

(** A line that the scan passes over. *)
Definition skipped (lines : list string) (j : nat) (line : string) : Prop :=
  is_marked line = true \/ processed_before lines j (Str.strip line).

(** Line [i] holds the first unprocessed title [T]. *)
Definition first_unprocessed (lines : list string) (i : nat) (T : string)
    : Prop :=
  (exists line, lines !! i = Some line /\ is_marked line = false
                /\ T = Str.strip line)
  /\ ~ processed_before lines i T
  /\ forall j line, (j < i)%nat -> lines !! j = Some line ->
                    skipped lines j line.

(** The accumulated set holds the titles of the marked lines passed. *)
Definition acc_ok (lines : list string) (i : nat) (acc : gset string) : Prop :=
  forall t, t ∈ acc <-> processed_before lines i t.

Fixpoint count_marked (lines : list string) : nat :=
  match lines with
  | [] => 0
  | l :: ls => (if is_marked l then 1 else 0) + count_marked ls
  end.

(** ** Reading a trace *)

(** An attempt of generate_book_summary that leads to a retry. *)
Definition is_failure (o : http_outcome) : bool :=
  match o with
  | RequestException => true
  | Response status_code BodyNotJson => true
  | Response status_code _ => negb (status_code =? 200)%Z
  end.

(** The exception of the subscripts of line 50 on a JSON body without the
    content. *)
Definition lacks_content (json : body) : option exn :=
  match json with
  | BodyNoKey => Some KeyError
  | BodyNoChoice => Some IndexError
  | BodyWrongType => Some TypeError
  | BodySummary _ | BodyNotJson => None
  end.

(** The post of generate_book_summary, and the trace of [n] attempts that
    failed: each one a post and the sleep after it. *)
Definition summary_post (book_title api_key : string) : event :=
  EPost summary_url ("Bearer " +:+ api_key) (summary_prompt book_title).

Fixpoint failed_attempts (n : nat) (post : event) (delay : Z) : list event :=
  match n with
  | O => []
  | S n' => post :: ESleep delay :: failed_attempts n' post delay
  end.

(** What the retry loop of generate_book_summary does when it starts at post
    [k] with [fuel] attempts left.  Either some answer [j] is the first that
    is not a failure: a 200 with a JSON body, after [j - k] failed attempts;
    its content is returned, or the exception of the subscripts raised.  Or
    every answer is a failure, and the pair is returned after [fuel] failed
    attempts. *)
Definition summary_outcome (w : world) (book_title api_key : string)
    (delay : Z) (fuel k : nat) (m : M pyvalue) : Prop :=
  (exists j json,
     (k <= j < k + fuel)%nat
     /\ w_post w j = Response 200 json
     /\ (forall j', (k <= j' < j)%nat -> is_failure (w_post w j') = true)
     /\ m.2 = failed_attempts (j - k) (summary_post book_title api_key) delay
              ++ [summary_post book_title api_key]
     /\ ((exists s, json = BodySummary s /\ m.1 = Return (PStr s))
         \/ (exists e, lacks_content json = Some e /\ m.1 = Raise e)))
  \/ ((forall j, (k <= j < k + fuel)%nat -> is_failure (w_post w j) = true)
      /\ m.1 = Return (PTuple2 max_retries_message [])
      /\ m.2 = failed_attempts fuel (summary_post book_title api_key) delay).

Fixpoint count_posts (t : list event) : nat :=
  match t with
  | [] => 0
  | EPost _ _ _ :: t' => S (count_posts t')
  | _ :: t' => count_posts t'
  end.

Definition is_processing (e : event) : bool :=
  match e with
  | EProcessing _ _ => true
  | _ => false
  end.

(** A computation none of whose events is the start of a pipeline. *)
Definition quiet {A} (m : M A) : Prop :=
  forallb (fun e => negb (is_processing e)) m.2 = true.

(** ** Sample worlds and work-lists *)

Definition nl : string := String Str.newline EmptyString.

Definition fresh_credentials : Credentials :=
  {| valid := true; expired := false; refresh_token := Some "r";
     token := "t" |}.

Definition stale_credentials : Credentials :=
  {| valid := false; expired := true; refresh_token := Some "r";
     token := "t0" |}.

(** Every outside call succeeds at once. *)
Definition world_ok : world :=
  {| w_post := fun _ => Response 200 (BodySummary "A fine book.");
     w_mkdir := None;
     w_choice := 7;
     w_speech := fun _ => None;
     w_image := fun _ => None;
     w_transcribe := fun _ => inl "1";
     w_write_error := fun _ => None;
     w_lib := fun _ => None;
     w_video_size := (1792, 1024)%Z;
     w_pysrt_open := fun _ => [];
     w_read_text := fun _ _ _ => EmptyString;
     w_from_string := fun _ => [];
     w_youtube_token := Some fresh_credentials;
     w_drive_token := Some fresh_credentials;
     w_refresh := fun c => inl fresh_credentials;
     w_login := fresh_credentials;
     w_parent := "/app" |}.

(** As [world_ok], but the completion endpoint answers 503 every time. *)
Definition world_summary_down : world :=
  {| w_post := fun _ => Response 503 BodyNotJson;
     w_mkdir := None;
     w_choice := 7;
     w_speech := fun _ => None;
     w_image := fun _ => None;
     w_transcribe := fun _ => inl "1";
     w_write_error := fun _ => None;
     w_lib := fun _ => None;
     w_video_size := (1792, 1024)%Z;
     w_pysrt_open := fun _ => [];
     w_read_text := fun _ _ _ => EmptyString;
     w_from_string := fun _ => [];
     w_youtube_token := Some fresh_credentials;
     w_drive_token := Some fresh_credentials;
     w_refresh := fun c => inl fresh_credentials;
     w_login := fresh_credentials;
     w_parent := "/app" |}.

(** As [world_ok], but both cached tokens are expired and the refresh is
    refused. *)
Definition world_refresh_refused : world :=
  {| w_post := fun _ => Response 200 (BodySummary "A fine book.");
     w_mkdir := None;
     w_choice := 7;
     w_speech := fun _ => None;
     w_image := fun _ => None;
     w_transcribe := fun _ => inl "1";
     w_write_error := fun _ => None;
     w_lib := fun _ => None;
     w_video_size := (1792, 1024)%Z;
     w_pysrt_open := fun _ => [];
     w_read_text := fun _ _ _ => EmptyString;
     w_from_string := fun _ => [];
     w_youtube_token := Some stale_credentials;
     w_drive_token := Some stale_credentials;
     w_refresh := fun c => inr "invalid_grant";
     w_login := fresh_credentials;
     w_parent := "/app" |}.

(** Dune is done, its second mention is a duplicate, Emma comes next. *)
Definition sample_worklist : string :=
  "PROCESSED: Dune" +:+ nl +:+ " Dune " +:+ nl +:+ "Emma" +:+ nl +:+ "Ulysses".

Definition finished_worklist : string :=
  "PROCESSED: Dune" +:+ nl +:+ " Dune " +:+ nl +:+ "PROCESSED: Emma" +:+ nl.

(** Work-lists stored with Windows line ends. *)
Definition crlf : string := String Str.cr nl.

Definition crlf_worklist : string := "Emma" +:+ crlf +:+ "Dune" +:+ crlf.

Definition crlf_finished_worklist : string :=
  "PROCESSED: Emma" +:+ crlf +:+ "PROCESSED: Dune" +:+ crlf.










(** A title whose slug holds ".mp3", and the audio path of its directory. *)
Definition mp3_title : string := "How .mp3 works".

Definition mp3_audio_path : string :=
  Path.str
    (Path.joinpath (directory_path world_ok (safe_book_title mp3_title))
       "voice.mp3").

Fixpoint no_dot (s : string) : bool :=
  match s with
  | EmptyString => true
  | String c s' => negb (Ascii.eqb c ".") && no_dot s'
  end.

(** ** Counting the outside calls of a trace *)

Definition is_speech (e : event) : bool :=
  match e with ESpeech _ _ _ => true | _ => false end.

Definition is_image (e : event) : bool :=
  match e with EImage _ _ => true | _ => false end.

Definition is_transcribe (e : event) : bool :=
  match e with ETranscribe _ => true | _ => false end.

Definition is_sleep (e : event) : bool :=
  match e with ESleep _ => true | _ => false end.

Fixpoint count_events (p : event -> bool) (t : list event) : nat :=
  match t with
  | [] => 0
  | e :: t' => (if p e then 1 else 0) + count_events p t'
  end.

(** The first attempt below [n] that succeeds, for an oracle that answers
    [None] on success. *)
Fixpoint first_success (ok : nat -> bool) (k n : nat) : option nat :=
  match n with
  | O => None
  | S n' => if ok k then Some k else first_success ok (S k) n'
  end.

(** The attempts of the three wrappers that end their retry loop. *)
Definition speech_ok (w : world) (k : nat) : bool :=
  match w_speech w k with None => true | Some _ => false end.

Definition image_ok (w : world) (k : nat) : bool :=
  match w_image w k with None => true | Some _ => false end.

Definition subtitles_ok (w : world) (audio_file_path : string) (k : nat) : bool :=
  match w_transcribe w k with
  | inl _ =>
      match w_write_error w (Str.replace ".mp3" ".srt" audio_file_path) with
      | None => true
      | Some _ => false
      end
  | inr _ => false
  end.

(** Every event of a computation satisfies [p]. *)
Definition all_events {A} (p : event -> bool) (m : M A) : Prop :=
  forallb p m.2 = true.

(** The events generate_book_thumbnail can cause. *)
Definition thumbnail_event (e : event) : bool :=
  match e with
  | EImage _ _ | EPrint _ | ESleep _ => true
  | _ => false
  end.

Definition is_write_file (e : event) : bool :=
  match e with EWriteFile _ _ => true | _ => false end.

(** [old in s]: [old] occurs somewhere in [s]. *)
Fixpoint occurs (old s : string) : bool :=
  Str.startswith old s
  || match s with
     | EmptyString => false
     | String _ s' => occurs old s'
     end.

(** Lines 348-349: the description given to the upload. *)
Definition video_description (full_summary : string) : string :=
  let summary_lines := Str.split_newline full_summary in
  if (2 <=? length summary_lines)%nat
  then Str.join_newline (take 2 summary_lines)
  else full_summary.

(** The library calls of a trace, in order. *)
Fixpoint calls_of (t : list event) : list lib_call :=
  match t with
  | [] => []
  | ECall c :: t' => c :: calls_of t'
  | _ :: t' => calls_of t'
  end.

Definition is_call (e : event) : bool :=
  match e with ECall _ => true | _ => false end.

Definition not_call (e : event) : bool := negb (is_call e).

(** As [world_ok], but the directory cannot be made and neither speech nor
    image is ever produced. *)
Definition world_mute : world :=
  {| w_post := w_post world_ok;
     w_mkdir := Some "denied";
     w_choice := 0;
     w_speech := fun _ => Some "503";
     w_image := fun _ => Some "503";
     w_transcribe := w_transcribe world_ok;
     w_write_error := w_write_error world_ok;
     w_lib := w_lib world_ok;
     w_video_size := w_video_size world_ok;
     w_pysrt_open := w_pysrt_open world_ok;
     w_read_text := w_read_text world_ok;
     w_from_string := w_from_string world_ok;
     w_youtube_token := w_youtube_token world_ok;
     w_drive_token := w_drive_token world_ok;
     w_refresh := w_refresh world_ok;
     w_login := w_login world_ok;
     w_parent := w_parent world_ok |}.

(** As [world_ok], but no transcription succeeds and pysrt finds no file
    called None. *)
Definition world_deaf : world :=
  {| w_post := w_post world_ok;
     w_mkdir := None;
     w_choice := 0;
     w_speech := w_speech world_ok;
     w_image := w_image world_ok;
     w_transcribe := fun _ => inr "timeout";
     w_write_error := w_write_error world_ok;
     w_lib := fun c =>
       match c with
       | PysrtOpen _ => Some (LibraryError "FileNotFoundError")
       | _ => None
       end;
     w_video_size := w_video_size world_ok;
     w_pysrt_open := w_pysrt_open world_ok;
     w_read_text := w_read_text world_ok;
     w_from_string := w_from_string world_ok;
     w_youtube_token := w_youtube_token world_ok;
     w_drive_token := w_drive_token world_ok;
     w_refresh := w_refresh world_ok;
     w_login := w_login world_ok;
     w_parent := w_parent world_ok |}.

(** The title [T] has been marked: some line bears the marker for [T], and
    every line before it is one the scan passes over. *)
Definition title_done (lines : list string) (T : string) : Prop :=
  exists m l,
    lines !! m = Some l /\ is_marked l = true /\ marked_title l = T
    /\ forall j l', (j < m)%nat -> lines !! j = Some l' -> skipped lines j l'.

(** The same title on three lines. *)
Definition repeated_worklist : string :=
  "Emma" +:+ nl +:+ "Dune" +:+ nl +:+ "  Emma " +:+ nl +:+ "Emma".

(** The cached credentials for which [creds.refresh] is called. *)
Definition needs_refresh (c : Credentials) : bool :=
  negb (valid c) && expired c && truthy (refresh_token c).

Definition is_login (e : event) : bool :=
  match e with ELogin _ => true | _ => false end.

Definition is_refresh (e : event) : bool :=
  match e with ERefresh => true | _ => false end.

Definition is_write_token (e : event) : bool :=
  match e with EWriteToken _ _ => true | _ => false end.

(** The library steps of each credential path that stand outside any
    [try]. *)
Definition youtube_steps : list lib_call :=
  [PickleLoad "youtube_token.pickle"; FromClientSecretsFile "client_secret.json";
   RunLocalServer; PickleDump "youtube_token.pickle"; Build "youtube" "v3"].

Definition drive_steps : list lib_call :=
  [FromAuthorizedUserFile "token.json";
   FromClientSecretsFile "client_secret.json";
   RunLocalServer; WriteJson "token.json"; Build "drive" "v3"].

(** Credentials that are neither valid nor refreshable: no expiry, no
    refresh token. *)
Definition dead_credentials : Credentials :=
  {| valid := false; expired := false; refresh_token := None; token := "t" |}.

Definition world_dead_token : world :=
  {| w_post := w_post world_ok;
     w_mkdir := None;
     w_choice := 0;
     w_speech := w_speech world_ok;
     w_image := w_image world_ok;
     w_transcribe := w_transcribe world_ok;
     w_write_error := w_write_error world_ok;
     w_lib := w_lib world_ok;
     w_video_size := w_video_size world_ok;
     w_pysrt_open := w_pysrt_open world_ok;
     w_read_text := w_read_text world_ok;
     w_from_string := w_from_string world_ok;
     w_youtube_token := Some dead_credentials;
     w_drive_token := Some dead_credentials;
     w_refresh := w_refresh world_ok;
     w_login := w_login world_ok;
     w_parent := w_parent world_ok |}.

(** ** upload_video_to_youtube (lines 240-288)

    The request built at lines 253-280 and the loop of lines 282-288 over
    the answers of [insert_request.next_chunk()]. *)





Inductive upload_event :=
| UNextChunk
| UPrint (msg : string).






Fixpoint count_chunks (t : list upload_event) : nat :=
  match t with
  | [] => 0
  | UNextChunk :: t' => S (count_chunks t')
  | UPrint _ :: t' => count_chunks t'
  end.


(** ** main (lines 446-455) *)

Inductive main_event :=
| MCycle (t : list event)
| MPrint (msg : string)
| MSleep (seconds : Q).

(** Nearest integer, ties to the even one. *)
Definition round_half_even (x : Q) : Z :=
  let f := Qfloor x in
  match (x - inject_Z f ?= 1 # 2)%Q with
  | Lt => f
  | Gt => (f + 1)%Z
  | Eq => if Z.even f then f else (f + 1)%Z
  end.

Definition two_digits (n : Z) : string :=
  if (n <? 10)%Z then "0" +:+ pretty n else pretty n.

(** [f"{x:.2f}"] *)
Definition format_2f (x : Q) : string :=
  let n := round_half_even (Qabs x * 100) in
  (if Qle_bool 0 x then EmptyString else "-")
  +:+ pretty (n / 100)%Z +:+ "." +:+ two_digits (n mod 100)%Z.

(** [while True] on fuel: [n] counts the cycles done; the [n]-th cycle runs
    in the world [world_of n] and draws [uniform n] from
    [random.uniform(20, 24)].  What comes back is how main ended, the
    work-list it left, and what happened. *)
Fixpoint main_loop (world_of : nat -> world) (uniform : nat -> Q)
    (api_key : string) (fuel n : nat) (file : string)
    : result unit * string * list main_event :=
  match fuel with
  | O => (OutOfFuel, file, [])
  | S fuel' =>
      let m := process_books (world_of n) api_key file in
      match m.1 with
      | Return _ =>
          let delay_hours := uniform n in
          let delay_seconds := (delay_hours * 3600)%Q in
          let '(r, file', t) :=
            main_loop world_of uniform api_key fuel' (S n) (file_after file m) in
          (r, file',
           MCycle m.2
           :: MPrint ("Waiting for " +:+ format_2f delay_hours
                      +:+ " hours before processing the next book.")
           :: MSleep delay_seconds :: t)
      | Raise e => (Raise e, file, [MCycle m.2])
      | OutOfFuel => (OutOfFuel, file, [MCycle m.2])
      end
  end.

Definition main (world_of : nat -> world) (uniform : nat -> Q)
    (api_key books_file : string) (fuel : nat)
    : result unit * string * list main_event :=
  main_loop world_of uniform api_key fuel 0 books_file.

Definition is_return {A} (r : result A) : bool :=
  match r with Return _ => true | _ => false end.

Fixpoint count_sleeps (t : list main_event) : nat :=
  match t with
  | [] => 0
  | MSleep _ :: t' => S (count_sleeps t')
  | _ :: t' => count_sleeps t'
  end.

Fixpoint count_cycles (t : list main_event) : nat :=
  match t with
  | [] => 0
  | MCycle _ :: t' => S (count_cycles t')
  | _ :: t' => count_cycles t'
  end.

(** The invocations and the sleeps of a run of main, in order: [Some] with
    its events for an invocation, [None] for a sleep. *)
Fixpoint schedule (t : list main_event) : list (option (list event)) :=
  match t with
  | [] => []
  | MCycle c :: t' => Some c :: schedule t'
  | MSleep _ :: t' => None :: schedule t'
  | MPrint _ :: t' => schedule t'
  end.

(** A good day, then the completion endpoint is down. *)
Definition two_days (n : nat) : world :=
  match n with
  | 0 => world_ok
  | _ => world_summary_down
  end.

(** The work-list after the first [n] cycles of main. *)
Definition worklist_after (world_of : nat -> world) (api_key file : string)
    (start n : nat) : string :=
  (invocations api_key (map world_of (seq start n)) file).1.

(** * Properties of the string operations *)

Example strip_example : Str.strip ("  Dune " +:+ nl) = "Dune".
Proof. reflexivity. Qed.

Example replace_example :
  Str.replace "aa" "b" "aaa" = "ba"
  /\ Str.replace "PROCESSED:" EmptyString "PROCESSED: Dune" = " Dune".
Proof. split; reflexivity. Qed.

Example readlines_example :
  Str.readlines ("Dune" +:+ nl +:+ nl +:+ "Emma")
  = ["Dune" +:+ nl; nl; "Emma"].
Proof. reflexivity. Qed.

Example find_title_example :
  find_title 0 (Str.readlines sample_worklist) ∅ = Some (2%nat, "Emma").
Proof. vm_compute. reflexivity. Qed.

Lemma writelines_readlines (s : string) :
  Str.writelines (Str.readlines s) = s.
Proof.
  induction s as [|c s IH]; simpl; [reflexivity|].
  destruct (Ascii.eqb c Str.newline).
  - simpl. now rewrite IH.
  - destruct (Str.readlines s) as [|l ls]; simpl in *.
    + now rewrite <- IH.
    + now rewrite <- IH.
Qed.

Lemma readlines_line (l rest : string) :
  Str.line_wf l -> Str.ends_newline l = true ->
  Str.readlines (l +:+ rest) = l :: Str.readlines rest.
Proof.
  intros [Hne Hnl]. clear Hne. revert Hnl.
  induction l as [|c l IH]; simpl; [discriminate|].
  destruct l as [|d l].
  - intros _ ->. reflexivity.
  - intros Hnl Hend. apply andb_prop in Hnl as [Hc Hnl].
    apply negb_true_iff in Hc. rewrite Hc.
    change (String d l +:+ rest) with (String d (l +:+ rest)) in IH.
    change ((String d l) +:+ rest)%string with (String d (l +:+ rest)).
    rewrite (IH Hnl Hend). reflexivity.
Qed.

Lemma readlines_last (l : string) :
  Str.line_wf l -> Str.readlines l = [l].
Proof.
  intros [Hne Hnl]. revert Hne Hnl.
  induction l as [|c l IH]; [congruence|]. intros _.
  destruct l as [|d l].
  - intros _. simpl. now destruct (Ascii.eqb c Str.newline).
  - intros Hnl. simpl in Hnl. apply andb_prop in Hnl as [Hc Hnl].
    apply negb_true_iff in Hc.
    change (Str.readlines (String c (String d l))) with
      (if Ascii.eqb c Str.newline
       then String c EmptyString :: Str.readlines (String d l)
       else match Str.readlines (String d l) with
            | [] => [String c EmptyString]
            | l0 :: ls => String c l0 :: ls
            end).
    rewrite Hc, IH; [reflexivity|congruence|exact Hnl].
Qed.

Lemma append_assoc_string (a b c : string) :
  (a +:+ b) +:+ c = a +:+ (b +:+ c).
Proof.
  induction a as [|x a IH]; [reflexivity|].
  change (String x ((a +:+ b) +:+ c) = String x (a +:+ (b +:+ c))).
  now rewrite IH.
Qed.

Lemma append_empty_r (s : string) : s +:+ EmptyString = s.
Proof.
  induction s as [|c s IH]; [reflexivity|].
  change (String c (s +:+ EmptyString) = String c s). now rewrite IH.
Qed.

Lemma readlines_writelines (ls : list string) :
  Str.lines_wf ls -> Str.readlines (Str.writelines ls) = ls.
Proof.
  induction ls as [|l ls IH]; [reflexivity|].
  intros [Hl Hrest]. destruct ls as [|l' ls].
  - cbn [Str.writelines]. rewrite append_empty_r. now apply readlines_last.
  - destruct Hrest as [Hend Hwf].
    change (Str.writelines (l :: l' :: ls)) with (l +:+ Str.writelines (l' :: ls)).
    rewrite readlines_line by assumption. now rewrite IH.
Qed.

Lemma readlines_wf (s : string) : Str.lines_wf (Str.readlines s).
Proof.
  induction s as [|c s IH]; simpl; [exact I|].
  destruct (Ascii.eqb c Str.newline) eqn:Hc.
  - split; [split; [discriminate|reflexivity]|].
    destruct (Str.readlines s); [exact I|]. split; [|exact IH]. exact Hc.
  - destruct (Str.readlines s) as [|l ls]; simpl.
    + split; [split; [discriminate|reflexivity]|exact I].
    + destruct IH as [[Hne Hnl] Hrest].
      destruct l as [|d l]; [congruence|].
      split; [split; [discriminate|]|].
      * simpl. rewrite Hc. exact Hnl.
      * destruct ls; [exact I|]. exact Hrest.
Qed.

Lemma lines_wf_insert (ls : list string) (i : nat) (m : string) :
  Str.lines_wf ls -> Str.line_wf m -> Str.ends_newline m = true ->
  Str.lines_wf (<[i := m]> ls).
Proof.
  revert i. induction ls as [|l ls IH]; intros i Hwf Hm Hend; [exact I|].
  destruct Hwf as [Hl Hrest]. destruct i as [|i]; simpl.
  - split; [exact Hm|]. destruct ls; [exact I|]. now destruct Hrest.
  - split; [exact Hl|]. destruct ls as [|l' ls]; [exact I|].
    destruct Hrest as [He Hwf]. specialize (IH i Hwf Hm Hend).
    destruct i; simpl in *; (split; [exact He|exact IH]).
Qed.

(** Stripping a line as readlines yields it leaves no newline. *)
Lemma newline_isspace (c : ascii) :
  Ascii.eqb c Str.newline = true -> Str.isspace c = true.
Proof. intros H. apply Ascii.eqb_eq in H. now subst. Qed.

Lemma newline_only_last_lstrip (s : string) :
  Str.newline_only_last s = true -> Str.newline_only_last (Str.lstrip s) = true.
Proof.
  induction s as [|c s IH]; [reflexivity|]. intros H.
  simpl. destruct (Str.isspace c); [|exact H].
  apply IH. simpl in H. destruct s; [reflexivity|].
  now apply andb_prop in H.
Qed.

Lemma no_newline_rstrip (s : string) :
  Str.newline_only_last s = true -> Str.no_newline (Str.rstrip s) = true.
Proof.
  induction s as [|c s IH]; [reflexivity|]. intros H.
  simpl in H. destruct s as [|d s].
  - simpl. destruct (Str.isspace c) eqn:Hs; [reflexivity|]. simpl.
    destruct (Ascii.eqb c Str.newline) eqn:Hc; [|reflexivity].
    apply newline_isspace in Hc. congruence.
  - apply andb_prop in H as [Hc H]. specialize (IH H).
    change (Str.rstrip (String c (String d s))) with
      (match Str.rstrip (String d s) with
       | EmptyString =>
           if Str.isspace c then EmptyString else String c EmptyString
       | r => String c r
       end).
    destruct (Str.rstrip (String d s)) as [|e r].
    + destruct (Str.isspace c); [reflexivity|]. simpl. now rewrite Hc.
    + simpl. rewrite Hc. exact IH.
Qed.

Lemma no_newline_strip (l : string) :
  Str.newline_only_last l = true -> Str.no_newline (Str.strip l) = true.
Proof. intros H. apply no_newline_rstrip, newline_only_last_lstrip, H. Qed.

Lemma no_newline_append (a b : string) :
  Str.no_newline a = true -> Str.no_newline b = true ->
  Str.no_newline (a +:+ b) = true.
Proof.
  induction a as [|c a IH]; simpl; [auto|]. intros H Hb.
  apply andb_prop in H as [-> H]. simpl. auto.
Qed.

Lemma terminated_line_wf (body : string) :
  Str.no_newline body = true ->
  Str.line_wf (body +:+ String Str.newline EmptyString)
  /\ Str.ends_newline (body +:+ String Str.newline EmptyString) = true.
Proof.
  induction body as [|c body IH]; intros H.
  - repeat split. discriminate.
  - simpl in H. apply andb_prop in H as [Hc H]. destruct (IH H) as [[Hne Hnl] He].
    change (String c body +:+ String Str.newline EmptyString)
      with (String c (body +:+ String Str.newline EmptyString)).
    destruct (body +:+ String Str.newline EmptyString) as [|d r] eqn:E;
      [congruence|].
    repeat split; [discriminate| |exact He].
    cbn [Str.newline_only_last]. rewrite Hc. exact Hnl.
Qed.

Lemma processed_line_wf (l : string) :
  Str.newline_only_last l = true ->
  Str.line_wf (processed_line (Str.strip l))
  /\ Str.ends_newline (processed_line (Str.strip l)) = true.
Proof.
  intros H. unfold processed_line.
  change ("PROCESSED: " +:+ Str.strip l +:+ String Str.newline EmptyString)
    with (("PROCESSED: " +:+ Str.strip l) +:+ String Str.newline EmptyString).
  apply terminated_line_wf, no_newline_append; [reflexivity|].
  now apply no_newline_strip.
Qed.

(** * The scan of the work-list *)

Lemma scan_lines_find (w : world) (api_key : string) (rest lines : list string) :
  forall (i : nat) (acc : gset string),
    scan_lines w api_key i rest lines acc false =
    match find_title i rest acc with
    | None => ret lines
    | Some (j, T) =>
        process_title w api_key j T ;;
        ret (<[j := processed_line T]> lines)
    end.
Proof.
  induction rest as [|line rest IH]; intros i acc; cbn [scan_lines find_title]; [reflexivity|].
  destruct (Str.startswith "PROCESSED:" line); [apply IH|].
  destruct (bool_decide (Str.strip line ∈ acc)); [apply IH|reflexivity].
Qed.

Lemma processed_before_S (lines : list string) (i : nat) (t : string) :
  processed_before lines (S i) t <->
  processed_before lines i t
  \/ exists line, lines !! i = Some line /\ is_marked line = true
                  /\ t = marked_title line.
Proof.
  split.
  - intros (j & line & Hj & Hl & Hm & Ht).
    destruct (decide (j = i)) as [->|Hne].
    + right. eauto.
    + left. exists j, line. repeat split; auto. lia.
  - intros [(j & line & Hj & H)|(line & H)].
    + exists j, line. split; [lia|exact H].
    + exists i, line. split; [lia|exact H].
Qed.

Lemma find_title_sound (lines : list string) (rest : list string) :
  forall (pre : list string) (acc : gset string),
    lines = pre ++ rest ->
    acc_ok lines (length pre) acc ->
    (forall j line, (j < length pre)%nat -> lines !! j = Some line ->
                    skipped lines j line) ->
    match find_title (length pre) rest acc with
    | Some (k, T) => first_unprocessed lines k T
    | None => forall j line, lines !! j = Some line -> skipped lines j line
    end.
Proof.
  induction rest as [|line rest IH]; intros pre acc Hlines Hacc Hskip.
  - simpl. intros j l Hl. apply Hskip; [|exact Hl].
    rewrite Hlines, app_nil_r in Hl. now apply lookup_lt_Some in Hl.
  - assert (Hi : lines !! length pre = Some line).
    { rewrite Hlines. now rewrite list_lookup_middle. }
    assert (Hnext : lines = (pre ++ [line]) ++ rest).
    { now rewrite <- app_assoc. }
    assert (Hlen : length (pre ++ [line]) = S (length pre)).
    { rewrite length_app. simpl. lia. }
    cbn [find_title]. destruct (Str.startswith "PROCESSED:" line) eqn:Hm.
    + specialize (IH (pre ++ [line])
                    ({[ Str.strip (Str.replace "PROCESSED:" EmptyString
                                     (Str.strip line)) ]} ∪ acc) Hnext).
      rewrite Hlen in IH. apply IH.
      * intros t. rewrite processed_before_S, elem_of_union, elem_of_singleton.
        rewrite <- (Hacc t). split.
        -- intros [->|H]; [right|now left]. exists line. unfold is_marked. auto.
        -- intros [H|(l & Hl & _ & ->)]; [now right|left].
           replace l with line by congruence. reflexivity.
      * intros j l Hj Hl. destruct (decide (j = length pre)) as [->|Hne].
        -- left. unfold is_marked. congruence.
        -- apply Hskip; [lia|exact Hl].
    + destruct (bool_decide (Str.strip line ∈ acc)) eqn:Hin.
      * apply bool_decide_eq_true in Hin.
        specialize (IH (pre ++ [line]) acc Hnext). rewrite Hlen in IH.
        apply IH.
        -- intros t. rewrite processed_before_S, (Hacc t). split; [now left|].
           intros [H|(l & Hl & Hml & _)]; [exact H|].
           unfold is_marked in Hml. congruence.
        -- intros j l Hj Hl. destruct (decide (j = length pre)) as [->|Hne].
           ++ right. replace l with line by congruence. now apply Hacc.
           ++ apply Hskip; [lia|exact Hl].
      * apply bool_decide_eq_false in Hin. repeat split.
        -- exists line. auto.
        -- intros H. now apply Hin, Hacc.
        -- exact Hskip.
Qed.

Lemma first_unprocessed_not_skipped (lines : list string) (i : nat) (T line : string) :
  first_unprocessed lines i T -> lines !! i = Some line ->
  ~ skipped lines i line.
Proof.
  intros ((l & Hl & Hm & ->) & Hnot & _) Hi [H|H].
  - congruence.
  - replace l with line in * by congruence. contradiction.
Qed.

Lemma first_unprocessed_unique (lines : list string) (i i' : nat) (T T' : string) :
  first_unprocessed lines i T -> first_unprocessed lines i' T' ->
  i = i' /\ T = T'.
Proof.
  intros H H'.
  assert (Hi : i = i').
  { destruct (lt_eq_lt_dec i i') as [[Hlt|Heq]|Hgt]; [|exact Heq|].
    - destruct H as ((l & Hl & Hrest) & Hfirst).
      exfalso. eapply (first_unprocessed_not_skipped lines i T l); eauto.
      + split; eauto.
      + destruct H' as (_ & _ & Hall). now apply Hall.
    - destruct H' as ((l & Hl & Hrest) & Hfirst).
      exfalso. eapply (first_unprocessed_not_skipped lines i' T' l); eauto.
      + split; eauto.
      + destruct H as (_ & _ & Hall). now apply Hall. }
  subst i'. split; [reflexivity|].
  destruct H as ((l & Hl & _ & ->) & _), H' as ((l' & Hl' & _ & ->) & _).
  congruence.
Qed.

Lemma acc_ok_empty (lines : list string) : acc_ok lines 0 ∅.
Proof.
  intros t. split; [intros H; now apply not_elem_of_empty in H|].
  intros (j & _ & Hj & _). lia.
Qed.

Lemma find_title_spec (lines : list string) :
  match find_title 0 lines ∅ with
  | Some (k, T) => first_unprocessed lines k T
  | None => forall j line, lines !! j = Some line -> skipped lines j line
  end.
Proof.
  apply (find_title_sound lines lines []); [reflexivity|apply acc_ok_empty|].
  simpl. intros j line Hj. lia.
Qed.

Lemma find_title_first (lines : list string) (i : nat) (T : string) :
  find_title 0 lines ∅ = Some (i, T) <-> first_unprocessed lines i T.
Proof.
  pose proof (find_title_spec lines) as Hspec. split.
  - intros E. now rewrite E in Hspec.
  - intros H. destruct (find_title 0 lines ∅) as [[k T']|].
    + destruct (first_unprocessed_unique _ _ _ _ _ H Hspec). congruence.
    + destruct H as ((l & Hl & Hrest) & Hfirst). exfalso.
      eapply (first_unprocessed_not_skipped lines i T l); eauto.
      split; eauto.
Qed.

Lemma find_title_none (lines : list string) :
  find_title 0 lines ∅ = None <->
  forall j line, lines !! j = Some line -> skipped lines j line.
Proof.
  pose proof (find_title_spec lines) as Hspec. split.
  - intros E. now rewrite E in Hspec.
  - intros H. destruct (find_title 0 lines ∅) as [[k T]|]; [|reflexivity].
    destruct Hspec as ((l & Hl & Hrest) & Hfirst). exfalso.
    eapply (first_unprocessed_not_skipped lines k T l); eauto.
    split; eauto.
Qed.

(** * The effect monad *)

Lemma bind_return {A B} (m : M A) (k : A -> M B) (b : B) (t : list event) :
  bind m k = (Return b, t) ->
  exists a t1 t2, m = (Return a, t1) /\ k a = (Return b, t2) /\ t = t1 ++ t2.
Proof.
  destruct m as [[a| |] t1]; simpl; [|discriminate..].
  destruct (k a) as [r t2] eqn:E. intros H. injection H as -> <-.
  now exists a, t1, t2.
Qed.

Lemma bind_fst {A B} (m : M A) (k : A -> M B) (a : A) :
  m.1 = Return a -> (bind m k).1 = (k a).1.
Proof.
  destruct m as [r t]. simpl. intros ->. now destruct (k a).
Qed.

Lemma bind_snd {A B} (m : M A) (k : A -> M B) (a : A) :
  m.1 = Return a -> (bind m k).2 = m.2 ++ (k a).2.
Proof.
  destruct m as [r t]. simpl. intros ->. now destruct (k a).
Qed.

Lemma bind_ret_l {A B} (a : A) (k : A -> M B) : bind (ret a) k = k a.
Proof. unfold bind, ret. now destruct (k a). Qed.

(** * Computations without events *)

Lemma silent_eta {A} (m : M A) : m.2 = [] -> m = (m.1, []).
Proof. destruct m as [r t]. simpl. now intros ->. Qed.

Lemma bind_silent {A B} (m : M A) (k : A -> M B) :
  m.2 = [] -> (forall a, (k a).2 = []) -> (bind m k).2 = [].
Proof.
  destruct m as [[a| |] t]; simpl; intros -> Hk; try reflexivity.
  specialize (Hk a). now destruct (k a) as [r t'].
Qed.

Lemma float_of_int_silent (n : Z) : (float_of_int n).2 = [].
Proof. unfold float_of_int. now destruct (Double.is_finite _). Qed.

Lemma int_truediv_silent (a b : Z) : (int_truediv a b).2 = [].
Proof.
  unfold int_truediv. destruct (b =? 0)%Z; [reflexivity|].
  now destruct (Double.is_finite _).
Qed.

Lemma time_to_seconds_silent (t : SubRipTime) : (time_to_seconds t).2 = [].
Proof.
  unfold time_to_seconds.
  apply bind_silent; [apply int_truediv_silent|intros fraction].
  apply bind_silent; [apply float_of_int_silent|reflexivity].
Qed.

Lemma create_subtitle_clip_silent (video_width video_height fontsize : Z)
    (font color : string) (subtitle : SubRipItem) :
  (create_subtitle_clip video_width video_height fontsize font color
     subtitle).2 = [].
Proof.
  unfold create_subtitle_clip.
  apply bind_silent; [apply time_to_seconds_silent|intros start_time].
  apply bind_silent; [apply time_to_seconds_silent|intros end_time].
  apply bind_silent; [apply int_truediv_silent|intros width].
  apply bind_silent; [apply int_truediv_silent|reflexivity].
Qed.

Lemma subtitle_clips_loop_silent (video_width video_height fontsize : Z)
    (font color : string) (subtitles : list SubRipItem) :
  forall subtitle_clips,
    (subtitle_clips_loop video_width video_height fontsize font color
       subtitles subtitle_clips).2 = [].
Proof.
  induction subtitles as [|cue subtitles IH]; intros acc; [reflexivity|].
  cbn [subtitle_clips_loop].
  apply bind_silent; [apply create_subtitle_clip_silent|intros clip; apply IH].
Qed.

Lemma create_subtitle_clips_silent (subtitles : list SubRipItem)
    (videosize : Z * Z) :
  (create_subtitle_clips subtitles videosize).2 = [].
Proof.
  destruct videosize as [video_width video_height].
  apply subtitle_clips_loop_silent.
Qed.

Lemma attempt_silent (w : world) (c : lib_call) : (attempt w c).2 = [].
Proof. unfold attempt. now destruct (w_lib w c). Qed.

(** * Traces without a pipeline start *)

Lemma quiet_ret {A} (a : A) : quiet (ret a).
Proof. reflexivity. Qed.

Lemma quiet_raise {A} (e : exn) : quiet (@raise A e).
Proof. reflexivity. Qed.

Lemma quiet_out_of_fuel {A} : quiet (@OutOfFuel A, []).
Proof. reflexivity. Qed.

Lemma quiet_emit (e : event) : is_processing e = false -> quiet (emit e).
Proof. intros H. unfold quiet. simpl. now rewrite H. Qed.

Lemma quiet_bind {A B} (m : M A) (k : A -> M B) :
  quiet m -> (forall a, quiet (k a)) -> quiet (bind m k).
Proof.
  unfold quiet. intros Hm Hk. destruct m as [[a| |] t]; simpl in *; auto.
  specialize (Hk a). destruct (k a) as [r t']. simpl in *.
  rewrite forallb_app. now rewrite Hm, Hk.
Qed.

Lemma quiet_silent {A} (m : M A) : m.2 = [] -> quiet m.
Proof. unfold quiet. now intros ->. Qed.

Lemma quiet_sleep (seconds : Z) : quiet (sleep seconds).
Proof.
  unfold sleep. destruct (_ || _); [reflexivity|].
  now destruct (seconds <? 0)%Z.
Qed.

Ltac quiet_step :=
  lazymatch goal with
  | |- quiet (ret _) => apply quiet_ret
  | |- quiet (sleep _) => apply quiet_sleep
  | |- quiet (attempt _ _) => apply quiet_silent, attempt_silent
  | |- quiet (create_subtitle_clips _ _) =>
      apply quiet_silent, create_subtitle_clips_silent
  | |- quiet (raise _) => apply quiet_raise
  | |- quiet (OutOfFuel, []) => apply quiet_out_of_fuel
  | |- quiet (emit _) => apply quiet_emit; reflexivity
  | |- quiet (bind _ _) => apply quiet_bind; [|intros ?]
  end.

Lemma quiet_call (w : world) (c : lib_call) : quiet (call w c).
Proof. unfold call. repeat quiet_step. destruct (w_lib w c); quiet_step. Qed.

Lemma quiet_summary_loop w book_title api_key max_retries delay fuel :
  forall attempts k,
    quiet (summary_loop w book_title api_key max_retries delay fuel attempts k).
Proof.
  induction fuel as [|fuel IH]; intros attempts k; cbn [summary_loop];
    destruct (attempts <? max_retries)%Z; repeat quiet_step.
  cbv zeta.
  destruct (w_post w k) as [|status_code json]; repeat quiet_step; [apply IH|].
  destruct (status_code =? 200)%Z; [destruct json|]; repeat quiet_step;
    apply IH.
Qed.

Lemma quiet_speech_loop w text path voice max_retries delay fuel :
  forall attempts k,
    quiet (speech_loop w text path voice max_retries delay fuel attempts k).
Proof.
  induction fuel as [|fuel IH]; intros attempts k; cbn [speech_loop];
    destruct (attempts <? max_retries)%Z; repeat quiet_step.
  destruct (w_speech w k); repeat quiet_step. apply IH.
Qed.

Lemma quiet_thumbnail_loop w book_title max_retries delay fuel :
  forall attempts k,
    quiet (thumbnail_loop w book_title max_retries delay fuel attempts k).
Proof.
  induction fuel as [|fuel IH]; intros attempts k; cbn [thumbnail_loop];
    destruct (attempts <? max_retries)%Z; repeat quiet_step.
  cbv zeta. destruct (w_image w k); repeat quiet_step. apply IH.
Qed.

Lemma quiet_subtitles_loop w audio max_retries delay fuel :
  forall attempts k,
    quiet (subtitles_loop w audio max_retries delay fuel attempts k).
Proof.
  induction fuel as [|fuel IH]; intros attempts k; cbn [subtitles_loop];
    destruct (attempts <? max_retries)%Z; repeat quiet_step.
  cbv zeta. destruct (w_transcribe w k) as [srt|e]; repeat quiet_step.
  - destruct (w_write_error w _); repeat quiet_step. apply IH.
  - apply IH.
Qed.

Lemma quiet_text_to_speech w text book_title api_key :
  quiet (text_to_speech w text book_title api_key).
Proof.
  unfold text_to_speech. cbv zeta. repeat quiet_step.
  destruct (w_mkdir w); repeat quiet_step. apply quiet_speech_loop.
Qed.

Lemma quiet_parse_subtitles w path : quiet (parse_subtitles w path).
Proof.
  unfold parse_subtitles, open_srt_with_encoding. repeat quiet_step.
  destruct (w_lib w (PysrtOpen path)) as [[]|]; repeat quiet_step.
  apply quiet_call.
Qed.

(** Takes a computation apart along its binds and case distinctions. *)
Ltac quiet_auto :=
  repeat first
    [ quiet_step
    | match goal with
      | |- quiet (match ?x with _ => _ end) => destruct x
      end ].

Lemma quiet_service_youtube w : quiet (service_youtube w).
Proof. unfold service_youtube, interactive_login. cbv zeta. quiet_auto. Qed.

Lemma quiet_service_google_drive w : quiet (service_google_drive w).
Proof.
  unfold service_google_drive, interactive_login. cbv zeta. quiet_auto.
Qed.

Lemma quiet_pipeline w api_key book_title :
  quiet (pipeline w api_key book_title).
Proof.
  unfold pipeline. cbv zeta.
  apply quiet_bind; [apply quiet_summary_loop|intros v].
  apply quiet_bind; [quiet_step|intros _].
  apply quiet_bind; [unfold py_iadd; destruct v; quiet_step|intros s].
  apply quiet_bind; [apply quiet_text_to_speech|intros _].
  apply quiet_bind; [apply quiet_thumbnail_loop|intros _].
  apply quiet_bind; [apply quiet_subtitles_loop|intros srt].
  repeat first [apply quiet_call|apply quiet_parse_subtitles|quiet_step].
Qed.

(** * One invocation of process_books *)

Lemma process_books_unfold (w : world) (api_key file : string) :
  process_books w api_key file =
  (let* youtube_service := service_youtube w in
   let* lines :=
     match find_title 0 (Str.readlines file) ∅ with
     | None => ret (Str.readlines file)
     | Some (j, T) =>
         process_title w api_key j T ;;
         ret (<[j := processed_line T]> (Str.readlines file))
     end in
   ret (Str.writelines lines)).
Proof. unfold process_books. cbv zeta. now rewrite scan_lines_find. Qed.

Lemma lines_wf_lookup (ls : list string) (i : nat) (l : string) :
  Str.lines_wf ls -> ls !! i = Some l -> Str.line_wf l.
Proof.
  revert i. induction ls as [|x ls IH]; intros i Hwf Hl; [discriminate|].
  destruct Hwf as [Hx Hrest]. destruct i as [|i]; simpl in Hl.
  - congruence.
  - destruct ls as [|y ls]; [discriminate|]. destruct Hrest as [_ Hwf].
    exact (IH i Hwf Hl).
Qed.

(** Re-reading the file written after a title was marked gives the lines
    with that one line replaced. *)
Lemma readlines_marked (file : string) (i : nat) (line : string) :
  Str.readlines file !! i = Some line ->
  Str.readlines
    (Str.writelines (<[i := processed_line (Str.strip line)]> (Str.readlines file)))
  = <[i := processed_line (Str.strip line)]> (Str.readlines file).
Proof.
  intros Hl. apply readlines_writelines.
  pose proof (readlines_wf file) as Hwf.
  destruct (lines_wf_lookup _ _ _ Hwf Hl) as [_ Hnl].
  destruct (processed_line_wf line Hnl) as [Hm He].
  now apply lines_wf_insert.
Qed.

Lemma count_marked_insert (ls : list string) (i : nat) (m : string) :
  (count_marked (<[i := m]> ls) <= S (count_marked ls))%nat.
Proof.
  revert i. induction ls as [|l ls IH]; intros i; simpl; [lia|].
  destruct i as [|i]; simpl.
  - destruct (is_marked m), (is_marked l); lia.
  - specialize (IH i). destruct (is_marked l); lia.
Qed.

Lemma not_quiet_event {A} (m : M A) (i : nat) (T : string) :
  quiet m -> EProcessing i T ∉ m.2.
Proof.
  unfold quiet. intros Hq Hin. rewrite forallb_forall in Hq.
  apply list_elem_of_In in Hin. now specialize (Hq _ Hin).
Qed.

Lemma bind_events {A B} (m : M A) (k : A -> M B) (e : event) :
  e ∈ (bind m k).2 -> e ∈ m.2 \/ exists a, e ∈ (k a).2.
Proof.
  destruct m as [[a| |] t]; simpl; auto.
  destruct (k a) as [r t'] eqn:E. simpl. rewrite elem_of_app.
  intros [H|H]; [now left|right]. exists a. now rewrite E.
Qed.

(** A pipeline start in the trace of an invocation is the one of the first
    unprocessed title. *)
Lemma process_books_processing (w : world) (api_key file : string)
    (j : nat) (T : string) :
  EProcessing j T ∈ (process_books w api_key file).2 ->
  first_unprocessed (Str.readlines file) j T.
Proof.
  rewrite process_books_unfold. intros H.
  apply bind_events in H as [H|[svc H]].
  { now apply not_quiet_event in H; [|apply quiet_service_youtube]. }
  apply bind_events in H as [H|[lines H]].
  2:{ now apply not_quiet_event in H; [|apply quiet_ret]. }
  destruct (find_title 0 (Str.readlines file) ∅) as [[i T']|] eqn:E.
  2:{ now apply not_quiet_event in H; [|apply quiet_ret]. }
  apply bind_events in H as [H|[u H]].
  2:{ now apply not_quiet_event in H; [|apply quiet_ret]. }
  unfold process_title in H. apply bind_events in H as [H|[u H]].
  - simpl in H. apply list_elem_of_singleton in H. inversion H; subst.
    now apply find_title_first.
  - now apply not_quiet_event in H; [|apply quiet_pipeline].
Qed.

(** What an invocation leaves in the file: the same lines, or the lines with
    the first unprocessed title marked. *)
Lemma process_books_lines (w : world) (api_key file : string) :
  let after := Str.readlines (file_after file (process_books w api_key file)) in
  after = Str.readlines file
  \/ exists i line,
       first_unprocessed (Str.readlines file) i (Str.strip line)
       /\ Str.readlines file !! i = Some line
       /\ is_marked line = false
       /\ after = <[i := processed_line (Str.strip line)]> (Str.readlines file).
Proof.
  cbv zeta. rewrite process_books_unfold.
  destruct (service_youtube w) as [[svc| |] t0]; simpl; auto.
  destruct (find_title 0 (Str.readlines file) ∅) as [[i T]|] eqn:E; simpl.
  - pose proof E as Hfirst. apply find_title_first in Hfirst.
    destruct Hfirst as ((line & Hl & Hm & ->) & Hrest).
    unfold process_title.
    destruct (pipeline w api_key (Str.strip line)) as [[[]| |] t1]; simpl; auto.
    right. exists i, line. split; [|split; [exact Hl|split; [exact Hm|]]].
    + split; [eauto|exact Hrest].
    + now apply readlines_marked.
  - left. now rewrite writelines_readlines.
Qed.

(** * The work-list claims *)

(** On the text of the work-list: when line [i] holds the first unprocessed
    title [T] and the pipeline for [T] completes, process_books returns, the
    text it writes reads as the old lines with line [i] replaced by
    "PROCESSED: T" and a newline, and every other line is the same. *)
Lemma process_books_marks_line
    (w : world) (api_key file : string) (i : nat) (T : string)
    (youtube_service : Service) (t_auth t_pipeline : list event) :
  first_unprocessed (Str.readlines file) i T ->
  service_youtube w = (Return youtube_service, t_auth) ->
  process_title w api_key i T = (Return tt, t_pipeline) ->
  let after := file_after file (process_books w api_key file) in
  process_books w api_key file = (Return after, t_auth ++ t_pipeline)
  /\ after = Str.writelines (<[i := "PROCESSED: " +:+ T +:+ nl]> (Str.readlines file))
  /\ Str.readlines after = <[i := "PROCESSED: " +:+ T +:+ nl]> (Str.readlines file)
  /\ Str.readlines after !! i = Some ("PROCESSED: " +:+ T +:+ nl)
  /\ length (Str.readlines after) = length (Str.readlines file)
  /\ forall j, j <> i -> Str.readlines after !! j = Str.readlines file !! j.
Proof.
  intros Hfirst Hauth Hpipe. cbv zeta.
  pose proof Hfirst as Hfind. apply find_title_first in Hfind.
  destruct Hfirst as ((line & Hl & Hm & ->) & _).
  assert (Hrun : process_books w api_key file =
                 (Return (Str.writelines
                            (<[i := processed_line (Str.strip line)]>
                               (Str.readlines file))),
                  t_auth ++ t_pipeline)).
  { rewrite process_books_unfold, Hauth, Hfind, Hpipe. unfold bind, ret.
    now rewrite !app_nil_r. }
  rewrite Hrun. cbn [file_after].
  change ("PROCESSED: " +:+ Str.strip line +:+ nl)
    with (processed_line (Str.strip line)).
  rewrite (readlines_marked file i line Hl).
  repeat split.
  - apply list_lookup_insert_eq. now apply lookup_lt_Some in Hl.
  - apply length_insert.
  - intros j Hj. now apply list_lookup_insert_ne.
Qed.

(** Text without a carriage return is handed over as it is stored, and
    what is handed over holds none. *)
Lemma universal_newlines_no_cr (s : string) :
  Str.no_cr s = true -> Str.universal_newlines s = s.
Proof.
  induction s as [|c s IH]; [reflexivity|].
  cbn [Str.no_cr Str.universal_newlines]. intros H.
  apply andb_prop in H as [Hc Hs]. apply negb_true_iff in Hc.
  rewrite Hc. now rewrite IH.
Qed.

Lemma no_cr_universal_newlines (s : string) :
  Str.no_cr (Str.universal_newlines s) = true.
Proof.
  assert (H : forall n s, (String.length s <= n)%nat ->
                          Str.no_cr (Str.universal_newlines s) = true).
  { clear s. induction n as [|n IH]; intros s Hn.
    - destruct s; [reflexivity|simpl in Hn; lia].
    - destruct s as [|c s]; [reflexivity|]. simpl in Hn.
      cbn [Str.universal_newlines].
      destruct (Ascii.eqb c Str.cr) eqn:Hc.
      + destruct s as [|c' s]; [reflexivity|]. simpl in Hn.
        destruct (Ascii.eqb c' Str.newline); cbn [Str.no_cr];
          change (Ascii.eqb Str.newline Str.cr) with false; cbn [negb andb];
          apply IH; simpl; lia.
      + cbn [Str.no_cr]. rewrite Hc. cbn [negb andb]. apply IH. lia. }
  exact (H (String.length s) s (le_n _)).
Qed.

(** C1. When line [i] of the work-list, read through the text layer, holds
    the first unprocessed title [T] and the pipeline for [T] completes,
    process_books returns and the file it leaves holds the lines that were
    read with line [i] replaced by "PROCESSED: T" and a newline: every
    other line is the line as it was read, its line end a newline.  For a
    file stored without carriage returns that is the line as it was
    stored. *)
Theorem process_books_marks_first_unprocessed
    (w : world) (api_key stored : string) (i : nat) (T : string)
    (youtube_service : Service) (t_auth t_pipeline : list event) :
  first_unprocessed (Str.readlines (Str.universal_newlines stored)) i T ->
  service_youtube w = (Return youtube_service, t_auth) ->
  process_title w api_key i T = (Return tt, t_pipeline) ->
  let file := Str.universal_newlines stored in
  let after := file_after stored (process_books_on w api_key stored) in
  process_books_on w api_key stored = (Return after, t_auth ++ t_pipeline)
  /\ after = Str.writelines (<[i := "PROCESSED: " +:+ T +:+ nl]> (Str.readlines file))
  /\ Str.readlines after = <[i := "PROCESSED: " +:+ T +:+ nl]> (Str.readlines file)
  /\ Str.readlines after !! i = Some ("PROCESSED: " +:+ T +:+ nl)
  /\ length (Str.readlines after) = length (Str.readlines file)
  /\ (forall j, j <> i -> Str.readlines after !! j = Str.readlines file !! j)
  /\ (Str.no_cr stored = true ->
      forall j, j <> i -> Str.readlines after !! j = Str.readlines stored !! j).
Proof.
  intros Hfirst Hauth Hpipe. cbv zeta. unfold process_books_on.
  destruct (process_books_marks_line w api_key (Str.universal_newlines stored)
              i T youtube_service t_auth t_pipeline Hfirst Hauth Hpipe)
    as (Hrun & Hafter & Hlines & Hi & Hlen & Hothers).
  assert (Hsame : file_after stored
                    (process_books w api_key (Str.universal_newlines stored))
                  = file_after (Str.universal_newlines stored)
                      (process_books w api_key (Str.universal_newlines stored))).
  { now rewrite Hrun. }
  rewrite Hsame. do 6 (split; [assumption|]).
  intros Hcr j Hj. rewrite (Hothers j Hj).
  now rewrite (universal_newlines_no_cr stored Hcr).
Qed.

Lemma process_books_marks_first_unprocessed_witness :
  first_unprocessed (Str.readlines (Str.universal_newlines sample_worklist)) 2
    "Emma"
  /\ Str.no_cr sample_worklist = true
  /\ Str.readlines
       (file_after sample_worklist
          (process_books_on world_ok "key" sample_worklist))
     = ["PROCESSED: Dune" +:+ nl; " Dune " +:+ nl; "PROCESSED: Emma" +:+ nl;
        "Ulysses"].
Proof.
  assert (Hfirst : first_unprocessed
                     (Str.readlines (Str.universal_newlines sample_worklist)) 2
                     "Emma").
  { apply find_title_first. vm_compute. reflexivity. }
  split; [exact Hfirst|]. split; [reflexivity|].
  refine (proj1 (proj2 (proj2
    (process_books_marks_first_unprocessed world_ok "key" sample_worklist 2
       "Emma"
       {| service_name := "youtube"; service_version := "v3";
          service_credentials := fresh_credentials |}
       (service_youtube world_ok).2
       (process_title world_ok "key" 2 "Emma").2 Hfirst _ _)))).
  - vm_compute. reflexivity.
  - vm_compute. reflexivity.
Defined.

(** A work-list stored with Windows line ends: Emma on line 0 is marked, and
    line 1 is rewritten too, from "Dune\r\n" to "Dune\n". *)
Lemma process_books_rewrites_crlf_lines :
  first_unprocessed (Str.readlines (Str.universal_newlines crlf_worklist)) 0
    "Emma"
  /\ (process_books_on world_ok "key" crlf_worklist).1
     = Return ("PROCESSED: Emma" +:+ nl +:+ "Dune" +:+ nl)
  /\ Str.readlines crlf_worklist !! 1%nat = Some ("Dune" +:+ crlf)
  /\ Str.readlines
       (file_after crlf_worklist (process_books_on world_ok "key" crlf_worklist))
     !! 1%nat = Some ("Dune" +:+ nl)
  /\ ~ (forall j, j <> 0%nat ->
          Str.readlines
            (file_after crlf_worklist
               (process_books_on world_ok "key" crlf_worklist)) !! j
          = Str.readlines crlf_worklist !! j).
Proof.
  split; [apply find_title_first; vm_compute; reflexivity|].
  split; [vm_compute; reflexivity|]. split; [vm_compute; reflexivity|].
  split; [vm_compute; reflexivity|].
  intros H. specialize (H 1%nat ltac:(discriminate)). vm_compute in H.
  discriminate.
Qed.

(** On the text of the work-list: when every line is marked or repeats a
    title already in the processed-set, process_books starts no pipeline:
    its events are those of the credential step alone, and the text is
    written back unchanged when the credential step returns. *)
Lemma process_books_keeps_text (w : world) (api_key file : string) :
  (forall j line, Str.readlines file !! j = Some line ->
                  skipped (Str.readlines file) j line) ->
  (process_books w api_key file).2 = (service_youtube w).2
  /\ (forall i T, EProcessing i T ∉ (process_books w api_key file).2)
  /\ file_after file (process_books w api_key file) = file
  /\ forall youtube_service t,
       service_youtube w = (Return youtube_service, t) ->
       process_books w api_key file = (Return file, t).
Proof.
  intros Hall. apply find_title_none in Hall.
  assert (Hrun : process_books w api_key file =
                 (let* _ := service_youtube w in ret file)).
  { rewrite process_books_unfold, Hall. unfold bind, ret.
    destruct (service_youtube w) as [[svc| |] t]; [|reflexivity..].
    now rewrite writelines_readlines. }
  assert (Hevents : (process_books w api_key file).2 = (service_youtube w).2).
  { rewrite Hrun. unfold bind, ret.
    destruct (service_youtube w) as [[svc| |] t]; simpl; [|reflexivity..].
    apply app_nil_r. }
  split; [exact Hevents|]. split; [|split].
  - intros i T. rewrite Hevents.
    apply (not_quiet_event (service_youtube w)), quiet_service_youtube.
  - rewrite Hrun. unfold bind, ret.
    now destruct (service_youtube w) as [[svc| |] t].
  - intros svc t Hsvc. rewrite Hrun, Hsvc. unfold bind, ret.
    now rewrite app_nil_r.
Qed.

(** C10. When every line of the work-list, read through the text layer, is
    marked or repeats a title already in the processed-set, process_books
    starts no pipeline: its events are those of the credential step alone.
    When that step returns, the file is rewritten with the text that was
    read, its line ends newlines: it reads as before, and for a file stored
    without carriage returns it is the same characters.  When that step
    raises, the file is not written. *)
Theorem process_books_noop (w : world) (api_key stored : string) :
  (forall j line,
     Str.readlines (Str.universal_newlines stored) !! j = Some line ->
     skipped (Str.readlines (Str.universal_newlines stored)) j line) ->
  let after := file_after stored (process_books_on w api_key stored) in
  (process_books_on w api_key stored).2 = (service_youtube w).2
  /\ (forall i T, EProcessing i T ∉ (process_books_on w api_key stored).2)
  /\ Str.universal_newlines after = Str.universal_newlines stored
  /\ (forall youtube_service t,
        service_youtube w = (Return youtube_service, t) ->
        process_books_on w api_key stored
        = (Return (Str.universal_newlines stored), t)
        /\ after = Str.universal_newlines stored)
  /\ (forall e t, service_youtube w = (Raise e, t) -> after = stored)
  /\ (Str.no_cr stored = true -> after = stored).
Proof.
  intros Hall. cbv zeta. unfold process_books_on.
  destruct (process_books_keeps_text w api_key (Str.universal_newlines stored)
              Hall) as (Hevents & Hquiet & Hafter & Hrun).
  split; [exact Hevents|]. split; [exact Hquiet|].
  assert (Hcases :
    file_after stored (process_books w api_key (Str.universal_newlines stored))
    = Str.universal_newlines stored
    \/ file_after stored
         (process_books w api_key (Str.universal_newlines stored)) = stored).
  { destruct (service_youtube w) as [[svc|e|] t] eqn:Hauth.
    - left. now rewrite (Hrun svc t eq_refl).
    - right. rewrite process_books_unfold, Hauth. reflexivity.
    - right. rewrite process_books_unfold, Hauth. reflexivity. }
  split.
  { destruct Hcases as [->| ->]; [|reflexivity].
    apply universal_newlines_no_cr, no_cr_universal_newlines. }
  split.
  { intros svc t Hauth. split; [exact (Hrun svc t Hauth)|].
    now rewrite (Hrun svc t Hauth). }
  split.
  { intros e t Hauth. rewrite process_books_unfold, Hauth. reflexivity. }
  intros Hcr. destruct Hcases as [->| ->]; [|reflexivity].
  now apply universal_newlines_no_cr.
Qed.

Lemma process_books_noop_witness :
  process_books_on world_ok "key" finished_worklist
  = (Return finished_worklist, [])
  /\ file_after finished_worklist
       (process_books_on world_ok "key" finished_worklist)
     = finished_worklist.
Proof.
  assert (Hall : forall j line,
            Str.readlines (Str.universal_newlines finished_worklist) !! j
            = Some line ->
            skipped (Str.readlines (Str.universal_newlines finished_worklist))
              j line).
  { apply find_title_none. vm_compute. reflexivity. }
  destruct (process_books_noop world_ok "key" finished_worklist Hall)
    as (_ & _ & _ & Hrun & _ & Hsame).
  split; [|exact (Hsame eq_refl)].
  exact (proj1 (Hrun {| service_name := "youtube"; service_version := "v3";
                        service_credentials := fresh_credentials |} []
                  ltac:(vm_compute; reflexivity))).
Defined.

(** A finished work-list stored with Windows line ends: no title is
    processed, and the file is rewritten two characters shorter. *)
Lemma process_books_shrinks_crlf_file :
  (forall j line,
     Str.readlines (Str.universal_newlines crlf_finished_worklist) !! j
     = Some line ->
     skipped (Str.readlines (Str.universal_newlines crlf_finished_worklist))
       j line)
  /\ (process_books_on world_ok "key" crlf_finished_worklist).2 = []
  /\ file_after crlf_finished_worklist
       (process_books_on world_ok "key" crlf_finished_worklist)
     = "PROCESSED: Emma" +:+ nl +:+ "PROCESSED: Dune" +:+ nl
  /\ String.length crlf_finished_worklist = 34%nat
  /\ String.length
       (file_after crlf_finished_worklist
          (process_books_on world_ok "key" crlf_finished_worklist)) = 32%nat
  /\ file_after crlf_finished_worklist
       (process_books_on world_ok "key" crlf_finished_worklist)
     <> crlf_finished_worklist.
Proof.
  split; [apply find_title_none; vm_compute; reflexivity|].
  repeat split; try (vm_compute; reflexivity).
  vm_compute. discriminate.
Qed.

(** A marked line is kept, as it is, by one invocation, and no pipeline is
    started at its index. *)
Lemma process_books_keeps_marked (w : world) (api_key file : string)
    (j : nat) (line : string) :
  Str.readlines file !! j = Some line -> is_marked line = true ->
  Str.readlines (file_after file (process_books w api_key file)) !! j = Some line
  /\ forall T, EProcessing j T ∉ (process_books w api_key file).2.
Proof.
  intros Hl Hm. split.
  - destruct (process_books_lines w api_key file) as [->|(i & l & _ & Hi & Hu & ->)];
      [exact Hl|].
    rewrite list_lookup_insert_ne; [exact Hl|]. intros ->. congruence.
  - intros T Hin. apply process_books_processing in Hin.
    destruct Hin as ((l & Hi & Hu & _) & _). congruence.
Qed.

Lemma process_books_count (w : world) (api_key file : string) :
  (count_marked (Str.readlines (file_after file (process_books w api_key file)))
   <= S (count_marked (Str.readlines file)))%nat.
Proof.
  destruct (process_books_lines w api_key file) as [->|(i & l & _ & _ & _ & ->)];
    [lia|apply count_marked_insert].
Qed.

(** C2. After the invocations of [ws], one per world, at most [length ws]
    more lines are marked than before (so at most [length ws] on a work-list
    that had none), and a line that bears the marker keeps it, unchanged,
    while no invocation starts a pipeline at its index. *)
Theorem invocations_mark_at_most_one_each
    (api_key : string) (ws : list world) (file : string) :
  (count_marked (Str.readlines (invocations api_key ws file).1)
   <= count_marked (Str.readlines file) + length ws)%nat
  /\ (count_marked (Str.readlines file) = 0%nat ->
      (count_marked (Str.readlines (invocations api_key ws file).1)
       <= length ws)%nat)
  /\ (forall T, is_marked ("PROCESSED: " +:+ T +:+ nl) = true)
  /\ forall j line,
       Str.readlines file !! j = Some line -> is_marked line = true ->
       Str.readlines (invocations api_key ws file).1 !! j = Some line
       /\ forall T, EProcessing j T ∉ (invocations api_key ws file).2.
Proof.
  assert (Hcount : forall ws file,
             (count_marked (Str.readlines (invocations api_key ws file).1)
              <= count_marked (Str.readlines file) + length ws)%nat).
  { clear. induction ws as [|w ws IH]; intros file; cbn [invocations].
    - simpl. lia.
    - specialize (IH (file_after file (process_books w api_key file))).
      pose proof (process_books_count w api_key file) as Hstep.
      destruct (invocations api_key ws _) as [file' t]. simpl in *. lia. }
  split; [apply Hcount|]. split.
  { intros H0. specialize (Hcount ws file). lia. }
  split; [reflexivity|].
  clear Hcount. revert file.
  induction ws as [|w ws IH]; intros file j line Hl Hm; cbn [invocations].
  - split; [exact Hl|]. intros T H. simpl in H. now apply elem_of_nil in H.
  - destruct (process_books_keeps_marked w api_key file j line Hl Hm)
      as [Hkept Hquiet].
    destruct (IH _ j line Hkept Hm) as [Hafter Hlater].
    destruct (invocations api_key ws _) as [file' t]. simpl in *.
    split; [exact Hafter|]. intros T Hin.
    apply elem_of_app in Hin as [Hin|Hin]; [exact (Hquiet T Hin)|].
    exact (Hlater T Hin).
Qed.

(** * The retry loop of generate_book_summary *)

Lemma bind_emit {A} (e : event) (k : unit -> M A) :
  bind (emit e) k = ((k tt).1, e :: (k tt).2).
Proof. unfold bind, emit. now destruct (k tt). Qed.

Lemma sleep_ok (seconds : Z) :
  (0 <= seconds <= max_sleep)%Z -> sleep seconds = emit (ESleep seconds).
Proof.
  intros [Hlo Hhi]. unfold sleep.
  assert (H1 : (seconds <? - max_sleep)%Z = false)
    by (apply Z.ltb_ge; unfold max_sleep in *; lia).
  assert (H2 : (max_sleep <? seconds)%Z = false) by (apply Z.ltb_ge; lia).
  assert (H3 : (seconds <? 0)%Z = false) by (apply Z.ltb_ge; lia).
  now rewrite H1, H2, H3.
Qed.

Lemma sleep_negative (seconds : Z) :
  (- max_sleep <= seconds < 0)%Z -> sleep seconds = raise ValueError.
Proof.
  intros [Hlo Hhi]. unfold sleep.
  assert (H1 : (seconds <? - max_sleep)%Z = false) by (apply Z.ltb_ge; lia).
  assert (H2 : (max_sleep <? seconds)%Z = false)
    by (apply Z.ltb_ge; unfold max_sleep in *; lia).
  assert (H3 : (seconds <? 0)%Z = true) by (apply Z.ltb_lt; lia).
  now rewrite H1, H2, H3.
Qed.

Lemma two_seconds : (0 <= 2 <= max_sleep)%Z.
Proof. unfold max_sleep. lia. Qed.

Lemma count_posts_failed_attempts (n : nat) (url auth prompt : string)
    (delay : Z) (t : list event) :
  count_posts (failed_attempts n (EPost url auth prompt) delay ++ t)
  = (n + count_posts t)%nat.
Proof. induction n as [|n IH]; [reflexivity|]. simpl. now rewrite IH. Qed.

Lemma sleeps_failed_attempts (n : nat) (url auth prompt : string)
    (delay : Z) (t : list event) (d : Z) :
  ESleep d ∈ failed_attempts n (EPost url auth prompt) delay ++ t ->
  d = delay \/ ESleep d ∈ t.
Proof.
  induction n as [|n IH]; simpl; [now right|]. intros H.
  apply elem_of_cons in H as [H|H]; [discriminate|].
  apply elem_of_cons in H as [H|H]; [left; congruence|]. now apply IH.
Qed.

Lemma is_failure_200 (json : body) :
  is_failure (Response 200 json) = false -> json <> BodyNotJson.
Proof. now destruct json. Qed.

Section SummaryLoop.
Variable w : world.
Variables book_title api_key : string.
Variables max_retries delay : Z.
Hypothesis Hdelay : (0 <= delay <= max_sleep)%Z.

Let loop := summary_loop w book_title api_key max_retries delay.

Lemma summary_loop_spec (fuel : nat) :
  forall (attempts : Z) (k : nat),
    fuel = Z.to_nat (max_retries - attempts) ->
    summary_outcome w book_title api_key delay fuel k (loop fuel attempts k).
Proof.
  unfold loop.
  induction fuel as [|fuel IH]; intros attempts k Hfuel.
  - cbn [summary_loop].
    assert (Hdone : (attempts <? max_retries)%Z = false)
      by (apply Z.ltb_ge; lia).
    rewrite Hdone. right. split; [intros j Hj; lia|]. split; reflexivity.
  - cbn [summary_loop].
    assert (Hgo : (attempts <? max_retries)%Z = true)
      by (apply Z.ltb_lt; lia).
    rewrite Hgo, bind_emit. cbv zeta. rewrite (sleep_ok delay Hdelay).
    fold (summary_post book_title api_key).
    assert (Hnext : fuel = Z.to_nat (max_retries - (attempts + 1))) by lia.
    specialize (IH (attempts + 1)%Z (S k) Hnext).
    set (rest := summary_loop w book_title api_key max_retries delay fuel
                   (attempts + 1) (S k)) in *.
    assert (Hretry :
      is_failure (w_post w k) = true ->
      summary_outcome w book_title api_key delay (S fuel) k
        ((emit (ESleep delay) ;; rest).1,
         summary_post book_title api_key :: (emit (ESleep delay) ;; rest).2)).
    { intros Hfail. rewrite bind_emit. cbn [fst snd].
      destruct IH as [(j & json & Hj & Hp & Hprev & Ht & Hr)|(Hall & Hr & Ht)].
      - left. exists j, json. split; [lia|]. split; [exact Hp|]. split.
        + intros j' Hj'. destruct (decide (j' = k)) as [->|Hne]; [exact Hfail|].
          apply Hprev. lia.
        + split; [|exact Hr]. rewrite Ht.
          replace (j - k)%nat with (S (j - S k)) by lia. reflexivity.
      - right. split.
        + intros j Hj. destruct (decide (j = k)) as [->|Hne]; [exact Hfail|].
          apply Hall. lia.
        + split; [exact Hr|]. now rewrite Ht. }
    assert (Hanswer : forall json,
      w_post w k = Response 200 json ->
      forall r, ((exists s, json = BodySummary s /\ r = Return (PStr s))
                 \/ (exists e, lacks_content json = Some e /\ r = Raise e)) ->
      summary_outcome w book_title api_key delay (S fuel) k
        (r, [summary_post book_title api_key])).
    { intros json Hp r Hr. left. exists k, json. split; [lia|].
      split; [exact Hp|]. split; [intros j' Hj'; lia|].
      split; [|exact Hr]. cbn [fst snd]. now rewrite Nat.sub_diag. }
    destruct (w_post w k) as [|status_code json] eqn:Hpost.
    + now apply Hretry.
    + destruct (status_code =? 200)%Z eqn:Hstatus.
      * apply Z.eqb_eq in Hstatus. subst status_code.
        destruct json as [content| | | |].
        -- apply (Hanswer _ eq_refl). left. now exists content.
        -- now apply Hretry.
        -- apply (Hanswer _ eq_refl). right. now exists KeyError.
        -- apply (Hanswer _ eq_refl). right. now exists IndexError.
        -- apply (Hanswer _ eq_refl). right. now exists TypeError.
      * apply Hretry. simpl. rewrite Hstatus. now destruct json.
Qed.
End SummaryLoop.

(** With a negative delay the first failed attempt ends the call:
    [time.sleep] raises ValueError from inside the handler. *)
Lemma summary_negative_delay (w : world) (book_title api_key : string)
    (max_retries delay : Z) :
  (- max_sleep <= delay < 0)%Z -> (0 < max_retries)%Z ->
  is_failure (w_post w 0) = true ->
  generate_book_summary_with w book_title api_key max_retries delay
  = (Raise ValueError, [summary_post book_title api_key]).
Proof.
  intros Hdelay Hmax Hfail. unfold generate_book_summary_with.
  destruct (Z.to_nat max_retries) as [|fuel] eqn:Hn; [lia|].
  cbn [summary_loop].
  assert (Hgo : (0 <? max_retries)%Z = true) by (apply Z.ltb_lt; lia).
  rewrite Hgo, bind_emit. cbv zeta. rewrite (sleep_negative delay Hdelay).
  destruct (w_post w 0) as [|status_code json]; [reflexivity|].
  destruct (status_code =? 200)%Z eqn:Hs; [|reflexivity].
  destruct json; try reflexivity; simpl in Hfail; rewrite Hs in Hfail;
    discriminate.
Qed.

(** C4. With a delay that [time.sleep] accepts, generate_book_summary always
    comes back, after at most [max_retries] posts.  A transport failure,
    another status than 200 or a body that is not JSON leads to a sleep of
    [delay] and the next attempt.  The first answer [j] that is none of
    these ends the call after exactly [j + 1] posts with a sleep of [delay]
    after each of the first [j]: its content [s] is returned as the string
    [s], and a JSON body without the content makes the subscripts raise.
    When all [max_retries] attempts fail, each is followed by its sleep and
    the pair of the fixed message and the empty list is returned, which is
    not a string.  Nothing else raises. *)
Theorem generate_book_summary_contract
    (w : world) (book_title api_key : string) (max_retries delay : Z) :
  (0 <= delay <= max_sleep)%Z ->
  let m := generate_book_summary_with w book_title api_key max_retries delay in
  let n := Z.to_nat max_retries in
  let post := EPost "https://api.openai.com/v1/chat/completions"
                ("Bearer " +:+ api_key) (summary_prompt book_title) in
  m.1 <> OutOfFuel
  /\ (count_posts m.2 <= n)%nat
  /\ (forall d, ESleep d ∈ m.2 -> d = delay)
  /\ (forall j json,
        (j < n)%nat -> w_post w j = Response 200 json -> json <> BodyNotJson ->
        (forall j', (j' < j)%nat -> is_failure (w_post w j') = true) ->
        m.2 = failed_attempts j post delay ++ [post]
        /\ count_posts m.2 = S j
        /\ (forall s, json = BodySummary s -> m.1 = Return (PStr s))
        /\ (forall e, lacks_content json = Some e -> m.1 = Raise e))
  /\ ((forall j, (j < n)%nat -> is_failure (w_post w j) = true) ->
      m.1 = Return (PTuple2 "Max retries reached. Unable to generate summary." [])
      /\ m.2 = failed_attempts n post delay
      /\ count_posts m.2 = n)
  /\ (forall e, m.1 = Raise e ->
        exists j json, (j < n)%nat /\ w_post w j = Response 200 json
                       /\ lacks_content json = Some e)
  /\ (forall s, PStr s <> PTuple2 "Max retries reached. Unable to generate summary." []).
Proof.
  intros Hdelay. cbv zeta. unfold generate_book_summary_with.
  assert (Hfuel : Z.to_nat max_retries = Z.to_nat (max_retries - 0))
    by (f_equal; lia).
  pose proof (summary_loop_spec w book_title api_key max_retries delay Hdelay
                (Z.to_nat max_retries) 0%Z 0%nat Hfuel) as Ho.
  unfold summary_outcome, summary_post in Ho.
  set (m := summary_loop w book_title api_key max_retries delay
              (Z.to_nat max_retries) 0 0) in *.
  set (post := EPost summary_url ("Bearer " +:+ api_key)
                 (summary_prompt book_title)) in *.
  change (EPost "https://api.openai.com/v1/chat/completions"
            ("Bearer " +:+ api_key) (summary_prompt book_title)) with post.
  destruct Ho as [(j & json & Hj & Hp & Hprev & Ht & Hr)|(Hall & Hr & Ht)].
  - rewrite Nat.sub_0_r in Ht.
    assert (Hnf : is_failure (w_post w j) = false).
    { rewrite Hp. destruct Hr as [(s & -> & _)|(e & He & _)]; [reflexivity|].
      now destruct json. }
    assert (Hsame : forall j0, (j0 < Z.to_nat max_retries)%nat ->
              is_failure (w_post w j0) = false ->
              (forall j', (j' < j0)%nat -> is_failure (w_post w j') = true) ->
              j0 = j).
    { intros j0 Hj0 Hf0 Hprev0.
      destruct (lt_eq_lt_dec j j0) as [[Hlt|Heq]|Hgt]; [|congruence|].
      - specialize (Hprev0 j Hlt). congruence.
      - assert (Hf : is_failure (w_post w j0) = true) by (apply Hprev; lia).
        congruence. }
    assert (Hcount : count_posts m.2 = S j).
    { rewrite Ht. unfold post. rewrite count_posts_failed_attempts. simpl. lia. }
    split; [destruct Hr as [(s & _ & ->)|(e & _ & ->)]; discriminate|].
    split; [lia|]. split.
    { intros d Hd. rewrite Ht in Hd. unfold post in Hd.
      apply sleeps_failed_attempts in Hd as [Hd|Hd]; [exact Hd|].
      apply elem_of_cons in Hd as [Hd|Hd]; [discriminate|].
      now apply elem_of_nil in Hd. }
    split.
    { intros j0 json0 Hj0 Hp0 Hjson0 Hprev0.
      assert (j0 = j) as ->.
      { apply Hsame; auto. rewrite Hp0. now destruct json0. }
      assert (json0 = json) as -> by congruence.
      split; [exact Ht|]. split; [exact Hcount|]. split.
      - intros s ->. destruct Hr as [(s' & Hs & ->)|(e & He & _)];
          [congruence|discriminate].
      - intros e He. destruct Hr as [(s' & -> & _)|(e' & He' & ->)];
          [discriminate|congruence]. }
    split.
    { intros Hall. assert (Hf : is_failure (w_post w j) = true)
        by (apply Hall; lia). congruence. }
    split; [|discriminate].
    intros e He. destruct Hr as [(s' & _ & Hm)|(e' & He' & Hm)]; [congruence|].
    exists j, json. split; [lia|]. split; [exact Hp|]. congruence.
  - split; [rewrite Hr; discriminate|].
    assert (Hcount : count_posts m.2 = Z.to_nat max_retries).
    { rewrite Ht, <- (app_nil_r (failed_attempts _ _ _)). unfold post.
      rewrite count_posts_failed_attempts. simpl. lia. }
    split; [lia|]. split.
    { intros d Hd. rewrite Ht, <- (app_nil_r (failed_attempts _ _ _)) in Hd.
      unfold post in Hd.
      apply sleeps_failed_attempts in Hd as [Hd|Hd]; [exact Hd|].
      now apply elem_of_nil in Hd. }
    split.
    { intros j0 json0 Hj0 Hp0 Hjson0 _. exfalso.
      assert (Hf : is_failure (w_post w j0) = true) by (apply Hall; lia).
      rewrite Hp0 in Hf. destruct json0; try discriminate. congruence. }
    split; [auto|]. split; [|discriminate].
    intros e He. congruence.
Qed.

Lemma generate_book_summary_contract_witness :
  (0 <= 2 <= max_sleep)%Z
  /\ generate_book_summary_with world_summary_down "Emma" "key" 3 2
     = (Return (PTuple2 "Max retries reached. Unable to generate summary." []),
        failed_attempts 3
          (EPost "https://api.openai.com/v1/chat/completions" "Bearer key"
             (summary_prompt "Emma")) 2).
Proof.
  split; [exact two_seconds|].
  destruct (generate_book_summary_contract world_summary_down "Emma" "key" 3 2
              two_seconds) as (_ & _ & _ & _ & Hall & _).
  destruct Hall as (Hr & Ht & _); [intros j _; reflexivity|].
  apply injective_projections; [exact Hr|exact Ht].
Defined.

(** * Exhausted retries in the summarization step *)

(** When the three posts of an invocation fail, the pipeline stops at
    [full_summary += ...] with TypeError. *)
Lemma pipeline_summary_exhausted (w : world) (api_key book_title : string) :
  (forall j, (j < 3)%nat -> is_failure (w_post w j) = true) ->
  (generate_book_summary w book_title api_key).1
  = Return (PTuple2 max_retries_message [])
  /\ (pipeline w api_key book_title).1 = Raise TypeError.
Proof.
  intros Hall.
  assert (Hfuel : Z.to_nat 3 = Z.to_nat (3 - 0)) by reflexivity.
  pose proof (summary_loop_spec w book_title api_key 3 2 two_seconds
                (Z.to_nat 3) 0%Z 0%nat Hfuel) as Ho.
  unfold summary_outcome in Ho. unfold pipeline.
  change (summary_loop w book_title api_key 3 2 (Z.to_nat 3) 0 0)
    with (generate_book_summary w book_title api_key) in Ho.
  destruct Ho as [(j & json & Hj & Hp & _ & _ & Hr)|(_ & Hr & _)].
  - assert (Hf : is_failure (w_post w j) = true)
      by (apply Hall; change (Z.to_nat 3) with 3%nat in Hj; lia).
    rewrite Hp in Hf.
    destruct Hr as [(s & -> & _)|(e & He & _)]; [discriminate|].
    now destruct json.
  - destruct (generate_book_summary w book_title api_key) as [r t].
    cbn [fst] in *. subst r. split; reflexivity.
Qed.

(** C3. On the work-list of the sample, with the completion endpoint down,
    generate_book_summary returns its pair, process_books raises TypeError
    before any other step of the pipeline, and the file is left as it was. *)
Theorem summary_exhaustion_raises_type_error :
  (generate_book_summary world_summary_down "Emma" "key").1
  = Return (PTuple2 "Max retries reached. Unable to generate summary." [])
  /\ (process_books world_summary_down "key" sample_worklist).1 = Raise TypeError
  /\ file_after sample_worklist
       (process_books world_summary_down "key" sample_worklist)
     = sample_worklist
  /\ last (process_books world_summary_down "key" sample_worklist).2
     = Some (EPrint "('Max retries reached. Unable to generate summary.', [])").
Proof. vm_compute. repeat split. Qed.

(** * Slug derivation *)

Lemma replace_char (a : ascii) (new : string) (c : ascii) (s : string) :
  Str.replace (String a EmptyString) new (String c s) =
  if Ascii.eqb a c then new +:+ Str.replace (String a EmptyString) new s
  else String c (Str.replace (String a EmptyString) new s).
Proof. unfold Str.replace. cbn. now destruct (Ascii.eqb a c). Qed.

Lemma replace_empty (old new : string) : Str.replace old new EmptyString = EmptyString.
Proof. reflexivity. Qed.

Lemma safe_book_title_spec (title : string) :
  safe_book_title title = slug_spec title.
Proof.
  unfold safe_book_title.
  induction title as [|c title IH]; [reflexivity|].
  cbn [slug_spec]. unfold slug_char.
  rewrite (replace_char " " "_" c title).
  rewrite (Ascii.eqb_sym c " ").
  destruct (Ascii.eqb_spec " "%char c) as [<-|Hsp].
  { change ("_" +:+ Str.replace " " "_" title)
      with (String "_" (Str.replace " " "_" title)).
    unfold Str.dquote. rewrite replace_char.
    change (Ascii.eqb (ascii_of_nat 34) "_") with false. cbv iota.
    rewrite replace_char.
    change (Ascii.eqb ":" "_") with false. cbv iota.
    cbn [Str.lower]. now rewrite <- IH. }
  unfold Str.dquote in *. rewrite replace_char.
  rewrite (Ascii.eqb_sym c (ascii_of_nat 34)).
  destruct (Ascii.eqb_spec (ascii_of_nat 34) c) as [<-|Hdq].
  { exact IH. }
  rewrite replace_char. rewrite (Ascii.eqb_sym c ":").
  destruct (Ascii.eqb_spec ":"%char c) as [<-|Hco].
  { exact IH. }
  cbn [Str.lower]. now rewrite <- IH.
Qed.

(** C5. The three places that derive the slug compute the same function of
    the title: character by character, a space becomes an underscore, a
    double quote or a colon is dropped, anything else is lowercased; "The
    Hobbit: A Tale" gives the_hobbit_a_tale. *)
Theorem slug_derivation (title : string) :
  speech_safe_book_title title = safe_book_title title
  /\ thumbnail_safe_book_title title = safe_book_title title
  /\ safe_book_title title = slug_spec title
  /\ safe_book_title "The Hobbit: A Tale" = "the_hobbit_a_tale".
Proof.
  repeat split; try reflexivity. apply safe_book_title_spec.
Qed.

(** * generate_subtitles *)

(** The loop comes back with no path, or with the path it wrote to. *)
Lemma subtitles_loop_spec (w : world) (audio_file_path : string)
    (max_retries delay : Z) (fuel : nat) (Hdelay : (0 <= delay <= max_sleep)%Z) :
  forall (attempts : Z) (k : nat),
    fuel = Z.to_nat (max_retries - attempts) ->
    let m := subtitles_loop w audio_file_path max_retries delay fuel attempts k in
    (m.1 = Return None
     /\ forall j, (k <= j < k + fuel)%nat ->
                  match w_transcribe w j with
                  | inl _ =>
                      w_write_error w (Str.replace ".mp3" ".srt" audio_file_path)
                      <> None
                  | inr _ => True
                  end)
    \/ (m.1 = Return (Some (Str.replace ".mp3" ".srt" audio_file_path))
        /\ exists srt_content,
             last m.2
             = Some (EWriteFile (Str.replace ".mp3" ".srt" audio_file_path)
                       srt_content)).
Proof.
  induction fuel as [|fuel IH]; intros attempts k Hfuel; cbv zeta;
    cbn [subtitles_loop].
  - assert (Hdone : (attempts <? max_retries)%Z = false)
      by (apply Z.ltb_ge; lia).
    rewrite Hdone. left. split; [reflexivity|]. intros j Hj. lia.
  - assert (Hgo : (attempts <? max_retries)%Z = true) by (apply Z.ltb_lt; lia).
    rewrite Hgo, bind_emit. cbv zeta. rewrite (sleep_ok delay Hdelay).
    assert (Hnext : fuel = Z.to_nat (max_retries - (attempts + 1))) by lia.
    specialize (IH (attempts + 1)%Z (S k) Hnext). cbv zeta in IH.
    set (rest := subtitles_loop w audio_file_path max_retries delay fuel
                   (attempts + 1) (S k)) in *.
    assert (Hretry : forall e,
      match w_transcribe w k with
      | inl _ =>
          w_write_error w (Str.replace ".mp3" ".srt" audio_file_path) <> None
      | inr _ => True
      end ->
      let m := (emit (EPrint (attempt_message attempts e)) ;;
                emit (ESleep delay) ;; rest) in
      (m.1 = Return None
       /\ forall j, (k <= j < k + S fuel)%nat ->
                    match w_transcribe w j with
                    | inl _ =>
                        w_write_error w (Str.replace ".mp3" ".srt" audio_file_path)
                        <> None
                    | inr _ => True
                    end)
      \/ (m.1 = Return (Some (Str.replace ".mp3" ".srt" audio_file_path))
          /\ exists srt_content,
               last (ETranscribe audio_file_path :: m.2)
               = Some (EWriteFile (Str.replace ".mp3" ".srt" audio_file_path)
                         srt_content))).
    { intros e Hk. cbv zeta. rewrite !bind_emit. cbn [fst snd].
      destruct IH as [[Hnone Hall]|[Hsome [srt Hlast]]].
      - left. split; [exact Hnone|]. intros j Hj.
        destruct (decide (j = k)) as [->|Hne]; [exact Hk|]. apply Hall. lia.
      - right. split; [exact Hsome|]. exists srt.
        destruct rest.2 as [|ev evs]; [discriminate|]. exact Hlast. }
    destruct (w_transcribe w k) as [srt|e] eqn:Ht.
    + destruct (w_write_error w (Str.replace ".mp3" ".srt" audio_file_path))
        as [e|] eqn:Hw.
      * cbn [fst snd]. apply Hretry. discriminate.
      * right. rewrite bind_emit. cbn. split; [reflexivity|]. now exists srt.
    + cbn [fst snd]. now apply Hretry.
Qed.

(** Where the path holds no dot before its extension, the target is the
    sibling file. *)
Lemma replace_mp3_sibling (stem : string) :
  no_dot stem = true ->
  Str.replace ".mp3" ".srt" (stem +:+ ".mp3") = stem +:+ ".srt".
Proof.
  unfold Str.replace.
  induction stem as [|c stem IH]; intros H; [reflexivity|].
  simpl in H. apply andb_prop in H as [Hc H].
  apply negb_true_iff in Hc. rewrite Ascii.eqb_sym in Hc.
  change (String c stem +:+ ".mp3") with (String c (stem +:+ ".mp3")).
  change (String c stem +:+ ".srt") with (String c (stem +:+ ".srt")).
  cbn [Str.replace_from Str.startswith]. rewrite Hc. now rewrite IH.
Qed.

(** C6. For the title "How .mp3 works" the audio file is
    /app/Videos/how_.mp3_works/voice.mp3; generate_subtitles, its
    transcription succeeding, writes to and returns
    /app/Videos/how_.srt_works/voice.srt, which is not the sibling of the
    audio file. *)
Theorem generate_subtitles_replaces_every_mp3 :
  mp3_audio_path = "/app/Videos/how_.mp3_works/voice.mp3"
  /\ generate_subtitles world_ok "key" mp3_audio_path
     = (Return (Some "/app/Videos/how_.srt_works/voice.srt"),
        [ETranscribe "/app/Videos/how_.mp3_works/voice.mp3";
         EWriteFile "/app/Videos/how_.srt_works/voice.srt" "1"])
  /\ "/app/Videos/how_.srt_works/voice.srt"
     <> "/app/Videos/how_.mp3_works/voice.srt".
Proof. vm_compute. repeat split. discriminate. Qed.

(** * Caption clips *)







(** The loop returns the clips it was given followed by one clip per cue, in
    the order of the cues. *)
Lemma subtitle_clips_loop_return (video_width video_height fontsize : Z)
    (font color : string) (subtitles : list SubRipItem) :
  forall subtitle_clips clips,
    (subtitle_clips_loop video_width video_height fontsize font color subtitles
       subtitle_clips).1 = Return clips ->
    exists made,
      clips = subtitle_clips ++ made
      /\ Forall2 (fun cue clip =>
                    create_subtitle_clip video_width video_height fontsize font
                      color cue = ret clip) subtitles made.
Proof.
  induction subtitles as [|cue subtitles IH]; intros acc clips H.
  - injection H as <-. exists []. split; [now rewrite app_nil_r|constructor].
  - cbn [subtitle_clips_loop] in H.
    pose proof (create_subtitle_clip_silent video_width video_height fontsize
                  font color cue) as Hs.
    apply silent_eta in Hs.
    destruct (create_subtitle_clip video_width video_height fontsize font
                color cue).1 as [clip| |] eqn:Hc;
      rewrite Hs in H; try discriminate H.
    change (@Return TextClip clip, @nil event) with (ret clip) in H.
    rewrite bind_ret_l in H.
    apply IH in H as (made & -> & Hall).
    exists (clip :: made). split; [now rewrite <- app_assoc|].
    constructor; [exact Hs|exact Hall].
Qed.










(** * Credentials *)

Section RefreshRefused.
Variable w : world.
Variable c : Credentials.
Variable e : string.
Hypothesis Hinvalid : valid c = false.
Hypothesis Hexpired : expired c = true.
Hypothesis Htoken : truthy (refresh_token c) = true.
Hypothesis Hrefused : w_refresh w c = inr e.

(** The file-storage path catches the refusal, logs it, logs in afresh
    and stores the new credentials (the library steps succeeding). *)
Lemma service_google_drive_refresh_refused :
  w_drive_token w = Some c ->
  (forall step, w_lib w step = None) ->
  service_google_drive w
  = (Return {| service_name := "drive"; service_version := "v3";
               service_credentials := w_login w |},
     [ERefresh; EPrint ("Error refreshing access token: " +:+ e);
      ELogin "client_secret.json"; EWriteToken "token.json" (w_login w)]).
Proof.
  intros Hfile Hlib. unfold service_google_drive, interactive_login, attempt.
  cbv zeta.
  repeat (first [rewrite Hfile|rewrite Hlib|rewrite Hinvalid|rewrite Hexpired
                |rewrite Htoken|rewrite Hrefused]; cbn).
  reflexivity.
Qed.

(** The video-hosting path lets the refusal through. *)
Lemma service_youtube_refresh_refused :
  w_youtube_token w = Some c ->
  w_lib w (PickleLoad "youtube_token.pickle") = None ->
  service_youtube w = (Raise RefreshError, [ERefresh]).
Proof.
  intros Hfile Hload. unfold service_youtube, attempt. cbv zeta.
  repeat (first [rewrite Hfile|rewrite Hload|rewrite Hinvalid|rewrite Hexpired
                |rewrite Htoken|rewrite Hrefused]; cbn).
  reflexivity.
Qed.
End RefreshRefused.

(** C9. With an expired cached token whose refresh is refused,
    service_google_drive logs the failure, logs in afresh and stores the new
    credentials, while service_youtube raises RefreshError: it neither logs
    in nor writes the token file. *)
Theorem service_youtube_lets_refresh_failure_through :
  service_youtube world_refresh_refused = (Raise RefreshError, [ERefresh])
  /\ service_google_drive world_refresh_refused
     = (Return {| service_name := "drive"; service_version := "v3";
                  service_credentials := fresh_credentials |},
        [ERefresh; EPrint "Error refreshing access token: invalid_grant";
         ELogin "client_secret.json"; EWriteToken "token.json" fresh_credentials])
  /\ (process_books world_refresh_refused "key" sample_worklist).1
     = Raise RefreshError.
Proof. vm_compute. repeat split. Qed.

(** * Subtitle parsing *)

(** When pysrt.open raises UnicodeDecodeError, the cues are those parsed
    from the file read as windows-1252 with errors ignored. *)
Lemma parse_subtitles_fallback (w : world) (srt_path : string) :
  w_lib w (PysrtOpen srt_path) = Some UnicodeDecodeError ->
  w_lib w (OpenText srt_path "windows-1252" "ignore") = None ->
  parse_subtitles w srt_path
  = (Return (w_from_string w (w_read_text w srt_path "windows-1252" "ignore")),
     [ECall (PysrtOpen srt_path);
      ECall (OpenText srt_path "windows-1252" "ignore")]).
Proof.
  intros Hopen Hread. unfold parse_subtitles, open_srt_with_encoding, call.
  rewrite Hopen, Hread. reflexivity.
Qed.

(** Any other outcome of pysrt.open is passed on: its cues, or its
    exception. *)
Lemma parse_subtitles_default (w : world) (srt_path : string) :
  w_lib w (PysrtOpen srt_path) = None ->
  parse_subtitles w srt_path
  = (Return (w_pysrt_open w srt_path), [ECall (PysrtOpen srt_path)]).
Proof.
  intros Hopen. unfold parse_subtitles. rewrite Hopen. reflexivity.
Qed.

(** * Events of a computation *)

Lemma all_events_ret {A} (p : event -> bool) (a : A) : all_events p (ret a).
Proof. reflexivity. Qed.

Lemma all_events_raise {A} (p : event -> bool) (e : exn) :
  all_events p (@raise A e).
Proof. reflexivity. Qed.

Lemma all_events_out_of_fuel {A} (p : event -> bool) :
  all_events p (@OutOfFuel A, []).
Proof. reflexivity. Qed.

Lemma all_events_emit (p : event -> bool) (e : event) :
  p e = true -> all_events p (emit e).
Proof. intros H. unfold all_events. simpl. now rewrite H. Qed.

Lemma all_events_sleep (p : event -> bool) (seconds : Z) :
  p (ESleep seconds) = true -> all_events p (sleep seconds).
Proof.
  intros H. unfold sleep. destruct (_ || _); [reflexivity|].
  destruct (seconds <? 0)%Z; [reflexivity|]. now apply all_events_emit.
Qed.

Lemma all_events_bind {A B} (p : event -> bool) (m : M A) (k : A -> M B) :
  all_events p m -> (forall a, all_events p (k a)) -> all_events p (bind m k).
Proof.
  unfold all_events. intros Hm Hk. destruct m as [[a| |] t]; simpl in *; auto.
  specialize (Hk a). destruct (k a) as [r t']. simpl in *.
  rewrite forallb_app. now rewrite Hm, Hk.
Qed.

Lemma all_events_elem {A} (p : event -> bool) (m : M A) (e : event) :
  all_events p m -> e ∈ m.2 -> p e = true.
Proof.
  unfold all_events. intros Hall Hin. rewrite forallb_forall in Hall.
  apply Hall. now apply list_elem_of_In.
Qed.

Ltac events_step :=
  lazymatch goal with
  | |- all_events _ (ret _) => apply all_events_ret
  | |- all_events _ (raise _) => apply all_events_raise
  | |- all_events _ (OutOfFuel, []) => apply all_events_out_of_fuel
  | |- all_events _ (emit _) => apply all_events_emit; reflexivity
  | |- all_events _ (sleep _) => apply all_events_sleep; reflexivity
  | |- all_events _ (bind _ _) => apply all_events_bind; [|intros ?]
  end.

(** * Paths *)

Lemma split_slash_nonempty (s : string) : Path.split_slash s <> [].
Proof.
  destruct s as [|c s]; [discriminate|]. cbn [Path.split_slash].
  destruct (Ascii.eqb c "/"); [discriminate|].
  now destruct (Path.split_slash s).
Qed.

(** Splitting at the slashes, a slash between two strings separates what
    comes from each. *)
Lemma split_slash_app (a b : string) :
  Path.split_slash (a +:+ String "/" b) = Path.split_slash a ++ Path.split_slash b.
Proof.
  induction a as [|c a IH]; [reflexivity|].
  change (String c a +:+ String "/" b) with (String c (a +:+ String "/" b)).
  cbn [Path.split_slash]. rewrite IH.
  destruct (Ascii.eqb c "/"); [reflexivity|].
  pose proof (split_slash_nonempty a) as Hne.
  now destruct (Path.split_slash a).
Qed.

Lemma concat_snoc (sep : string) (parts : list string) (last_part : string) :
  parts <> [] ->
  String.concat sep (parts ++ [last_part])
  = String.concat sep parts +:+ sep +:+ last_part.
Proof.
  induction parts as [|x parts IH]; [congruence|]. intros _.
  destruct parts as [|y parts]; [reflexivity|].
  change (String.concat sep ((x :: y :: parts) ++ [last_part]))
    with (x +:+ sep +:+ String.concat sep ((y :: parts) ++ [last_part])).
  rewrite IH by discriminate.
  change (String.concat sep (x :: y :: parts))
    with (x +:+ sep +:+ String.concat sep (y :: parts)).
  now rewrite !append_assoc_string.
Qed.

Lemma str_parts (p : Path.t) :
  Path.parts p <> [] ->
  Path.str p = Path.root p +:+ String.concat "/" (Path.parts p).
Proof.
  unfold Path.str. destruct (Path.root p), (Path.parts p); congruence.
Qed.

(** A key that is one part, joined to a path that has parts, comes after a
    slash. *)
Lemma str_joinpath_part (p : Path.t) (key : string) :
  Path.parts p <> [] ->
  Str.startswith "/" key = false -> Path.split_slash key = [key] ->
  Path.kept key = true ->
  Path.joinpath p key
  = {| Path.root := Path.root p; Path.parts := Path.parts p ++ [key] |}
  /\ Path.str (Path.joinpath p key) = Path.str p +:+ String "/" key.
Proof.
  intros Hparts Hstart Hsplit Hkept.
  assert (Hjoin : Path.joinpath p key
                  = {| Path.root := Path.root p;
                       Path.parts := Path.parts p ++ [key] |}).
  { unfold Path.joinpath, Path.parse, Path.splitroot. rewrite Hstart.
    cbn [negb Path.parts]. rewrite Hsplit. cbn [List.filter].
    now rewrite Hkept. }
  split; [exact Hjoin|]. rewrite Hjoin, !str_parts; cbn [Path.root Path.parts].
  - rewrite concat_snoc by exact Hparts. now rewrite !append_assoc_string.
  - exact Hparts.
  - now destruct (Path.parts p).
Qed.

(** The directory of a title: the parts of the parent, then Videos, then
    the parts of the slug. *)
Lemma directory_path_parts (w : world) (slug : string) :
  directory_path w slug
  = {| Path.root := Path.root (Path.parse (w_parent w));
       Path.parts := Path.parts (Path.parse (w_parent w))
                     ++ "Videos" :: List.filter Path.kept (Path.split_slash slug) |}.
Proof.
  unfold directory_path, Path.joinpath.
  change (Str.startswith "/" ("Videos/" +:+ slug)) with false. cbv iota.
  unfold Path.parse at 3.
  change (Path.splitroot ("Videos/" +:+ slug)) with (EmptyString, "Videos/" +:+ slug).
  cbn [Path.parts].
  change ("Videos/" +:+ slug) with ("Videos" +:+ String "/" slug).
  rewrite split_slash_app. reflexivity.
Qed.

Lemma directory_path_has_parts (w : world) (slug : string) :
  Path.parts (directory_path w slug) <> [].
Proof.
  rewrite directory_path_parts. cbn [Path.parts].
  now destruct (Path.parts (Path.parse (w_parent w))).
Qed.

(** A file of the directory is shown as the directory, a slash and the
    name. *)
Lemma directory_file (w : world) (slug name : string) :
  Str.startswith "/" name = false -> Path.split_slash name = [name] ->
  Path.kept name = true ->
  Path.str (Path.joinpath (directory_path w slug) name)
  = Path.str (directory_path w slug) +:+ String "/" name.
Proof.
  intros H1 H2 H3.
  now apply (str_joinpath_part _ name (directory_path_has_parts w slug)).
Qed.

(** generate_book_thumbnail joins the whole of Videos/<slug>/image.png to
    the parent at once; that is the file image.png of the directory. *)
Lemma thumbnail_image_path (w : world) (slug : string) :
  Path.joinpath (Path.parse (w_parent w)) ("Videos/" +:+ slug +:+ "/image.png")
  = Path.joinpath (directory_path w slug) "image.png".
Proof.
  rewrite (proj1 (str_joinpath_part (directory_path w slug) "image.png"
                    (directory_path_has_parts w slug) eq_refl eq_refl eq_refl)).
  rewrite directory_path_parts. cbn [Path.root Path.parts].
  unfold Path.joinpath.
  change (Str.startswith "/" ("Videos/" +:+ slug +:+ "/image.png")) with false.
  cbv iota. unfold Path.parse at 3.
  change (Path.splitroot ("Videos/" +:+ slug +:+ "/image.png"))
    with (EmptyString, "Videos/" +:+ slug +:+ "/image.png").
  cbn [Path.parts].
  change ("Videos/" +:+ slug +:+ "/image.png")
    with ("Videos" +:+ String "/" (slug +:+ String "/" "image.png")).
  rewrite !split_slash_app, !List.filter_app, <- !app_assoc. reflexivity.
Qed.

Example blank_title_speech_path :
  Path.str (Path.joinpath (directory_path world_ok (safe_book_title EmptyString))
              "voice.mp3")
  = "/app/Videos/voice.mp3".
Proof. reflexivity. Qed.

Example dotted_title_speech_path :
  Path.str (Path.joinpath (directory_path world_ok (safe_book_title "."))
              "voice.mp3")
  = "/app/Videos/voice.mp3".
Proof. reflexivity. Qed.

Example slashed_title_speech_path :
  Path.str (Path.joinpath
              (directory_path world_ok (safe_book_title "Fahrenheit 9/11"))
              "voice.mp3")
  = "/app/Videos/fahrenheit_9/11/voice.mp3".
Proof. reflexivity. Qed.

Example relative_parent_path :
  Path.str (Path.joinpath (Path.joinpath (Path.parse ".") "Videos/emma")
              "voice.mp3")
  = "Videos/emma/voice.mp3".
Proof. reflexivity. Qed.

(** * The wrappers around the speech and image endpoints *)

Lemma voice_in_voices (n : nat) :
  nth (n mod length voices) voices EmptyString ∈ voices.
Proof.
  apply list_elem_of_In, nth_In. apply Nat.mod_upper_bound. discriminate.
Qed.

Lemma first_success_bounds (ok : nat -> bool) (n : nat) :
  forall k j, first_success ok k n = Some j ->
              (k <= j < k + n)%nat /\ ok j = true
              /\ forall i, (k <= i < j)%nat -> ok i = false.
Proof.
  induction n as [|n IH]; intros k j H; simpl in H; [discriminate|].
  destruct (ok k) eqn:Hk.
  - inversion H; subst. repeat split; auto; try (intros; lia).
  - destruct (IH _ _ H) as (Hj & Hok & Hprev). repeat split; try lia; auto.
    intros i Hi. destruct (decide (i = k)) as [->|Hne]; [exact Hk|].
    apply Hprev. lia.
Qed.

Lemma first_success_none (ok : nat -> bool) (n : nat) :
  forall k, first_success ok k n = None ->
            forall i, (k <= i < k + n)%nat -> ok i = false.
Proof.
  induction n as [|n IH]; intros k H i Hi; simpl in H; [lia|].
  destruct (ok k) eqn:Hk; [discriminate|].
  destruct (decide (i = k)) as [->|Hne]; [exact Hk|]. apply (IH _ H). lia.
Qed.

(** Splits the membership of an event in an explicit trace into cases. *)
Ltac trace_cases H :=
  cbn [fst snd emit ret raise] in H;
  repeat (apply elem_of_cons in H; destruct H as [H|H];
          [try discriminate H|]);
  try (apply elem_of_nil in H; contradiction).

Lemma speech_loop_spec (w : world) (text path voice : string)
    (max_retries delay : Z) (fuel : nat) (Hdelay : (0 <= delay <= max_sleep)%Z) :
  forall (attempts : Z) (k : nat),
    fuel = Z.to_nat (max_retries - attempts) ->
    let m := speech_loop w text path voice max_retries delay fuel attempts k in
    m.1 = Return tt
    /\ (forall v i p, ESpeech v i p ∈ m.2 -> v = voice /\ i = text /\ p = path)
    /\ (forall d, ESleep d ∈ m.2 -> d = delay)
    /\ match first_success (speech_ok w) k fuel with
       | Some j =>
           count_events is_speech m.2 = S (j - k)
           /\ count_events is_sleep m.2 = (j - k)%nat
           /\ last m.2 = Some (EPrint ("Audio saved as " +:+ path
                                       +:+ " using voice: " +:+ voice))
       | None =>
           count_events is_speech m.2 = fuel
           /\ count_events is_sleep m.2 = fuel
           /\ last m.2
              = Some (EPrint "Max retries reached. Unable to generate speech.")
       end.
Proof.
  induction fuel as [|fuel IH]; intros attempts k Hfuel; cbv zeta;
    cbn [speech_loop first_success].
  - assert (Hdone : (attempts <? max_retries)%Z = false)
      by (apply Z.ltb_ge; lia).
    rewrite Hdone. cbn.
    split; [reflexivity|]. split; [intros v i p H; trace_cases H|].
    split; [intros d H; trace_cases H|]. now repeat split.
  - assert (Hgo : (attempts <? max_retries)%Z = true) by (apply Z.ltb_lt; lia).
    rewrite Hgo, bind_emit. unfold speech_ok at 1.
    destruct (w_speech w k) as [e|] eqn:Hk.
    + rewrite (sleep_ok delay Hdelay), !bind_emit. cbn [fst snd].
      assert (Hnext : fuel = Z.to_nat (max_retries - (attempts + 1))) by lia.
      destruct (IH (attempts + 1)%Z (S k) Hnext) as (Hr & Hs & Hd & Hc).
      split; [exact Hr|]. split; [|split].
      * intros v i p H. apply elem_of_cons in H as [H|H].
        { injection H as -> -> ->. auto. }
        apply elem_of_cons in H as [H|H]; [discriminate|].
        apply elem_of_cons in H as [H|H]; [discriminate|]. now apply Hs.
      * intros d H. apply elem_of_cons in H as [H|H]; [discriminate|].
        apply elem_of_cons in H as [H|H]; [discriminate|].
        apply elem_of_cons in H as [H|H]; [congruence|]. now apply Hd.
      * destruct (first_success (speech_ok w) (S k) fuel) as [j|] eqn:Hf.
        -- apply first_success_bounds in Hf as (Hj & _).
           destruct Hc as (Hc1 & Hc2 & Hl). cbn [count_events is_speech is_sleep].
           rewrite Hc1, Hc2. repeat split; try lia.
           rewrite !last_cons, Hl. reflexivity.
        -- destruct Hc as (Hc1 & Hc2 & Hl). cbn [count_events is_speech is_sleep].
           rewrite Hc1, Hc2. repeat split; try lia.
           rewrite !last_cons, Hl. reflexivity.
    + cbn. split; [reflexivity|]. split; [|split].
      * intros v i p H. apply elem_of_cons in H as [H|H].
        { injection H as -> -> ->. auto. }
        trace_cases H.
      * intros d H. trace_cases H.
      * rewrite Nat.sub_diag. now repeat split.
Qed.

(** X1. text_to_speech always returns.  Its directory is the parent's path
    followed by Videos and by the parts of the slug (none for a slug that is
    empty or a dot).  When the directory cannot be made it logs that and
    asks for no speech.  Otherwise it asks at most three times, always for
    the same text, voice (one of the six) and file, voice.mp3 in that
    directory, sleeps 2 after each failure, and stops at the first
    success. *)
Theorem text_to_speech_contract (w : world) (text book_title api_key : string) :
  let m := text_to_speech w text book_title api_key in
  let dir := directory_path w (safe_book_title book_title) in
  let path := Path.str dir +:+ "/voice.mp3" in
  let voice := nth (w_choice w mod length voices) voices EmptyString in
  m.1 = Return tt
  /\ Path.root dir = Path.root (Path.parse (w_parent w))
  /\ Path.parts dir
     = Path.parts (Path.parse (w_parent w))
       ++ "Videos" :: List.filter Path.kept
                        (Path.split_slash (safe_book_title book_title))
  /\ (forall v i p, ESpeech v i p ∈ m.2 ->
                    v = voice /\ v ∈ voices /\ i = text /\ p = path)
  /\ (forall d, ESleep d ∈ m.2 -> d = 2%Z)
  /\ match w_mkdir w with
     | Some e =>
         m.2 = [EMkdir (Path.str dir);
                EPrint ("Error creating directory: " +:+ e)]
     | None =>
         match first_success (speech_ok w) 0 3 with
         | Some j =>
             count_events is_speech m.2 = S j
             /\ count_events is_sleep m.2 = j
             /\ last m.2
                = Some (EPrint ("Audio saved as " +:+ path
                                +:+ " using voice: " +:+ voice))
         | None =>
             count_events is_speech m.2 = 3%nat
             /\ count_events is_sleep m.2 = 3%nat
             /\ last m.2
                = Some (EPrint "Max retries reached. Unable to generate speech.")
         end
     end.
Proof.
  cbv zeta. unfold text_to_speech. cbv zeta.
  change (speech_safe_book_title book_title) with (safe_book_title book_title).
  rewrite (directory_file w (safe_book_title book_title) "voice.mp3")
    by reflexivity.
  set (dir := directory_path w (safe_book_title book_title)).
  set (voice := nth (w_choice w mod length voices) voices EmptyString).
  rewrite bind_emit.
  split.
  2:{ split; [unfold dir; now rewrite directory_path_parts|].
      split; [unfold dir; now rewrite directory_path_parts|].
      destruct (w_mkdir w) as [e|].
      { cbn. split; [intros v i p H; trace_cases H|].
        split; [intros d H; trace_cases H|reflexivity]. }
      assert (Hfuel : 3%nat = Z.to_nat (3 - 0)) by reflexivity.
      destruct (speech_loop_spec w text (Path.str dir +:+ "/voice.mp3") voice
                  3 2 3 two_seconds 0%Z 0%nat Hfuel) as (Hr & Hs & Hd & Hc).
      cbn [fst snd]. split; [|split].
      - intros v i p H. apply elem_of_cons in H as [H|H]; [discriminate|].
        destruct (Hs v i p H) as (-> & -> & ->).
        repeat split. apply voice_in_voices.
      - intros d H. apply elem_of_cons in H as [H|H]; [discriminate|].
        now apply Hd.
      - destruct (first_success (speech_ok w) 0 3) as [j|];
          destruct Hc as (Hc1 & Hc2 & Hl);
          cbn [count_events is_speech is_sleep];
          rewrite Hc1, Hc2, last_cons, Hl; repeat split;
          first [lia|reflexivity]. }
  destruct (w_mkdir w) as [e|]; [reflexivity|].
  assert (Hfuel : 3%nat = Z.to_nat (3 - 0)) by reflexivity.
  now destruct (speech_loop_spec w text (Path.str dir +:+ "/voice.mp3") voice
                  3 2 3 two_seconds 0%Z 0%nat Hfuel) as (Hr & _).
Qed.

(** * generate_book_thumbnail *)

Lemma thumbnail_loop_spec (w : world) (book_title : string)
    (max_retries delay : Z) (fuel : nat) (Hdelay : (0 <= delay <= max_sleep)%Z) :
  forall (attempts : Z) (k : nat),
    fuel = Z.to_nat (max_retries - attempts) ->
    let m := thumbnail_loop w book_title max_retries delay fuel attempts k in
    let image_path := Path.str (directory_path w (safe_book_title book_title))
                      +:+ "/image.png" in
    m.1 = Return tt
    /\ (forall prompt p, EImage prompt p ∈ m.2 ->
                         prompt = thumbnail_prompt book_title /\ p = image_path)
    /\ (forall d, ESleep d ∈ m.2 -> d = delay)
    /\ match first_success (image_ok w) k fuel with
       | Some j =>
           count_events is_image m.2 = S (j - k)
           /\ count_events is_sleep m.2 = (j - k)%nat
           /\ last m.2 = Some (EPrint ("Thumbnail saved as " +:+ image_path))
       | None =>
           count_events is_image m.2 = fuel
           /\ count_events is_sleep m.2 = fuel
           /\ last m.2
              = Some (EPrint "Max retries reached. Unable to generate thumbnail.")
       end.
Proof.
  induction fuel as [|fuel IH]; intros attempts k Hfuel; cbv zeta;
    cbn [thumbnail_loop first_success].
  - assert (Hdone : (attempts <? max_retries)%Z = false)
      by (apply Z.ltb_ge; lia).
    rewrite Hdone. cbn.
    split; [reflexivity|]. split; [intros v p H; trace_cases H|].
    split; [intros d H; trace_cases H|]. now repeat split.
  - assert (Hgo : (attempts <? max_retries)%Z = true) by (apply Z.ltb_lt; lia).
    rewrite Hgo. cbv zeta. rewrite bind_emit. unfold image_ok at 1.
    change (thumbnail_safe_book_title book_title)
      with (safe_book_title book_title).
    rewrite thumbnail_image_path, (directory_file w _ "image.png")
      by reflexivity.
    destruct (w_image w k) as [e|] eqn:Hk.
    + rewrite (sleep_ok delay Hdelay), !bind_emit. cbn [fst snd].
      assert (Hnext : fuel = Z.to_nat (max_retries - (attempts + 1))) by lia.
      destruct (IH (attempts + 1)%Z (S k) Hnext) as (Hr & Hs & Hd & Hc).
      split; [exact Hr|]. split; [|split].
      * intros v p H. apply elem_of_cons in H as [H|H].
        { injection H as -> ->. auto. }
        apply elem_of_cons in H as [H|H]; [discriminate|].
        apply elem_of_cons in H as [H|H]; [discriminate|]. now apply Hs.
      * intros d H. apply elem_of_cons in H as [H|H]; [discriminate|].
        apply elem_of_cons in H as [H|H]; [discriminate|].
        apply elem_of_cons in H as [H|H]; [congruence|]. now apply Hd.
      * destruct (first_success (image_ok w) (S k) fuel) as [j|] eqn:Hf.
        -- apply first_success_bounds in Hf as (Hj & _).
           destruct Hc as (Hc1 & Hc2 & Hl). cbn [count_events is_image is_sleep].
           rewrite Hc1, Hc2. repeat split; try lia.
           rewrite !last_cons, Hl. reflexivity.
        -- destruct Hc as (Hc1 & Hc2 & Hl). cbn [count_events is_image is_sleep].
           rewrite Hc1, Hc2. repeat split; try lia.
           rewrite !last_cons, Hl. reflexivity.
    + cbn. split; [reflexivity|]. split; [|split].
      * intros v p H. apply elem_of_cons in H as [H|H].
        { injection H as -> ->. auto. }
        trace_cases H.
      * intros d H. trace_cases H.
      * rewrite Nat.sub_diag. now repeat split.
Qed.

Lemma thumbnail_loop_events (w : world) (book_title : string)
    (max_retries delay : Z) (fuel : nat) :
  forall (attempts : Z) (k : nat),
    all_events thumbnail_event
      (thumbnail_loop w book_title max_retries delay fuel attempts k).
Proof.
  induction fuel as [|fuel IH]; intros attempts k; cbn [thumbnail_loop];
    destruct (attempts <? max_retries)%Z; repeat events_step.
  cbv zeta. destruct (w_image w k); repeat events_step. apply IH.
Qed.

(** X2. generate_book_thumbnail always returns.  It asks for an image at
    most three times, always with the same prompt and for the same file,
    image.png in the directory of the title, which is the file the pipeline
    reads afterwards; it sleeps 2 after each failure and stops at the first
    success; it never makes the directory it writes into. *)
Theorem generate_book_thumbnail_contract (w : world) (book_title api_key : string) :
  let m := generate_book_thumbnail w book_title api_key in
  let dir := directory_path w (safe_book_title book_title) in
  let image_path := Path.str dir +:+ "/image.png" in
  m.1 = Return tt
  /\ image_path = Path.str (Path.joinpath dir "image.png")
  /\ (forall prompt p, EImage prompt p ∈ m.2 ->
                       prompt = thumbnail_prompt book_title /\ p = image_path)
  /\ (forall d, ESleep d ∈ m.2 -> d = 2%Z)
  /\ (forall p, EMkdir p ∉ m.2)
  /\ match first_success (image_ok w) 0 3 with
     | Some j =>
         count_events is_image m.2 = S j
         /\ count_events is_sleep m.2 = j
         /\ last m.2 = Some (EPrint ("Thumbnail saved as " +:+ image_path))
     | None =>
         count_events is_image m.2 = 3%nat
         /\ count_events is_sleep m.2 = 3%nat
         /\ last m.2
            = Some (EPrint "Max retries reached. Unable to generate thumbnail.")
     end.
Proof.
  cbv zeta. unfold generate_book_thumbnail.
  assert (Hfuel : 3%nat = Z.to_nat (3 - 0)) by reflexivity.
  destruct (thumbnail_loop_spec w book_title 3 2 3 two_seconds 0%Z 0%nat Hfuel)
    as (Hr & Hs & Hd & Hc).
  split; [exact Hr|].
  split; [now rewrite (directory_file w _ "image.png") by reflexivity|].
  split; [exact Hs|]. split; [exact Hd|]. split.
  - intros p H.
    apply (all_events_elem thumbnail_event) in H; [discriminate|].
    apply thumbnail_loop_events.
  - destruct (first_success (image_ok w) 0 3) as [j|];
      destruct Hc as (Hc1 & Hc2 & Hl); rewrite Hc1, Hc2, Hl; repeat split;
      first [lia|reflexivity].
Qed.

(** * generate_subtitles, attempt by attempt *)

Lemma subtitles_loop_contract (w : world) (audio_file_path : string)
    (max_retries delay : Z) (fuel : nat) (Hdelay : (0 <= delay <= max_sleep)%Z) :
  forall (attempts : Z) (k : nat),
    fuel = Z.to_nat (max_retries - attempts) ->
    let m := subtitles_loop w audio_file_path max_retries delay fuel attempts k in
    let srt_file_path := Str.replace ".mp3" ".srt" audio_file_path in
    (forall p, ETranscribe p ∈ m.2 -> p = audio_file_path)
    /\ (forall d, ESleep d ∈ m.2 -> d = delay)
    /\ match first_success (subtitles_ok w audio_file_path) k fuel with
       | Some j =>
           exists srt_content,
             w_transcribe w j = inl srt_content
             /\ m.1 = Return (Some srt_file_path)
             /\ last m.2 = Some (EWriteFile srt_file_path srt_content)
             /\ count_events is_write_file m.2 = 1%nat
             /\ count_events is_transcribe m.2 = S (j - k)
             /\ count_events is_sleep m.2 = (j - k)%nat
       | None =>
           m.1 = Return None
           /\ last m.2
              = Some (EPrint "Max retries reached. Unable to generate subtitles.")
           /\ count_events is_write_file m.2 = 0%nat
           /\ count_events is_transcribe m.2 = fuel
           /\ count_events is_sleep m.2 = fuel
       end.
Proof.
  induction fuel as [|fuel IH]; intros attempts k Hfuel; cbv zeta;
    cbn [subtitles_loop first_success].
  - assert (Hdone : (attempts <? max_retries)%Z = false)
      by (apply Z.ltb_ge; lia).
    rewrite Hdone. cbn.
    split; [intros p H; trace_cases H|]. split; [intros d H; trace_cases H|].
    now repeat split.
  - assert (Hgo : (attempts <? max_retries)%Z = true) by (apply Z.ltb_lt; lia).
    rewrite Hgo, bind_emit. cbv zeta. rewrite (sleep_ok delay Hdelay).
    assert (Hnext : fuel = Z.to_nat (max_retries - (attempts + 1))) by lia.
    destruct (IH (attempts + 1)%Z (S k) Hnext) as (Ht & Hd & Hc).
    set (rest := subtitles_loop w audio_file_path max_retries delay fuel
                   (attempts + 1) (S k)) in *.
    assert (Hretry : forall e,
      subtitles_ok w audio_file_path k = false ->
      let m := (emit (EPrint (attempt_message attempts e)) ;;
                emit (ESleep delay) ;; rest) in
      (forall p, ETranscribe p ∈ ETranscribe audio_file_path :: m.2 ->
                 p = audio_file_path)
      /\ (forall d, ESleep d ∈ ETranscribe audio_file_path :: m.2 -> d = delay)
      /\ match (if subtitles_ok w audio_file_path k then Some k
                else first_success (subtitles_ok w audio_file_path) (S k) fuel)
         with
         | Some j =>
             exists srt_content,
               w_transcribe w j = inl srt_content
               /\ m.1 = Return (Some (Str.replace ".mp3" ".srt" audio_file_path))
               /\ last (ETranscribe audio_file_path :: m.2)
                  = Some (EWriteFile (Str.replace ".mp3" ".srt" audio_file_path)
                            srt_content)
               /\ count_events is_write_file (ETranscribe audio_file_path :: m.2)
                  = 1%nat
               /\ count_events is_transcribe (ETranscribe audio_file_path :: m.2)
                  = S (j - k)
               /\ count_events is_sleep (ETranscribe audio_file_path :: m.2)
                  = (j - k)%nat
         | None =>
             m.1 = Return None
             /\ last (ETranscribe audio_file_path :: m.2)
                = Some (EPrint "Max retries reached. Unable to generate subtitles.")
             /\ count_events is_write_file (ETranscribe audio_file_path :: m.2)
                = 0%nat
             /\ count_events is_transcribe (ETranscribe audio_file_path :: m.2)
                = S fuel
             /\ count_events is_sleep (ETranscribe audio_file_path :: m.2)
                = S fuel
         end).
    { intros e Hk. cbv zeta. rewrite Hk, !bind_emit. cbn [fst snd].
      split; [|split].
      - intros p H. apply elem_of_cons in H as [H|H]; [congruence|].
        apply elem_of_cons in H as [H|H]; [discriminate|].
        apply elem_of_cons in H as [H|H]; [discriminate|]. now apply Ht.
      - intros d H. apply elem_of_cons in H as [H|H]; [discriminate|].
        apply elem_of_cons in H as [H|H]; [discriminate|].
        apply elem_of_cons in H as [H|H]; [congruence|]. now apply Hd.
      - destruct (first_success (subtitles_ok w audio_file_path) (S k) fuel)
          as [j|] eqn:Hf.
        + apply first_success_bounds in Hf as (Hj & _).
          destruct Hc as (srt & Hsrt & Hr & Hl & Hw & Hn & Hs).
          exists srt. cbn [count_events is_write_file is_transcribe is_sleep].
          rewrite Hw, Hn, Hs, !last_cons, Hl. repeat split; auto; lia.
        + destruct Hc as (Hr & Hl & Hw & Hn & Hs).
          cbn [count_events is_write_file is_transcribe is_sleep].
          rewrite Hw, Hn, Hs, !last_cons, Hl. repeat split; auto. }
    destruct (w_transcribe w k) as [srt|e] eqn:Hk.
    + destruct (w_write_error w (Str.replace ".mp3" ".srt" audio_file_path))
        as [e|] eqn:Hw.
      * assert (Hok : subtitles_ok w audio_file_path k = false)
          by (unfold subtitles_ok; now rewrite Hk, Hw).
        specialize (Hretry e Hok). cbv zeta in Hretry. rewrite Hok in *.
        exact Hretry.
      * assert (Hok : subtitles_ok w audio_file_path k = true)
          by (unfold subtitles_ok; now rewrite Hk, Hw).
        rewrite Hok, bind_emit. cbn [fst snd ret].
        split; [intros p H; apply elem_of_cons in H as [H|H]; [congruence|];
                trace_cases H|].
        split; [intros d H; trace_cases H|].
        exists srt. rewrite Nat.sub_diag. now repeat split.
    + assert (Hok : subtitles_ok w audio_file_path k = false)
        by (unfold subtitles_ok; now rewrite Hk).
      specialize (Hretry e Hok). cbv zeta in Hretry. rewrite Hok in *.
      exact Hretry.
Qed.

(** With a negative delay the first failed attempt ends the call:
    [time.sleep] raises ValueError from inside the handler. *)
Lemma subtitles_negative_delay (w : world) (api_key audio_file_path : string)
    (max_retries delay : Z) :
  (- max_sleep <= delay < 0)%Z -> (0 < max_retries)%Z ->
  subtitles_ok w audio_file_path 0 = false ->
  (generate_subtitles_with w api_key audio_file_path max_retries delay).1
  = Raise ValueError.
Proof.
  intros Hdelay Hmax Hfail. unfold generate_subtitles_with.
  destruct (Z.to_nat max_retries) as [|fuel] eqn:Hn; [lia|].
  cbn [subtitles_loop].
  assert (Hgo : (0 <? max_retries)%Z = true) by (apply Z.ltb_lt; lia).
  rewrite Hgo, bind_emit. cbv zeta. rewrite (sleep_negative delay Hdelay).
  unfold subtitles_ok in Hfail.
  destruct (w_transcribe w 0) as [srt|e]; [|reflexivity].
  now destruct (w_write_error w _).
Qed.



(** * Replacement where the text does not occur *)

Lemma replace_from_absent (old new : string) (s : string) :
  occurs old s = false -> Str.replace_from old new 0 s = s.
Proof.
  induction s as [|c s IH]; [reflexivity|].
  cbn [occurs]. intros H. apply orb_false_iff in H as [Hs Ho].
  cbn [Str.replace_from]. rewrite Hs. now rewrite IH.
Qed.

(** A match of ".mp3" in [s] followed by ".mp3" lies within [s]. *)
Lemma startswith_mp3_append (s : string) :
  s <> EmptyString ->
  Str.startswith ".mp3" (s +:+ ".mp3") = Str.startswith ".mp3" s.
Proof.
  intros Hne.
  destruct s as [|c1 [|c2 [|c3 [|c4 s]]]]; [congruence|..]; cbn;
    repeat match goal with
           | |- context [Ascii.eqb ?a ?b] =>
               destruct (Ascii.eqb_spec a b); subst; cbn
           end;
    try reflexivity; try discriminate.
Qed.

Lemma replace_mp3_suffix (stem : string) :
  occurs ".mp3" stem = false ->
  Str.replace ".mp3" ".srt" (stem +:+ ".mp3") = stem +:+ ".srt".
Proof.
  unfold Str.replace.
  induction stem as [|c stem IH]; intros H; [reflexivity|].
  cbn [occurs] in H. apply orb_false_iff in H as [Hs Ho].
  assert (Hm : Str.startswith ".mp3" (String c stem +:+ ".mp3") = false)
    by (rewrite startswith_mp3_append; [exact Hs|discriminate]).
  change (String c stem +:+ ".mp3") with (String c (stem +:+ ".mp3")) in *.
  change (String c stem +:+ ".srt") with (String c (stem +:+ ".srt")).
  cbn [Str.replace_from]. rewrite Hm. now rewrite IH.
Qed.

(** X4. For an audio path that ends in ".mp3" and holds ".mp3" nowhere
    else, a successful generate_subtitles returns the sibling path, the
    ".mp3" ending replaced by ".srt". *)
Theorem generate_subtitles_sibling
    (w : world) (api_key stem : string) (j : nat) :
  occurs ".mp3" stem = false ->
  first_success (subtitles_ok w (stem +:+ ".mp3")) 0 3 = Some j ->
  exists srt_content,
    w_transcribe w j = inl srt_content
    /\ (generate_subtitles w api_key (stem +:+ ".mp3")).1
       = Return (Some (stem +:+ ".srt"))
    /\ last (generate_subtitles w api_key (stem +:+ ".mp3")).2
       = Some (EWriteFile (stem +:+ ".srt") srt_content).
Proof.
  intros Hstem Hj.
  assert (Hfuel : 3%nat = Z.to_nat (3 - 0)) by reflexivity.
  destruct (subtitles_loop_contract w (stem +:+ ".mp3") 3 2 3 two_seconds 0%Z 0%nat Hfuel)
    as (_ & _ & Hc).
  rewrite Hj in Hc. destruct Hc as (srt & Hsrt & Hr & Hl & _).
  rewrite (replace_mp3_suffix stem Hstem) in Hr, Hl.
  exists srt. split; [exact Hsrt|]. split; [exact Hr|exact Hl].
Qed.

Lemma generate_subtitles_sibling_witness :
  (generate_subtitles world_ok "key" "/app/Videos/dr._no/voice.mp3").1
  = Return (Some "/app/Videos/dr._no/voice.srt").
Proof.
  destruct (generate_subtitles_sibling world_ok "key"
              "/app/Videos/dr._no/voice" 0) as (srt & _ & Hr & _).
  - vm_compute. reflexivity.
  - vm_compute. reflexivity.
  - exact Hr.
Defined.

(** * The order of the pipeline *)

Lemma bind_emit_return {A} (e : event) (k : unit -> M A) (a : A)
    (t : list event) :
  bind (emit e) k = (Return a, t) ->
  exists t', k tt = (Return a, t') /\ t = e :: t'.
Proof.
  rewrite bind_emit. destruct (k tt) as [r t']. simpl.
  intros H. injection H as -> <-. now exists t'.
Qed.

Lemma call_return (w : world) (c : lib_call) (u : unit) (t : list event) :
  call w c = (Return u, t) -> t = [ECall c] /\ w_lib w c = None.
Proof.
  unfold call. rewrite bind_emit. destruct (w_lib w c); simpl; [discriminate|].
  intros H. injection H as <-. auto.
Qed.

Lemma calls_of_app (t1 t2 : list event) :
  calls_of (t1 ++ t2) = calls_of t1 ++ calls_of t2.
Proof.
  induction t1 as [|e t1 IH]; [reflexivity|].
  destruct e; simpl; now rewrite IH.
Qed.

Lemma calls_of_none {A} (m : M A) : all_events not_call m -> calls_of m.2 = [].
Proof.
  unfold all_events. destruct m as [r t]. simpl.
  induction t as [|e t IH]; [reflexivity|]. simpl.
  intros H. apply andb_prop in H as [He Ht]. destruct e; try discriminate;
    now apply IH.
Qed.

Lemma summary_loop_no_call w book_title api_key max_retries delay fuel :
  forall attempts k,
    all_events not_call
      (summary_loop w book_title api_key max_retries delay fuel attempts k).
Proof.
  induction fuel as [|fuel IH]; intros attempts k; cbn [summary_loop];
    destruct (attempts <? max_retries)%Z; repeat events_step.
  cbv zeta.
  destruct (w_post w k) as [|status_code json]; repeat events_step; [apply IH|].
  destruct (status_code =? 200)%Z; [destruct json|]; repeat events_step;
    apply IH.
Qed.

Lemma speech_loop_no_call w text path voice max_retries delay fuel :
  forall attempts k,
    all_events not_call
      (speech_loop w text path voice max_retries delay fuel attempts k).
Proof.
  induction fuel as [|fuel IH]; intros attempts k; cbn [speech_loop];
    destruct (attempts <? max_retries)%Z; repeat events_step.
  destruct (w_speech w k); repeat events_step. apply IH.
Qed.

Lemma text_to_speech_no_call w text book_title api_key :
  all_events not_call (text_to_speech w text book_title api_key).
Proof.
  unfold text_to_speech. cbv zeta. repeat events_step.
  destruct (w_mkdir w); repeat events_step. apply speech_loop_no_call.
Qed.

Lemma thumbnail_loop_no_call w book_title max_retries delay fuel :
  forall attempts k,
    all_events not_call
      (thumbnail_loop w book_title max_retries delay fuel attempts k).
Proof.
  induction fuel as [|fuel IH]; intros attempts k; cbn [thumbnail_loop];
    destruct (attempts <? max_retries)%Z; repeat events_step.
  cbv zeta. destruct (w_image w k); repeat events_step. apply IH.
Qed.

Lemma subtitles_loop_no_call w audio max_retries delay fuel :
  forall attempts k,
    all_events not_call
      (subtitles_loop w audio max_retries delay fuel attempts k).
Proof.
  induction fuel as [|fuel IH]; intros attempts k; cbn [subtitles_loop];
    destruct (attempts <? max_retries)%Z; repeat events_step.
  cbv zeta. destruct (w_transcribe w k) as [srt|e]; repeat events_step.
  - destruct (w_write_error w _); repeat events_step. apply IH.
  - apply IH.
Qed.

Lemma parse_subtitles_return (w : world) (srt_path : string)
    (subtitles : list SubRipItem) (t : list event) :
  parse_subtitles w srt_path = (Return subtitles, t) ->
  (w_lib w (PysrtOpen srt_path) = None
   /\ subtitles = w_pysrt_open w srt_path
   /\ calls_of t = [PysrtOpen srt_path])
  \/ (w_lib w (PysrtOpen srt_path) = Some UnicodeDecodeError
      /\ w_lib w (OpenText srt_path "windows-1252" "ignore") = None
      /\ subtitles
         = w_from_string w (w_read_text w srt_path "windows-1252" "ignore")
      /\ calls_of t = [PysrtOpen srt_path;
                       OpenText srt_path "windows-1252" "ignore"]).
Proof.
  unfold parse_subtitles, open_srt_with_encoding, call. rewrite bind_emit.
  destruct (w_lib w (PysrtOpen srt_path)) as [[]|] eqn:Hopen;
    try (simpl; discriminate).
  - rewrite !bind_emit.
    destruct (w_lib w (OpenText srt_path "windows-1252" "ignore")) eqn:Hread;
      simpl; [discriminate|].
    intros H. injection H as <- <-. right. auto.
  - simpl. intros H. injection H as <- <-. left. auto.
Qed.

Lemma create_subtitle_clips_length (subtitles : list SubRipItem) (size : Z * Z)
    (clips : list TextClip) (t : list event) :
  create_subtitle_clips subtitles size = (Return clips, t) ->
  length clips = length subtitles /\ t = [].
Proof.
  intros H. pose proof (create_subtitle_clips_silent subtitles size) as Hs.
  rewrite H in Hs. split; [|exact Hs].
  destruct size as [video_width video_height]. unfold create_subtitle_clips in H.
  apply (f_equal fst) in H.
  apply subtitle_clips_loop_return in H as (made & -> & Hall).
  symmetry. exact (Forall2_length _ _ _ Hall).
Qed.

(** A pipeline that returned, taken apart step by step. *)
Lemma pipeline_return_inv (w : world) (api_key book_title : string)
    (t : list event) :
  pipeline w api_key book_title = (Return tt, t) ->
  let slug := safe_book_title book_title in
  let dir := directory_path w slug in
  let audio := Path.str dir +:+ "/voice.mp3" in
  let image := Path.str dir +:+ "/image.png" in
  let video :=
    Path.str (Path.joinpath dir ("Book_Summary_" +:+ slug +:+ ".mp4")) in
  let subbed :=
    Path.str (Path.joinpath dir ("Book_Summary_" +:+ slug +:+ "_subbed.mp4")) in
  exists summary srt_path subtitles t1 t3 t4 t5 t9,
    let upload :=
      UploadVideoToYoutube subbed ("Book Summary: " +:+ book_title)
        (video_description (summary +:+ outro)) "22" "public" in
    generate_book_summary w book_title api_key = (Return (PStr summary), t1)
    /\ generate_subtitles w api_key audio = (Return srt_path, t5)
    /\ parse_subtitles w (str_of_path srt_path) = (Return subtitles, t9)
    /\ calls_of t1 = [] /\ calls_of t3 = [] /\ calls_of t4 = []
    /\ calls_of t5 = []
    /\ w_lib w (AudioFileClip audio) = None
    /\ w_lib w (CreateVideoFromImageAndAudio image audio video) = None
    /\ w_lib w (VideoFileClip video) = None
    /\ w_lib w (WriteVideofile subbed (1 + length subtitles)) = None
    /\ w_lib w upload = None
    /\ t = t1 ++ EPrint summary :: t3 ++ t4 ++ t5
           ++ [ECall (AudioFileClip audio)]
           ++ [ECall (CreateVideoFromImageAndAudio image audio video)]
           ++ [ECall (VideoFileClip video)] ++ t9
           ++ [ECall (WriteVideofile subbed (1 + length subtitles))]
           ++ [ECall upload].
Proof.
  unfold pipeline. cbv zeta.
  rewrite !(directory_file w _ "voice.mp3"), !(directory_file w _ "image.png")
    by reflexivity.
  intros H.
  apply bind_return in H as (v & t1 & t1' & Hsum & H & ->).
  apply bind_emit_return in H as (t2 & H & ->).
  destruct v as [summary|a b]; [|discriminate H].
  cbn [py_iadd] in H. rewrite bind_ret_l in H.
  apply bind_return in H as ([] & t3 & t3' & Hspeech & H & ->).
  apply bind_return in H as ([] & t4 & t4' & Hthumb & H & ->).
  apply bind_return in H as (srt_path & t5 & t5' & Hsrt & H & ->).
  apply bind_return in H as ([] & t6 & t6' & Haudio & H & ->).
  apply bind_return in H as ([] & t7 & t7' & Hcreate & H & ->).
  apply bind_return in H as ([] & t8 & t8' & Hvideo & H & ->).
  apply bind_return in H as (subtitles & t9 & t9' & Hparse & H & ->).
  apply bind_return in H as (clips & tc & tc' & Hclips & H & ->).
  apply bind_return in H as ([] & t10 & t11 & Hwrite & Hupload & ->).
  apply create_subtitle_clips_length in Hclips as [Hlen ->].
  rewrite Hlen in *.
  apply call_return in Haudio as [-> Haudio].
  apply call_return in Hcreate as [-> Hcreate].
  apply call_return in Hvideo as [-> Hvideo].
  apply call_return in Hwrite as [-> Hwrite].
  apply call_return in Hupload as [-> Hupload].
  exists summary, srt_path, subtitles, t1, t3, t4, t5, t9. cbv zeta.
  split; [exact Hsum|]. split; [exact Hsrt|]. split; [exact Hparse|].
  split.
  { change t1 with (Return (PStr summary), t1).2. rewrite <- Hsum.
    apply calls_of_none, summary_loop_no_call. }
  split.
  { change t3 with (Return tt, t3).2. rewrite <- Hspeech.
    apply calls_of_none, text_to_speech_no_call. }
  split.
  { change t4 with (Return tt, t4).2. rewrite <- Hthumb.
    apply calls_of_none, thumbnail_loop_no_call. }
  split.
  { change t5 with (Return srt_path, t5).2. rewrite <- Hsrt.
    apply calls_of_none, subtitles_loop_no_call. }
  auto 10.
Qed.

(** X5. A pipeline that completes has obtained a summary string, and its
    library calls are, in this order: open the audio voice.mp3 of the
    title's directory, build the video from image.png and that audio, reopen
    it, parse the subtitles at [str(srt_path)] (with the windows-1252
    re-read after a decoding error), render the video with one layer per
    cue, upload it with the title "Book Summary: <title>", the description
    taken from the summary, category 22 and public visibility.  Every one of
    them returned, apart from the first parse when the re-read was used, and
    the upload is the last thing that happened. *)
Theorem pipeline_order (w : world) (api_key book_title : string)
    (t : list event) :
  pipeline w api_key book_title = (Return tt, t) ->
  let slug := safe_book_title book_title in
  let dir := directory_path w slug in
  let audio := Path.str dir +:+ "/voice.mp3" in
  let image := Path.str dir +:+ "/image.png" in
  let video :=
    Path.str (Path.joinpath dir ("Book_Summary_" +:+ slug +:+ ".mp4")) in
  let subbed :=
    Path.str (Path.joinpath dir ("Book_Summary_" +:+ slug +:+ "_subbed.mp4")) in
  exists summary srt_path subtitles,
    (generate_book_summary w book_title api_key).1 = Return (PStr summary)
    /\ (generate_subtitles w api_key audio).1 = Return srt_path
    /\ let srt := str_of_path srt_path in
       let reread := OpenText srt "windows-1252" "ignore" in
       let upload :=
         UploadVideoToYoutube subbed ("Book Summary: " +:+ book_title)
           (video_description (summary +:+ outro)) "22" "public" in
       calls_of t
       = [AudioFileClip audio;
          CreateVideoFromImageAndAudio image audio video;
          VideoFileClip video; PysrtOpen srt]
         ++ match w_lib w (PysrtOpen srt) with
            | Some _ => [reread]
            | None => []
            end
         ++ [WriteVideofile subbed (1 + length subtitles); upload]
       /\ subtitles
          = match w_lib w (PysrtOpen srt) with
            | Some _ => w_from_string w (w_read_text w srt "windows-1252" "ignore")
            | None => w_pysrt_open w srt
            end
       /\ last t = Some (ECall upload)
       /\ forall c, c ∈ calls_of t -> c <> PysrtOpen srt -> w_lib w c = None.
Proof.
  intros H. cbv zeta.
  destruct (pipeline_return_inv w api_key book_title t H)
    as (summary & srt_path & subtitles & t1 & t3 & t4 & t5 & t9 & Hsum & Hsrt
        & Hparse & H1 & H3 & H4 & H5 & Haudio & Hcreate & Hvideo & Hwrite
        & Hupload & ->).
  exists summary, srt_path, subtitles.
  split; [exact (f_equal fst Hsum)|]. split; [exact (f_equal fst Hsrt)|].
  match goal with
  | |- context [last ?tr = Some ?x] =>
      assert (Hlast : last tr = Some x)
        by (rewrite !app_comm_cons, !app_assoc; apply last_snoc)
  end.
  rewrite calls_of_app, H1. cbn [app calls_of].
  rewrite !calls_of_app, H3, H4, H5. cbn [app calls_of].
  rewrite ?calls_of_app. cbn [app calls_of].
  split; [|split; [|split]].
  - apply parse_subtitles_return in Hparse
      as [(Hopen & _ & ->)|(Hopen & _ & _ & ->)]; rewrite Hopen; reflexivity.
  - apply parse_subtitles_return in Hparse
      as [(Hopen & -> & _)|(Hopen & _ & -> & _)]; now rewrite Hopen.
  - exact Hlast.
  - intros c Hc Hne.
    apply parse_subtitles_return in Hparse
      as [(Hopen & _ & Hc9)|(Hopen & Hread & _ & Hc9)]; rewrite Hc9 in Hc;
      cbn [app] in Hc; trace_cases Hc; subst c; auto; congruence.
Qed.

Lemma pipeline_order_witness :
  exists summary,
    last (pipeline world_ok "key" "Emma").2
    = Some (ECall (UploadVideoToYoutube
                     "/app/Videos/emma/Book_Summary_emma_subbed.mp4"
                     "Book Summary: Emma"
                     (video_description (summary +:+ outro)) "22" "public")).
Proof.
  destruct (pipeline_order world_ok "key" "Emma"
              (pipeline world_ok "key" "Emma").2)
    as (summary & srt_path & subtitles & _ & _ & _ & _ & Hlast & _).
  - vm_compute. reflexivity.
  - exists summary. exact Hlast.
Defined.

(** * What the pipeline does not look at *)

Lemma text_to_speech_returns (w : world) (text book_title api_key : string) :
  (text_to_speech w text book_title api_key).1 = Return tt.
Proof.
  unfold text_to_speech. cbv zeta. rewrite bind_emit. cbn [fst].
  destruct (w_mkdir w); [reflexivity|].
  exact (proj1 (speech_loop_spec w text _ _ 3 2 3 two_seconds 0%Z 0%nat
                  eq_refl)).
Qed.

Lemma generate_book_thumbnail_returns (w : world) (book_title api_key : string) :
  (generate_book_thumbnail w book_title api_key).1 = Return tt.
Proof.
  assert (Hfuel : 3%nat = Z.to_nat (3 - 0)) by reflexivity.
  now destruct (thumbnail_loop_spec w book_title 3 2 3 two_seconds 0%Z 0%nat Hfuel)
    as (Hr & _).
Qed.

Lemma bind_fst_congr {A B} (m m' : M A) (k k' : A -> M B) :
  m.1 = m'.1 -> (forall a, (k a).1 = (k' a).1) ->
  (bind m k).1 = (bind m' k').1.
Proof.
  destruct m as [r t], m' as [r' t']. simpl. intros <- Hk.
  destruct r as [a| |]; [|reflexivity..].
  specialize (Hk a). now destruct (k a), (k' a).
Qed.

Section SameOutside.
Variables w w' : world.
Hypothesis Hpost : w_post w = w_post w'.
Hypothesis Htranscribe : w_transcribe w = w_transcribe w'.
Hypothesis Hwrite : w_write_error w = w_write_error w'.
Hypothesis Hlib : w_lib w = w_lib w'.
Hypothesis Hsize : w_video_size w = w_video_size w'.
Hypothesis Hopen : w_pysrt_open w = w_pysrt_open w'.
Hypothesis Hread : w_read_text w = w_read_text w'.
Hypothesis Hfrom : w_from_string w = w_from_string w'.
Hypothesis Hparent : w_parent w = w_parent w'.

Lemma summary_loop_same book_title api_key max_retries delay fuel :
  forall attempts k,
    summary_loop w book_title api_key max_retries delay fuel attempts k
    = summary_loop w' book_title api_key max_retries delay fuel attempts k.
Proof.
  induction fuel as [|fuel IH]; intros attempts k; cbn [summary_loop];
    [reflexivity|].
  rewrite Hpost. destruct (attempts <? max_retries)%Z; [|reflexivity].
  now rewrite !IH.
Qed.

Lemma subtitles_loop_same audio max_retries delay fuel :
  forall attempts k,
    subtitles_loop w audio max_retries delay fuel attempts k
    = subtitles_loop w' audio max_retries delay fuel attempts k.
Proof.
  induction fuel as [|fuel IH]; intros attempts k; cbn [subtitles_loop];
    [reflexivity|].
  rewrite Htranscribe, Hwrite. destruct (attempts <? max_retries)%Z;
    [|reflexivity].
  now rewrite !IH.
Qed.

Lemma call_same (c : lib_call) : call w c = call w' c.
Proof. unfold call. now rewrite Hlib. Qed.

Lemma parse_subtitles_same (p : string) :
  parse_subtitles w p = parse_subtitles w' p.
Proof.
  unfold parse_subtitles, open_srt_with_encoding.
  now rewrite Hlib, Hopen, Hread, Hfrom, !call_same.
Qed.

(** The result of the pipeline is the same in two worlds that differ only
    in what the directory, speech and image steps meet. *)
Lemma pipeline_same_result (api_key book_title : string) :
  (pipeline w api_key book_title).1 = (pipeline w' api_key book_title).1.
Proof.
  unfold pipeline, generate_book_summary, generate_book_summary_with,
    generate_subtitles, generate_subtitles_with, directory_path. cbv zeta.
  rewrite summary_loop_same, Hparent, Hsize.
  apply bind_fst_congr; [reflexivity|intros v].
  apply bind_fst_congr; [reflexivity|intros _].
  apply bind_fst_congr; [reflexivity|intros full_summary].
  apply bind_fst_congr; [now rewrite !text_to_speech_returns|intros _].
  apply bind_fst_congr; [now rewrite !generate_book_thumbnail_returns|intros _].
  rewrite subtitles_loop_same.
  apply bind_fst_congr; [reflexivity|intros srt_path].
  rewrite !call_same, parse_subtitles_same.
  repeat (apply bind_fst_congr; [reflexivity|intros ?]).
  now rewrite call_same.
Qed.
End SameOutside.

Lemma file_after_fst (file : string) (m m' : M string) :
  m.1 = m'.1 -> file_after file m = file_after file m'.
Proof. destruct m as [r t], m' as [r' t']. simpl. now intros <-. Qed.

(** X6. process_books never looks at what text_to_speech and
    generate_book_thumbnail achieved: in two worlds that differ only in the
    outcome of the directory creation, of the voice choice and of the speech
    and image requests, it returns or raises alike and leaves the same
    work-list. *)
Theorem process_books_ignores_speech_and_image
    (w w' : world) (api_key file : string) :
  w_post w = w_post w' ->
  w_transcribe w = w_transcribe w' ->
  w_write_error w = w_write_error w' ->
  w_lib w = w_lib w' ->
  w_video_size w = w_video_size w' ->
  w_pysrt_open w = w_pysrt_open w' ->
  w_read_text w = w_read_text w' ->
  w_from_string w = w_from_string w' ->
  w_parent w = w_parent w' ->
  w_youtube_token w = w_youtube_token w' ->
  w_refresh w = w_refresh w' ->
  w_login w = w_login w' ->
  (process_books w api_key file).1 = (process_books w' api_key file).1
  /\ file_after file (process_books w api_key file)
     = file_after file (process_books w' api_key file).
Proof.
  intros Hpost Htranscribe Hwrite Hlib Hsize Hopen Hread Hfrom Hparent
    Htoken Hrefresh Hlogin.
  assert (Hres : (process_books w api_key file).1
                 = (process_books w' api_key file).1).
  { rewrite !process_books_unfold.
    assert (Hauth : service_youtube w = service_youtube w').
    { unfold service_youtube, interactive_login, attempt.
      now rewrite Htoken, Hrefresh, Hlogin, Hlib. }
    rewrite Hauth.
    apply bind_fst_congr; [reflexivity|intros _].
    apply bind_fst_congr; [|reflexivity].
    destruct (find_title 0 (Str.readlines file) ∅) as [[j T]|]; [|reflexivity].
    apply bind_fst_congr; [|reflexivity].
    unfold process_title. rewrite !bind_emit. cbn [fst].
    now apply pipeline_same_result. }
  split; [exact Hres|]. now apply file_after_fst.
Qed.

Lemma process_books_ignores_speech_and_image_witness :
  Str.readlines
    (file_after sample_worklist (process_books world_mute "key" sample_worklist))
  = ["PROCESSED: Dune" +:+ nl; " Dune " +:+ nl; "PROCESSED: Emma" +:+ nl;
     "Ulysses"].
Proof.
  rewrite (proj2 (process_books_ignores_speech_and_image world_mute world_ok
                    "key" sample_worklist eq_refl eq_refl eq_refl eq_refl
                    eq_refl eq_refl eq_refl eq_refl eq_refl eq_refl eq_refl
                    eq_refl)).
  vm_compute. reflexivity.
Defined.

(** * A pipeline without subtitles *)

Lemma bind_split {A B} (m : M A) (k : A -> M B) (a : A) :
  m.1 = Return a -> bind m k = ((k a).1, m.2 ++ (k a).2).
Proof. destruct m as [r t]. simpl. intros ->. now destruct (k a). Qed.

Lemma call_ok (w : world) (c : lib_call) :
  w_lib w c = None -> call w c = (Return tt, [ECall c]).
Proof. intros H. unfold call. rewrite bind_emit, H. reflexivity. Qed.

(** X7. When every transcription attempt fails, generate_subtitles returns
    None and process_books goes on: with a summary obtained and the audio and
    video calls returning, it asks pysrt to open the file named "None", and
    an error of that call other than a decoding error ends the pipeline
    there. *)
Theorem pipeline_opens_none_without_subtitles
    (w : world) (api_key book_title summary : string) (e : exn) :
  let slug := safe_book_title book_title in
  let dir := directory_path w slug in
  let audio := Path.str dir +:+ "/voice.mp3" in
  let video :=
    Path.str (Path.joinpath dir ("Book_Summary_" +:+ slug +:+ ".mp4")) in
  (generate_book_summary w book_title api_key).1 = Return (PStr summary) ->
  first_success (subtitles_ok w audio) 0 3 = None ->
  w_lib w (AudioFileClip audio) = None ->
  w_lib w (CreateVideoFromImageAndAudio (Path.str dir +:+ "/image.png") audio
             video)
  = None ->
  w_lib w (VideoFileClip video) = None ->
  w_lib w (PysrtOpen "None") = Some e ->
  e <> UnicodeDecodeError ->
  (pipeline w api_key book_title).1 = Raise e
  /\ last (pipeline w api_key book_title).2 = Some (ECall (PysrtOpen "None")).
Proof.
  cbv zeta. intros Hsum Hnone Haudio Hcreate Hvideo Hopen Hne.
  assert (Hsrt : (generate_subtitles w api_key
                    (Path.str (directory_path w (safe_book_title book_title))
                     +:+ "/voice.mp3")).1 = Return None).
  { assert (Hfuel : 3%nat = Z.to_nat (3 - 0)) by reflexivity.
    destruct (subtitles_loop_contract w
                (Path.str (directory_path w (safe_book_title book_title))
                 +:+ "/voice.mp3") 3 2 3 two_seconds 0%Z 0%nat Hfuel)
      as (_ & _ & Hc).
    rewrite Hnone in Hc. now destruct Hc as (Hr & _). }
  assert (Hparse : parse_subtitles w "None"
                   = (Raise e, [ECall (PysrtOpen "None")])).
  { unfold parse_subtitles. rewrite bind_emit, Hopen.
    destruct e; try reflexivity. congruence. }
  unfold pipeline. cbv zeta.
  rewrite !(directory_file w _ "voice.mp3"), !(directory_file w _ "image.png")
    by reflexivity.
  rewrite (bind_split _ _ _ Hsum), bind_emit. cbn [py_iadd fst snd].
  rewrite bind_ret_l.
  rewrite (bind_split _ _ _ (text_to_speech_returns _ _ _ _)). cbn [fst snd].
  rewrite (bind_split _ _ _ (generate_book_thumbnail_returns _ _ _)).
  cbn [fst snd].
  rewrite (bind_split _ _ _ Hsrt). cbn [fst snd str_of_path].
  rewrite (call_ok _ _ Haudio), (call_ok _ _ Hcreate), (call_ok _ _ Hvideo).
  rewrite Hparse. cbn [bind fst snd].
  split; [reflexivity|].
  rewrite !app_comm_cons, !app_assoc. apply last_snoc.
Qed.

Lemma pipeline_opens_none_without_subtitles_witness :
  (process_books world_deaf "key" sample_worklist).1
  = Raise (LibraryError "FileNotFoundError")
  /\ last (pipeline world_deaf "key" "Emma").2 = Some (ECall (PysrtOpen "None")).
Proof.
  destruct (pipeline_opens_none_without_subtitles world_deaf "key" "Emma"
              "A fine book." (LibraryError "FileNotFoundError"))
    as [Hr Hl]; try (vm_compute; reflexivity); [discriminate|].
  split; [vm_compute; reflexivity|exact Hl].
Defined.

(** * Stripped titles and the marker *)

Lemma rstrip_cons (c : ascii) (s : string) :
  Str.rstrip (String c s) =
  match Str.rstrip s with
  | EmptyString => if Str.isspace c then EmptyString else String c EmptyString
  | r => String c r
  end.
Proof. reflexivity. Qed.

Lemma rstrip_idempotent (s : string) : Str.rstrip (Str.rstrip s) = Str.rstrip s.
Proof.
  induction s as [|c s IH]; [reflexivity|].
  rewrite rstrip_cons. destruct (Str.rstrip s) as [|d r] eqn:E.
  - destruct (Str.isspace c) eqn:Hc; [reflexivity|].
    rewrite rstrip_cons. cbn [Str.rstrip]. now rewrite Hc.
  - rewrite rstrip_cons, IH. reflexivity.
Qed.

Lemma rstrip_snoc_space (s : string) (c : ascii) :
  Str.isspace c = true ->
  Str.rstrip (s +:+ String c EmptyString) = Str.rstrip s.
Proof.
  intros Hc. induction s as [|a s IH].
  - change (Str.rstrip (String c EmptyString) = EmptyString).
    rewrite rstrip_cons. cbn [Str.rstrip]. now rewrite Hc.
  - change (String a s +:+ String c EmptyString)
      with (String a (s +:+ String c EmptyString)).
    now rewrite !rstrip_cons, IH.
Qed.

Lemma rstrip_append_kept (a s : string) :
  Str.rstrip s = s -> s <> EmptyString -> Str.rstrip (a +:+ s) = a +:+ s.
Proof.
  intros Hs Hne. induction a as [|c a IH]; [exact Hs|].
  change (String c a +:+ s) with (String c (a +:+ s)).
  rewrite rstrip_cons, IH.
  destruct (a +:+ s) eqn:E; [|reflexivity].
  destruct a; [change (s = EmptyString) in E; congruence|discriminate].
Qed.

Lemma lstrip_head (s : string) :
  Str.lstrip s = EmptyString
  \/ exists c r, Str.lstrip s = String c r /\ Str.isspace c = false.
Proof.
  induction s as [|c s IH]; [now left|].
  simpl. destruct (Str.isspace c) eqn:Hc; [exact IH|]. right. eauto.
Qed.

Lemma lstrip_rstrip (s : string) :
  Str.lstrip (Str.rstrip (Str.lstrip s)) = Str.rstrip (Str.lstrip s).
Proof.
  destruct (lstrip_head s) as [->|(c & r & -> & Hc)]; [reflexivity|].
  rewrite rstrip_cons. destruct (Str.rstrip r).
  - rewrite Hc. simpl. now rewrite Hc.
  - simpl. now rewrite Hc.
Qed.

Lemma strip_stripped (l : string) :
  Str.lstrip (Str.strip l) = Str.strip l
  /\ Str.rstrip (Str.strip l) = Str.strip l.
Proof.
  unfold Str.strip. split; [apply lstrip_rstrip|apply rstrip_idempotent].
Qed.

Lemma lstrip_nonspace (c : ascii) (s : string) :
  Str.isspace c = false -> Str.lstrip (String c s) = String c s.
Proof. intros H. simpl. now rewrite H. Qed.

Lemma startswith_append (p s : string) : Str.startswith p (p +:+ s) = true.
Proof.
  induction p as [|a p IH]; [reflexivity|].
  change (String a p +:+ s) with (String a (p +:+ s)).
  cbn [Str.startswith]. now rewrite Ascii.eqb_refl.
Qed.

Lemma replace_from_skip (old new p rest : string) :
  Str.replace_from old new (String.length p) (p +:+ rest)
  = Str.replace_from old new 0 rest.
Proof.
  induction p as [|a p IH]; [reflexivity|].
  change (String a p +:+ rest) with (String a (p +:+ rest)).
  destruct p; exact IH.
Qed.

(** A match at the start is replaced, and the scan resumes after it. *)
Lemma replace_prefix (old new rest : string) :
  old <> EmptyString ->
  Str.replace old new (old +:+ rest) = new +:+ Str.replace old new rest.
Proof.
  destruct old as [|a old]; [congruence|]. intros _. unfold Str.replace.
  change (String a old +:+ rest) with (String a (old +:+ rest)).
  cbn [Str.replace_from].
  change (String a (old +:+ rest)) with (String a old +:+ rest).
  rewrite startswith_append.
  change (String.length (String a old) - 1)%nat with (String.length old - 0)%nat.
  rewrite Nat.sub_0_r. now rewrite replace_from_skip.
Qed.

(** The title read back from a marked line is the title that was marked,
    when the title does not hold the marker text itself. *)
Lemma marked_title_processed_line (l : string) :
  occurs "PROCESSED:" (Str.strip l) = false ->
  marked_title (processed_line (Str.strip l)) = Str.strip l.
Proof.
  destruct (strip_stripped l) as [Hl Hr].
  set (T := Str.strip l) in *. intros Hocc.
  unfold marked_title, processed_line.
  assert (Hstrip : Str.strip ("PROCESSED: " +:+ T +:+ String Str.newline EmptyString)
                   = if String.eqb T EmptyString then "PROCESSED:"
                     else "PROCESSED: " +:+ T).
  { unfold Str.strip.
    change ("PROCESSED: " +:+ T +:+ String Str.newline EmptyString)
      with (String "P" ("ROCESSED: " +:+ T +:+ String Str.newline EmptyString)).
    rewrite lstrip_nonspace by reflexivity.
    change (String "P" ("ROCESSED: " +:+ T +:+ String Str.newline EmptyString))
      with ("PROCESSED: " +:+ (T +:+ String Str.newline EmptyString)).
    rewrite <- append_assoc_string.
    rewrite rstrip_snoc_space by reflexivity.
    destruct T as [|c T'] eqn:ET; [reflexivity|].
    rewrite rstrip_append_kept; [reflexivity|exact Hr|discriminate]. }
  rewrite Hstrip. destruct T as [|c T'] eqn:ET; [reflexivity|].
  cbn [String.eqb].
  assert (Hrep : Str.replace "PROCESSED:" EmptyString ("PROCESSED: " +:+ String c T')
                 = String " " (String c T')).
  { change ("PROCESSED: " +:+ String c T')
      with ("PROCESSED:" +:+ String " " (String c T')).
    rewrite replace_prefix by discriminate.
    change (EmptyString +:+ ?x) with x.
    apply replace_from_absent. cbn [occurs]. apply orb_false_iff. split;
      [reflexivity|exact Hocc]. }
  rewrite Hrep. unfold Str.strip.
  change (Str.lstrip (String " " (String c T'))) with (Str.lstrip (String c T')).
  now rewrite Hl, Hr.
Qed.

(** * A title is processed once *)

(** Whether a line is passed over depends on the lines before it only. *)
Lemma skipped_prefix (lines lines' : list string) (j : nat) (l : string) :
  (forall j', (j' < j)%nat -> lines' !! j' = lines !! j') ->
  skipped lines j l -> skipped lines' j l.
Proof.
  intros Hsame [H|(j' & l' & Hj' & Hl' & H)]; [now left|right].
  exists j', l'. split; [exact Hj'|]. split; [|exact H].
  now rewrite Hsame.
Qed.

Lemma title_done_not_first (lines : list string) (T : string) (j : nat) :
  title_done lines T -> ~ first_unprocessed lines j T.
Proof.
  intros (m & l & Hm & Hmarked & Htitle & Hbefore) Hfirst.
  destruct (lt_eq_lt_dec j m) as [[Hlt|Heq]|Hgt].
  - destruct Hfirst as ((lj & Hj & Hrest) & Hf).
    eapply (first_unprocessed_not_skipped lines j T lj); eauto.
    split; eauto.
  - subst j. destruct Hfirst as ((lj & Hj & Hu & _) & _). congruence.
  - destruct Hfirst as (_ & Hnot & _). apply Hnot.
    exists m, l. auto.
Qed.

Lemma title_done_kept (w : world) (api_key file : string) (T : string) :
  title_done (Str.readlines file) T ->
  title_done (Str.readlines (file_after file (process_books w api_key file))) T.
Proof.
  intros Hdone.
  destruct (process_books_lines w api_key file)
    as [->|(k & lk & Hfirst & Hk & Hu & ->)]; [exact Hdone|].
  destruct Hdone as (m & l & Hm & Hmarked & Htitle & Hbefore).
  assert (Hlt : (m < k)%nat).
  { destruct (lt_eq_lt_dec k m) as [[Hlt|Heq]|Hgt]; [| |exact Hgt].
    - exfalso.
      eapply (first_unprocessed_not_skipped _ k _ lk); eauto.
    - subst k. congruence. }
  exists m, l. split; [|split; [exact Hmarked|split; [exact Htitle|]]].
  - rewrite list_lookup_insert_ne by lia. exact Hm.
  - intros j l' Hj Hl'. rewrite list_lookup_insert_ne in Hl' by lia.
    apply (skipped_prefix (Str.readlines file)); [|now apply Hbefore].
    intros j' Hj'. apply list_lookup_insert_ne. lia.
Qed.

Lemma title_done_never_started (api_key : string) (T : string)
    (ws : list world) :
  forall file, title_done (Str.readlines file) T ->
               forall j, EProcessing j T ∉ (invocations api_key ws file).2.
Proof.
  induction ws as [|w ws IH]; intros file Hdone j; cbn [invocations].
  - simpl. apply not_elem_of_nil.
  - pose proof (title_done_kept w api_key file T Hdone) as Hnext.
    specialize (IH _ Hnext j).
    destruct (invocations api_key ws _) as [file' t]. simpl in *.
    intros Hin. apply elem_of_app in Hin as [Hin|Hin]; [|exact (IH Hin)].
    apply process_books_processing in Hin.
    exact (title_done_not_first _ _ _ Hdone Hin).
Qed.

(** X8. Once an invocation has completed the pipeline for [T], the first
    unprocessed title, and [T] does not hold the text "PROCESSED:", no later
    invocation starts a pipeline for [T] again, at any line, however often
    the work-list repeats the title. *)
Theorem title_processed_once
    (w : world) (api_key file : string) (i : nat) (T : string)
    (youtube_service : Service) (t_auth t_pipeline : list event)
    (ws : list world) :
  first_unprocessed (Str.readlines file) i T ->
  occurs "PROCESSED:" T = false ->
  service_youtube w = (Return youtube_service, t_auth) ->
  process_title w api_key i T = (Return tt, t_pipeline) ->
  forall j,
    EProcessing j T
    ∉ (invocations api_key ws
         (file_after file (process_books w api_key file))).2.
Proof.
  intros Hfirst Hocc Hauth Hpipe.
  apply title_done_never_started.
  pose proof Hfirst as Hfind. apply find_title_first in Hfind.
  destruct Hfirst as ((line & Hl & Hu & ->) & Hnot & Hbefore).
  assert (Hrun : process_books w api_key file =
                 (Return (Str.writelines
                            (<[i := processed_line (Str.strip line)]>
                               (Str.readlines file))),
                  t_auth ++ t_pipeline)).
  { rewrite process_books_unfold, Hauth, Hfind, Hpipe. unfold bind, ret.
    now rewrite !app_nil_r. }
  rewrite Hrun. cbn [file_after]. rewrite (readlines_marked file i line Hl).
  exists i, (processed_line (Str.strip line)).
  split; [|split; [reflexivity|split]].
  - apply list_lookup_insert_eq. now apply lookup_lt_Some in Hl.
  - now apply marked_title_processed_line.
  - intros j l' Hj Hl'. rewrite list_lookup_insert_ne in Hl' by lia.
    apply (skipped_prefix (Str.readlines file)); [|now apply Hbefore].
    intros j' Hj'. apply list_lookup_insert_ne. lia.
Qed.

Lemma title_processed_once_witness :
  EProcessing 2 "Emma"
  ∉ (invocations "key" [world_ok; world_ok]
       (file_after repeated_worklist
          (process_books world_ok "key" repeated_worklist))).2.
Proof.
  apply (title_processed_once world_ok "key" repeated_worklist 0 "Emma"
           {| service_name := "youtube"; service_version := "v3";
              service_credentials := fresh_credentials |}
           (service_youtube world_ok).2
           (process_title world_ok "key" 0 "Emma").2).
  - apply find_title_first. vm_compute. reflexivity.
  - vm_compute. reflexivity.
  - vm_compute. reflexivity.
  - vm_compute. reflexivity.
Defined.

(** * What an invocation can do to the work-list *)

(** X9. Whatever the outside does, one invocation of process_books leaves
    the work-list with the same number of lines, each of them unchanged
    except at most one, an unmarked line, which becomes "PROCESSED: " + its
    stripped title + newline; when process_books does not return, no line
    changes at all. *)
Theorem process_books_changes_at_most_one_line
    (w : world) (api_key file : string) :
  let before := Str.readlines file in
  let after := Str.readlines (file_after file (process_books w api_key file)) in
  length after = length before
  /\ (after = before
      \/ exists i line,
           before !! i = Some line /\ is_marked line = false
           /\ after !! i = Some ("PROCESSED: " +:+ Str.strip line +:+ nl)
           /\ forall j, j <> i -> after !! j = before !! j)
  /\ (count_marked before <= count_marked after <= S (count_marked before))%nat
  /\ ((forall s, (process_books w api_key file).1 <> Return s) ->
      file_after file (process_books w api_key file) = file).
Proof.
  cbv zeta.
  destruct (process_books_lines w api_key file)
    as [Hsame|(i & line & _ & Hl & Hu & Hins)].
  - rewrite Hsame. split; [reflexivity|]. split; [now left|]. split; [lia|].
    intros Hnot. destruct (process_books w api_key file) as [[s| |] t];
      [|reflexivity..]. now destruct (Hnot s).
  - rewrite Hins. split; [apply length_insert|]. split; [|split].
    + right. exists i, line. split; [exact Hl|]. split; [exact Hu|]. split.
      * apply list_lookup_insert_eq. now apply lookup_lt_Some in Hl.
      * intros j Hj. now apply list_lookup_insert_ne.
    + split; [|apply count_marked_insert].
      clear Hins. revert i Hl. generalize (Str.readlines file).
      intros ls. induction ls as [|x ls IH]; intros i Hl; [discriminate|].
      destruct i as [|i]; simpl in *.
      * injection Hl as ->. rewrite Hu. simpl. lia.
      * specialize (IH i Hl). destruct (is_marked x); lia.
    + intros Hnot. destruct (process_books w api_key file) as [[s| |] t];
        [|reflexivity..]. now destruct (Hnot s).
Qed.

(** X10. process_books marks a title only after its upload: when the lines
    of the work-list differ after an invocation, the invocation returned and
    the last thing it did was a call of upload_video_to_youtube, public and
    in category 22, that returned. *)
Theorem process_books_marks_only_after_upload
    (w : world) (api_key file : string) :
  Str.readlines (file_after file (process_books w api_key file))
  <> Str.readlines file ->
  exists written file_path title description,
    (process_books w api_key file).1 = Return written
    /\ last (process_books w api_key file).2
       = Some (ECall (UploadVideoToYoutube file_path title description
                        "22" "public"))
    /\ w_lib w (UploadVideoToYoutube file_path title description "22" "public")
       = None.
Proof.
  rewrite process_books_unfold. intros Hdiff.
  destruct (service_youtube w) as [[svc| |] t0]; [|now destruct Hdiff..].
  destruct (find_title 0 (Str.readlines file) ∅) as [[i T]|].
  2:{ exfalso. apply Hdiff. simpl. now rewrite writelines_readlines. }
  unfold process_title in *. rewrite bind_emit in *.
  destruct (pipeline w api_key T) as [[[]| |] t1] eqn:Hpipe;
    [|now destruct Hdiff..].
  destruct (pipeline_return_inv w api_key T t1 Hpipe)
    as (summary & srt_path & subtitles & t1' & t3 & t4 & t5 & t9 & _ & _ & _
        & _ & _ & _ & _ & _ & _ & _ & _ & Hupload & Ht).
  eexists _, _, _, _. split; [reflexivity|]. split; [|exact Hupload].
  cbn [bind fst snd ret]. rewrite !app_nil_r, Ht.
  rewrite !app_comm_cons, !app_assoc. apply last_snoc.
Qed.

Lemma process_books_marks_only_after_upload_witness :
  exists written file_path title description,
    (process_books world_ok "key" sample_worklist).1 = Return written
    /\ last (process_books world_ok "key" sample_worklist).2
       = Some (ECall (UploadVideoToYoutube file_path title description
                        "22" "public"))
    /\ w_lib world_ok
         (UploadVideoToYoutube file_path title description "22" "public")
       = None.
Proof.
  apply (process_books_marks_only_after_upload world_ok "key" sample_worklist).
  vm_compute. discriminate.
Defined.

(** X11. Marking and reading back agree: for a line whose stripped title
    does not hold the text "PROCESSED:", the line written for it starts with
    the marker, and the title the scan recovers from that line is the
    stripped title again; stripping twice changes nothing. *)
Theorem marker_round_trip (line : string) :
  occurs "PROCESSED:" (Str.strip line) = false ->
  is_marked (processed_line (Str.strip line)) = true
  /\ marked_title (processed_line (Str.strip line)) = Str.strip line
  /\ Str.strip (Str.strip line) = Str.strip line.
Proof.
  intros Hocc. split; [reflexivity|].
  split; [now apply marked_title_processed_line|].
  destruct (strip_stripped line) as [Hl Hr].
  unfold Str.strip at 1. now rewrite Hl, Hr.
Qed.

Lemma marker_round_trip_witness :
  marked_title ("PROCESSED: Brave New World" +:+ nl) = "Brave New World".
Proof.
  exact (proj1 (proj2 (marker_round_trip ("  Brave New World " +:+ nl)
                         eq_refl))).
Defined.

(** * The description of the upload *)

Lemma split_newline_cons (s : string) :
  exists l ls, Str.split_newline s = l :: ls.
Proof.
  induction s as [|c s (l & ls & IH)]; simpl; [eauto|].
  destruct (Ascii.eqb c Str.newline); [eauto|]. rewrite IH. eauto.
Qed.

Lemma join_newline_cons (l : string) (ls : list string) :
  Str.join_newline (l :: ls) =
  match ls with
  | [] => l
  | _ :: _ => l +:+ nl +:+ Str.join_newline ls
  end.
Proof. now destruct ls. Qed.

Lemma join_split_newline (s : string) :
  Str.join_newline (Str.split_newline s) = s.
Proof.
  induction s as [|c s IH]; [reflexivity|].
  cbn [Str.split_newline].
  destruct (split_newline_cons s) as (l & ls & E). rewrite E in *.
  destruct (Ascii.eqb_spec c Str.newline) as [->|Hc].
  - rewrite join_newline_cons, IH. reflexivity.
  - rewrite join_newline_cons. rewrite join_newline_cons in IH.
    destruct ls; rewrite <- IH; reflexivity.
Qed.

Lemma split_newline_pieces (s : string) :
  Forall (fun l => Str.no_newline l = true) (Str.split_newline s).
Proof.
  induction s as [|c s IH]; [repeat constructor|].
  cbn [Str.split_newline].
  destruct (Ascii.eqb c Str.newline) eqn:Hc; [now constructor|].
  destruct (Str.split_newline s) as [|l ls]; [repeat constructor; simpl;
                                              now rewrite Hc|].
  apply Forall_cons in IH as [Hl Hls]. constructor; [|assumption]. simpl.
  now rewrite Hc.
Qed.

Lemma split_newline_single (s : string) :
  Str.no_newline s = true -> Str.split_newline s = [s].
Proof.
  induction s as [|c s IH]; [reflexivity|]. simpl. intros H.
  apply andb_prop in H as [Hc H]. apply negb_true_iff in Hc.
  now rewrite Hc, IH.
Qed.

(** X12. The description sent with the upload is the start of the summary:
    the whole of it when it holds no newline, otherwise its first two lines
    joined by a newline, so that nothing after a second newline is sent.
    Splitting at newlines and joining again gives the summary back. *)
Theorem video_description_spec (full_summary : string) :
  Str.join_newline (Str.split_newline full_summary) = full_summary
  /\ video_description full_summary
     = Str.join_newline (take 2 (Str.split_newline full_summary))
  /\ (exists rest, full_summary = video_description full_summary +:+ rest)
  /\ (Str.no_newline full_summary = true ->
      video_description full_summary = full_summary)
  /\ (Str.no_newline full_summary = false ->
      exists first second,
        Str.no_newline first = true /\ Str.no_newline second = true
        /\ video_description full_summary = first +:+ nl +:+ second).
Proof.
  pose proof (join_split_newline full_summary) as Hjoin.
  pose proof (split_newline_pieces full_summary) as Hpieces.
  unfold video_description. cbv zeta.
  destruct (Str.split_newline full_summary) as [|a [|b rest]] eqn:E.
  - destruct (split_newline_cons full_summary) as (l & ls & E'). congruence.
  - cbn in Hjoin. subst a. cbn [length Nat.leb take].
    split; [reflexivity|]. split; [reflexivity|]. split.
    { exists EmptyString. now rewrite append_empty_r. }
    split; [reflexivity|]. intros Hnl.
    apply Forall_cons in Hpieces as [Ha _]. congruence.
  - cbn [length Nat.leb take]. split; [exact Hjoin|]. split; [reflexivity|].
    apply Forall_cons in Hpieces as [Ha Hrest].
    apply Forall_cons in Hrest as [Hb _].
    rewrite !join_newline_cons in *. split; [|split].
    + destruct rest as [|c rest].
      * exists EmptyString. now rewrite append_empty_r.
      * exists (nl +:+ Str.join_newline (c :: rest)).
        rewrite <- Hjoin. now rewrite !append_assoc_string.
    + intros Hno. apply split_newline_single in Hno. congruence.
    + intros _. exists a, b. auto.
Qed.

(** * Reading and writing the work-list *)

Lemma lines_wf_forall (ls : list string) :
  Str.lines_wf ls -> Forall Str.line_wf ls.
Proof.
  induction ls as [|l ls IH]; intros H; [constructor|].
  destruct H as [Hl Hrest]. constructor; [exact Hl|].
  destruct ls; [constructor|]. apply IH. now destruct Hrest.
Qed.

(** X13. Writing back the lines read from the work-list restores its text;
    every line read is non-empty with a newline at most at its end; and lines
    of that shape, all but the last ending in a newline, are read back as
    they were written. *)
Theorem worklist_round_trip (file : string) :
  Str.writelines (Str.readlines file) = file
  /\ Forall (fun l => l <> EmptyString /\ Str.newline_only_last l = true)
       (Str.readlines file)
  /\ (file <> EmptyString -> Str.readlines file <> [])
  /\ forall lines, Str.lines_wf lines ->
                   Str.readlines (Str.writelines lines) = lines.
Proof.
  split; [apply writelines_readlines|]. split; [|split].
  - apply (lines_wf_forall _ (readlines_wf file)).
  - intros Hne Hnil. apply Hne.
    rewrite <- (writelines_readlines file), Hnil. reflexivity.
  - apply readlines_writelines.
Qed.

(** * The two credential paths, case by case *)

Ltac auth_cases w token :=
  destruct token as [c|] eqn:Htoken;
  [destruct (valid c) eqn:Hvalid;
   [|destruct (expired c) eqn:Hexpired;
     [destruct (truthy (refresh_token c)) eqn:Htruthy;
      [destruct (w_refresh w c) as [refreshed|msg] eqn:Hrefresh|]|]]|].

(** Evaluates the tests on the cached credentials in the goal. *)
Ltac auth_tests :=
  repeat match goal with
         | H : valid ?c = _ |- _ => rewrite H
         | H : expired ?c = _ |- _ => rewrite H
         | H : truthy _ = _ |- _ => rewrite H
         end;
  cbn [negb andb]; eauto.

(** Closes a goal about one case of the credential logic: takes the
    hypotheses apart, identifies the cached credentials, and evaluates the
    tests on them. *)
Ltac auth_solve :=
  intros;
  repeat match goal with
         | H : _ \/ _ |- _ => destruct H
         | H : exists _, _ |- _ => destruct H
         | H : _ /\ _ |- _ => destruct H
         | H : forall c, Some ?x = Some c -> _ |- _ => specialize (H x eq_refl)
         end;
  simplify_eq;
  repeat match goal with
         | H : valid ?c = _ |- _ => rewrite H in *
         | H : expired ?c = _ |- _ => rewrite H in *
         | H : truthy _ = _ |- _ => rewrite H in *
         end;
  cbn [negb andb] in *;
  first [ discriminate | congruence | reflexivity | now left
        | (right; do 2 eexists; split; [reflexivity|]; auth_tests; fail)
        | (right; eexists; split; [reflexivity|]; auth_tests; fail)
        | (do 2 eexists; split; [reflexivity|]; auth_tests; fail)
        | (eexists; split; [reflexivity|]; auth_tests; fail)
        | (eexists; reflexivity)
        | auto ].

(** Splits on the outcome of every library step of the goal. *)
Ltac step_cases w :=
  repeat match goal with
         | |- context [w_lib w ?c] =>
             let H := fresh "Hstep" in destruct (w_lib w c) eqn:H
         end.

(** Names the step whose exception a credential path has raised. *)
Ltac failed_step :=
  match goal with
  | H : w_lib _ ?s = Some ?e |- exists step, _ /\ w_lib _ step = Some ?e =>
      exists s; split; [set_solver|exact H]
  end.

(** service_google_drive raises only the exception of one of its library
    steps: a refused refresh never gets out. *)
Lemma service_google_drive_raises (w : world) (e : exn) :
  (service_google_drive w).1 = Raise e ->
  exists step, step ∈ drive_steps /\ w_lib w step = Some e.
Proof.
  unfold service_google_drive, interactive_login, attempt, drive_steps.
  cbv zeta.
  destruct (w_drive_token w) as [c|]; step_cases w; cbn;
    try destruct (valid c); cbn;
    try destruct (expired c); cbn;
    try destruct (truthy (refresh_token c)); cbn;
    try destruct (w_refresh w c); cbn;
    intros He; try discriminate He; injection He as <-; failed_step.
Qed.

(** service_youtube raises the exception of one of its library steps, or
    RefreshError for a refresh that was refused. *)
Lemma service_youtube_raises (w : world) (e : exn) :
  (service_youtube w).1 = Raise e ->
  (e = RefreshError
   /\ exists c msg, w_youtube_token w = Some c /\ needs_refresh c = true
                    /\ w_refresh w c = inr msg)
  \/ exists step, step ∈ youtube_steps /\ w_lib w step = Some e.
Proof.
  unfold service_youtube, interactive_login, attempt, youtube_steps,
    needs_refresh.
  cbv zeta.
  destruct (w_youtube_token w) as [c|]; step_cases w; cbn;
    try destruct (valid c) eqn:Hvalid; cbn;
    try destruct (expired c) eqn:Hexpired; cbn;
    try destruct (truthy (refresh_token c)) eqn:Htruthy; cbn;
    try destruct (w_refresh w c) as [refreshed|msg] eqn:Hrefresh; cbn;
    intros He; try discriminate He; injection He as <-;
    first [right; failed_step
          |left; split; [reflexivity|]; exists c, msg;
           rewrite Hvalid, Hexpired, Htruthy; auto].
Qed.

Section StepsSucceed.
Variable w : world.

(** Once its library steps succeed, a credential path is its logic alone. *)
Lemma service_google_drive_steps :
  (forall step, step ∈ drive_steps -> w_lib w step = None) ->
  service_google_drive w
  = (let* creds :=
       match w_drive_token w with
       | Some c =>
           if valid c then ret c
           else
             let* creds' :=
               if expired c && truthy (refresh_token c) then
                 emit ERefresh ;;
                 match w_refresh w c with
                 | inl refreshed => ret (Some refreshed)
                 | inr e =>
                     emit (EPrint ("Error refreshing access token: " +:+ e)) ;;
                     ret None
                 end
               else ret (Some c) in
             let* c' :=
               match creds' with
               | Some c' => ret c'
               | None => emit (ELogin "client_secret.json") ;; ret (w_login w)
               end in
             emit (EWriteToken "token.json" c') ;;
             ret c'
       | None =>
           emit (ELogin "client_secret.json") ;;
           emit (EWriteToken "token.json" (w_login w)) ;;
           ret (w_login w)
       end in
     ret {| service_name := "drive"; service_version := "v3";
            service_credentials := creds |}).
Proof.
  intros Hsteps. unfold service_google_drive, interactive_login, attempt.
  cbv zeta.
  rewrite !Hsteps by (unfold drive_steps; set_solver).
  destruct (w_drive_token w) as [c|]; [|reflexivity]. cbn.
  destruct (valid c); [reflexivity|]. cbn.
  destruct (expired c && truthy (refresh_token c)); [|reflexivity]. cbn.
  now destruct (w_refresh w c).
Qed.

Lemma service_youtube_steps :
  (forall step, step ∈ youtube_steps -> w_lib w step = None) ->
  service_youtube w
  = (let* creds :=
       match w_youtube_token w with
       | Some c =>
           if valid c then ret c
           else
             let* c' :=
               if expired c && truthy (refresh_token c) then
                 emit ERefresh ;;
                 match w_refresh w c with
                 | inl refreshed => ret refreshed
                 | inr _ => raise RefreshError
                 end
               else emit (ELogin "client_secret.json") ;; ret (w_login w) in
             emit (EWriteToken "youtube_token.pickle" c') ;;
             ret c'
       | None =>
           emit (ELogin "client_secret.json") ;;
           emit (EWriteToken "youtube_token.pickle" (w_login w)) ;;
           ret (w_login w)
       end in
     ret {| service_name := "youtube"; service_version := "v3";
            service_credentials := creds |}).
Proof.
  intros Hsteps. unfold service_youtube, interactive_login, attempt.
  cbv zeta.
  rewrite !Hsteps by (unfold youtube_steps; set_solver).
  destruct (w_youtube_token w) as [c|]; [|reflexivity]. cbn.
  destruct (valid c); [reflexivity|]. cbn.
  destruct (expired c && truthy (refresh_token c)); [|reflexivity]. cbn.
  now destruct (w_refresh w c).
Qed.
End StepsSucceed.

(** X14. service_google_drive never lets a refused refresh out: it comes
    back, and when it raises, it is with the exception of one of its library
    steps that stand outside the [try] (loading the token, reading the
    client secrets, the local server, storing the token, build).  When these
    steps succeed it returns.  It then logs in interactively exactly when
    there is no cached token or a refresh was tried and refused; it
    refreshes exactly when the cached credentials are not valid, expired and
    hold a refresh token; it writes token.json exactly when the cached
    credentials were absent or not valid, and what it writes is what it
    returns.  Cached credentials that are neither valid nor refreshable are
    written back and returned as they are, without any login. *)
Theorem service_google_drive_contract (w : world) :
  let m := service_google_drive w in
  m.1 <> OutOfFuel
  /\ (forall e, m.1 = Raise e ->
        exists step, step ∈ drive_steps /\ w_lib w step = Some e)
  /\ ((forall step, step ∈ drive_steps -> w_lib w step = None) ->
      exists creds,
        m.1 = Return {| service_name := "drive"; service_version := "v3";
                        service_credentials := creds |}
        /\ (forall f c, EWriteToken f c ∈ m.2 -> f = "token.json" /\ c = creds)
        /\ (count_events is_login m.2 = 1%nat
            <-> w_drive_token w = None
                \/ exists c msg, w_drive_token w = Some c
                                 /\ needs_refresh c = true
                                 /\ w_refresh w c = inr msg)
        /\ (count_events is_login m.2 <= 1)%nat
        /\ (count_events is_refresh m.2 = 1%nat
            <-> exists c, w_drive_token w = Some c /\ needs_refresh c = true)
        /\ (count_events is_write_token m.2 = 1%nat
            <-> forall c, w_drive_token w = Some c -> valid c = false)
        /\ (forall c, w_drive_token w = Some c -> valid c = false ->
                      needs_refresh c = false ->
                      creds = c /\ m.2 = [EWriteToken "token.json" c])).
Proof.
  cbv zeta. split; [|split; [apply service_google_drive_raises|]].
  - unfold service_google_drive, interactive_login, attempt. cbv zeta.
    destruct (w_drive_token w) as [c|]; step_cases w; cbn;
      try destruct (valid c); cbn;
      try destruct (expired c); cbn;
      try destruct (truthy (refresh_token c)); cbn;
      try destruct (w_refresh w c); cbn; discriminate.
  - intros Hsteps. rewrite (service_google_drive_steps w Hsteps).
    unfold needs_refresh.
    auth_cases w (w_drive_token w); cbn; eexists; (split; [reflexivity|]);
      (split; [intros f0 c0 H; trace_cases H; simplify_eq; auto|]);
      repeat split; try lia; auth_solve.
Qed.

(** X15. service_youtube comes back, and when it raises, it is with
    RefreshError for a refresh that was tried and refused, or with the
    exception of one of its library steps (loading the token, reading the
    client secrets, the local server, storing the token, build).  A refused
    refresh of a token that was loaded ends it at once, with no login and no
    token written.  When the library steps succeed, it raises exactly when
    a refresh is tried and refused; it logs in interactively exactly when
    there is no cached token or the cached credentials are not valid and
    cannot be refreshed; and when it returns, it has written
    youtube_token.pickle exactly when the cached credentials were absent or
    not valid, and what it wrote is what it returns. *)
Theorem service_youtube_contract (w : world) :
  let m := service_youtube w in
  m.1 <> OutOfFuel
  /\ (forall e, m.1 = Raise e ->
        (e = RefreshError
         /\ exists c msg, w_youtube_token w = Some c /\ needs_refresh c = true
                          /\ w_refresh w c = inr msg)
        \/ exists step, step ∈ youtube_steps /\ w_lib w step = Some e)
  /\ (forall c msg,
        w_youtube_token w = Some c ->
        w_lib w (PickleLoad "youtube_token.pickle") = None ->
        needs_refresh c = true -> w_refresh w c = inr msg ->
        m = (Raise RefreshError, [ERefresh]))
  /\ ((forall step, step ∈ youtube_steps -> w_lib w step = None) ->
      (forall e, m.1 = Raise e -> e = RefreshError /\ m.2 = [ERefresh])
      /\ ((exists e, m.1 = Raise e)
          <-> exists c msg, w_youtube_token w = Some c
                            /\ needs_refresh c = true
                            /\ w_refresh w c = inr msg)
      /\ (count_events is_login m.2 = 1%nat
          <-> w_youtube_token w = None
              \/ exists c, w_youtube_token w = Some c /\ valid c = false
                           /\ needs_refresh c = false)
      /\ (count_events is_login m.2 <= 1)%nat
      /\ (forall s, m.1 = Return s ->
            service_name s = "youtube"
            /\ (forall f c, EWriteToken f c ∈ m.2 ->
                            f = "youtube_token.pickle"
                            /\ c = service_credentials s)
            /\ (count_events is_write_token m.2 = 1%nat
                <-> forall c, w_youtube_token w = Some c -> valid c = false))).
Proof.
  cbv zeta. split; [|split; [apply service_youtube_raises|split]].
  - unfold service_youtube, interactive_login, attempt. cbv zeta.
    destruct (w_youtube_token w) as [c|]; step_cases w; cbn;
      try destruct (valid c); cbn;
      try destruct (expired c); cbn;
      try destruct (truthy (refresh_token c)); cbn;
      try destruct (w_refresh w c); cbn; discriminate.
  - intros c msg Htoken Hload Hneeds Hrefused.
    unfold needs_refresh in Hneeds.
    apply andb_prop in Hneeds as [Hneeds Htruthy].
    apply andb_prop in Hneeds as [Hvalid Hexpired].
    apply negb_true_iff in Hvalid.
    now apply (service_youtube_refresh_refused w c msg).
  - intros Hsteps. rewrite (service_youtube_steps w Hsteps).
    unfold needs_refresh.
    auth_cases w (w_youtube_token w); cbn;
      (split; [intros e0 H; simplify_eq; auto|]);
      (split; [split; auth_solve|]);
      (split; [split; auth_solve|]);
      (split; [lia|]);
      intros s Hs; simplify_eq; cbn;
      (split; [reflexivity|]);
      (split; [intros f0 c0 H; trace_cases H; simplify_eq; auto|]);
      split; auth_solve.
Qed.

(** * The daily loop *)

Lemma worklist_after_S (world_of : nat -> world) (api_key file : string)
    (start n : nat) :
  worklist_after world_of api_key file start (S n)
  = worklist_after world_of api_key
      (file_after file (process_books (world_of start) api_key file))
      (S start) n.
Proof.
  unfold worklist_after. cbn [seq map invocations].
  now destruct (invocations api_key (map world_of (seq (S start) n)) _).
Qed.

Lemma main_loop_stops (world_of : nat -> world) (uniform : nat -> Q)
    (api_key : string) (k : nat) :
  forall (fuel start : nat) (file : string) (e : exn),
    (k < fuel)%nat ->
    (forall j, (j < k)%nat ->
       is_return (process_books (world_of (start + j)) api_key
                    (worklist_after world_of api_key file start j)).1 = true) ->
    (process_books (world_of (start + k)) api_key
       (worklist_after world_of api_key file start k)).1 = Raise e ->
    let '(r, file', t) := main_loop world_of uniform api_key fuel start file in
    r = Raise e
    /\ file' = worklist_after world_of api_key file start k
    /\ count_cycles t = S k
    /\ count_sleeps t = k.
Proof.
  induction k as [|k IH]; intros fuel start file e Hfuel Hok Hraise.
  - destruct fuel as [|fuel]; [lia|]. cbn [main_loop].
    rewrite Nat.add_0_r in Hraise. unfold worklist_after in Hraise.
    cbn [seq map invocations fst] in Hraise. rewrite Hraise.
    repeat split.
  - destruct fuel as [|fuel]; [lia|]. cbn [main_loop].
    pose proof (Hok 0%nat ltac:(lia)) as H0.
    rewrite Nat.add_0_r in H0. unfold worklist_after in H0.
    cbn [seq map invocations fst] in H0.
    destruct (process_books (world_of start) api_key file).1 as [s| |] eqn:Hm;
      try discriminate H0.
    specialize (IH fuel (S start)
                  (file_after file (process_books (world_of start) api_key file))
                  e ltac:(lia)).
    destruct (main_loop world_of uniform api_key fuel (S start) _)
      as [[r file'] t].
    destruct IH as (Hr & Hf & Hc & Hs).
    + intros j Hj. specialize (Hok (S j) ltac:(lia)).
      rewrite worklist_after_S in Hok.
      now replace (start + S j)%nat with (S start + j)%nat in Hok by lia.
    + rewrite worklist_after_S in Hraise.
      now replace (start + S k)%nat with (S start + k)%nat in Hraise by lia.
    + rewrite worklist_after_S. cbn [count_cycles count_sleeps].
      repeat split; auto.
Qed.

(** X16. main has no handler of its own: it ends with the first exception
    that an invocation of process_books raises.  When the first [k]
    invocations return and the next one raises [e], main raises [e] after
    [k + 1] invocations and [k] sleeps, and the work-list is as those [k]
    invocations left it. *)
Theorem main_stops_at_first_exception
    (world_of : nat -> world) (uniform : nat -> Q) (api_key file : string)
    (k fuel : nat) (e : exn) :
  (k < fuel)%nat ->
  (forall j, (j < k)%nat ->
     is_return (process_books (world_of j) api_key
                  (worklist_after world_of api_key file 0 j)).1 = true) ->
  (process_books (world_of k) api_key
     (worklist_after world_of api_key file 0 k)).1 = Raise e ->
  (main world_of uniform api_key file fuel).1.1 = Raise e
  /\ (main world_of uniform api_key file fuel).1.2
     = worklist_after world_of api_key file 0 k
  /\ count_cycles (main world_of uniform api_key file fuel).2 = S k
  /\ count_sleeps (main world_of uniform api_key file fuel).2 = k.
Proof.
  intros Hfuel Hok Hraise. unfold main.
  pose proof (main_loop_stops world_of uniform api_key k fuel 0 file e Hfuel)
    as H.
  cbn [Nat.add] in H. specialize (H Hok Hraise).
  now destruct (main_loop world_of uniform api_key fuel 0 file) as [[r f] t].
Qed.

Lemma main_stops_at_first_exception_witness :
  (main two_days (fun _ => 22 # 1) "key" sample_worklist 9).1.1
  = Raise TypeError
  /\ Str.readlines (main two_days (fun _ => 22 # 1) "key" sample_worklist 9).1.2
     = ["PROCESSED: Dune" +:+ nl; " Dune " +:+ nl; "PROCESSED: Emma" +:+ nl;
        "Ulysses"].
Proof.
  destruct (main_stops_at_first_exception two_days (fun _ => 22 # 1) "key"
              sample_worklist 1 9 TypeError) as (Hr & Hf & _).
  - lia.
  - intros j Hj. assert (j = 0%nat) as -> by lia. vm_compute. reflexivity.
  - vm_compute. reflexivity.
  - split; [exact Hr|]. rewrite Hf. vm_compute. reflexivity.
Defined.

Lemma main_loop_sleeps (world_of : nat -> world) (uniform : nat -> Q)
    (api_key : string) (fuel : nat) :
  (forall n, (20 <= uniform n)%Q /\ (uniform n <= 24)%Q) ->
  forall (start : nat) (file : string),
    let '(r, file', t) := main_loop world_of uniform api_key fuel start file in
    r <> Return tt
    /\ (forall s, MSleep s ∈ t -> (72000 <= s)%Q /\ (s <= 86400)%Q)
    /\ (count_sleeps t <= count_cycles t <= fuel)%nat
    /\ (count_cycles t <= S (count_sleeps t))%nat.
Proof.
  intros Hdraw. induction fuel as [|fuel IH]; intros start file;
    cbn [main_loop].
  - split; [discriminate|]. split; [|simpl; lia].
    intros s H. now apply elem_of_nil in H.
  - destruct (process_books (world_of start) api_key file).1 as [s| |].
    + specialize (IH (S start)
                    (file_after file
                       (process_books (world_of start) api_key file))).
      destruct (main_loop world_of uniform api_key fuel (S start) _)
        as [[r file'] t].
      destruct IH as (Hr & Hs & Hc & Hc').
      split; [exact Hr|]. split; [|cbn [count_sleeps count_cycles]; lia].
      intros x H. apply elem_of_cons in H as [H|H]; [discriminate|].
      apply elem_of_cons in H as [H|H]; [discriminate|].
      apply elem_of_cons in H as [H|H]; [|now apply Hs].
      injection H as ->. destruct (Hdraw start) as [Hlo Hhi].
      destruct (uniform start) as [p q]. unfold Qle in *. simpl in *.
      split; lia.
    + split; [discriminate|]. split; [|simpl; lia].
      intros x H. apply elem_of_cons in H as [H|H]; [discriminate|].
      now apply elem_of_nil in H.
    + split; [discriminate|]. split; [|simpl; lia].
      intros x H. apply elem_of_cons in H as [H|H]; [discriminate|].
      now apply elem_of_nil in H.
Qed.

Lemma flat_map_seq_S {A} (f : nat -> list A) (k : nat) :
  flat_map f (seq 0 (S k)) = f 0%nat ++ flat_map (fun j => f (S j)) (seq 0 k).
Proof.
  cbn [seq flat_map]. f_equal. rewrite <- seq_shift.
  rewrite !flat_map_concat_map, map_map. reflexivity.
Qed.

(** What a run of main consists of: [k] invocations that returned, each
    followed by its sleep, and then, unless the fuel is used up, the
    invocation that did not return. *)
Lemma main_loop_schedule (world_of : nat -> world) (uniform : nat -> Q)
    (api_key : string) (fuel : nat) :
  forall (start : nat) (file : string),
    let day j :=
      process_books (world_of (start + j)%nat) api_key
        (worklist_after world_of api_key file start j) in
    let run := main_loop world_of uniform api_key fuel start file in
    exists k,
      (k <= fuel)%nat
      /\ (forall j, (j < k)%nat -> is_return (day j).1 = true)
      /\ schedule run.2
         = flat_map (fun j => [Some (day j).2; None]) (seq 0 k)
           ++ (if (k <? fuel)%nat then [Some (day k).2] else [])
      /\ (if (k <? fuel)%nat
          then match (day k).1 with
               | Return _ => False
               | Raise e => run.1.1 = Raise e
               | OutOfFuel => run.1.1 = OutOfFuel
               end
          else run.1.1 = OutOfFuel)
      /\ count_sleeps run.2 = k
      /\ run.1.2 = worklist_after world_of api_key file start k.
Proof.
  induction fuel as [|fuel IH]; intros start file; cbv zeta.
  - exists 0%nat. cbn. repeat split; auto. intros j Hj. lia.
  - cbn [main_loop].
    assert (H0 : worklist_after world_of api_key file start 0 = file)
      by reflexivity.
    destruct (process_books (world_of start) api_key file).1 as [s|e|] eqn:Hm.
    + specialize (IH (S start)
                    (file_after file
                       (process_books (world_of start) api_key file))).
      cbv zeta in IH.
      destruct (main_loop world_of uniform api_key fuel (S start) _)
        as [[r file'] t].
      destruct IH as (k & Hk & Hret & Hsched & Hend & Hsleeps & Hfile).
      cbn [fst snd] in *.
      exists (S k). split; [lia|]. split.
      { intros j Hj. destruct j as [|j].
        - rewrite Nat.add_0_r, H0, Hm. reflexivity.
        - rewrite worklist_after_S.
          replace (start + S j)%nat with (S start + j)%nat by lia.
          apply Hret. lia. }
      split.
      { cbn [schedule]. rewrite Hsched, flat_map_seq_S.
        rewrite Nat.add_0_r, H0. cbn [app]. do 2 f_equal.
        change (S k <? S fuel)%nat with (k <? fuel)%nat.
        f_equal.
        - apply flat_map_ext. intros j.
          rewrite worklist_after_S.
          now replace (start + S j)%nat with (S start + j)%nat by lia.
        - rewrite worklist_after_S.
          now replace (start + S k)%nat with (S start + k)%nat by lia. }
      split.
      { change (S k <? S fuel)%nat with (k <? fuel)%nat.
        rewrite worklist_after_S.
        now replace (start + S k)%nat with (S start + k)%nat by lia. }
      split; [cbn [count_sleeps]; now rewrite Hsleeps|].
      now rewrite worklist_after_S.
    + exists 0%nat. cbn [seq flat_map app fst snd schedule count_sleeps].
      rewrite Nat.add_0_r, H0, Hm.
      repeat split; auto; try lia.
    + exists 0%nat. cbn [seq flat_map app fst snd schedule count_sleeps].
      rewrite Nat.add_0_r, H0, Hm.
      repeat split; auto; try lia.
Qed.

(** X17. main never returns: it goes on until an invocation does not
    return.  Its run is, in this order, each invocation that returned
    followed by one sleep, and last the invocation that raised: it sleeps
    exactly once after every invocation that returned, before the next one,
    and never after one that raised, each invocation working on the
    work-list as the ones before it left it.  The draws of
    random.uniform(20, 24) lying between 20 and 24, every sleep lasts
    between 72000 and 86400 seconds. *)
Theorem main_sleeps_between_invocations
    (world_of : nat -> world) (uniform : nat -> Q) (api_key file : string)
    (fuel : nat) :
  (forall n, (20 <= uniform n)%Q /\ (uniform n <= 24)%Q) ->
  let run := main world_of uniform api_key file fuel in
  let day j :=
    process_books (world_of j) api_key
      (worklist_after world_of api_key file 0 j) in
  run.1.1 <> Return tt
  /\ (forall s, MSleep s ∈ run.2 -> (72000 <= s)%Q /\ (s <= 86400)%Q)
  /\ exists k,
       (k <= fuel)%nat
       /\ (forall j, (j < k)%nat -> is_return (day j).1 = true)
       /\ schedule run.2
          = flat_map (fun j => [Some (day j).2; None]) (seq 0 k)
            ++ (if (k <? fuel)%nat then [Some (day k).2] else [])
       /\ (if (k <? fuel)%nat
           then match (day k).1 with
                | Return _ => False
                | Raise e => run.1.1 = Raise e
                | OutOfFuel => run.1.1 = OutOfFuel
                end
           else run.1.1 = OutOfFuel)
       /\ count_sleeps run.2 = k
       /\ run.1.2 = worklist_after world_of api_key file 0 k.
Proof.
  intros Hdraw. cbv zeta. unfold main.
  pose proof (main_loop_sleeps world_of uniform api_key fuel Hdraw 0 file) as H.
  pose proof (main_loop_schedule world_of uniform api_key fuel 0 file) as Hs.
  cbv zeta in Hs. cbn [Nat.add] in Hs.
  destruct (main_loop world_of uniform api_key fuel 0 file) as [[r f] t].
  destruct H as (Hr & Hrange & _). split; [exact Hr|]. split; [exact Hrange|].
  exact Hs.
Qed.

Lemma main_sleeps_between_invocations_witness :
  schedule (main two_days (fun _ => 22 # 1) "key" sample_worklist 9).2
  = [Some (process_books world_ok "key" sample_worklist).2;
     None;
     Some (process_books world_summary_down "key"
             (file_after sample_worklist
                (process_books world_ok "key" sample_worklist))).2]
  /\ (72000 <= 79200 # 1)%Q /\ (79200 # 1 <= 86400)%Q.
Proof.
  assert (Hin : MSleep (79200 # 1)
                ∈ (main two_days (fun _ => 22 # 1) "key" sample_worklist 9).2).
  { apply list_elem_of_In. vm_compute. right. right. left. reflexivity. }
  destruct (main_sleeps_between_invocations two_days (fun _ => 22 # 1) "key"
              sample_worklist 9) as (_ & Hs & _).
  - intros n. split; discriminate.
  - split; [vm_compute; reflexivity|exact (Hs _ Hin)].
Defined.

(** * The chunk loop of the upload *)

Lemma count_chunks_app (t1 t2 : list upload_event) :
  count_chunks (t1 ++ t2) = (count_chunks t1 + count_chunks t2)%nat.
Proof.
  induction t1 as [|e t1 IH]; [reflexivity|]. destruct e; simpl; now rewrite IH.
Qed.




